(** * liana-py: method registry, per-sample orchestration, dotplot
      table preparation and score rescaling, embedded from
      [liana/method/_Method.py], [liana/steady/Method.py] and
      [liana/plotting/_dotplot.py]. *)

From Stdlib Require Import ZArith QArith Floats.
From stdpp Require Import base option list strings gmap sorting.

Local Open Scope string_scope.
Local Open Scope Z_scope.
Local Open Scope list_scope.

(** ** Exceptions and the checked-result type *)

(** The Python exceptions the modelled code can raise.  [LabelsNotFound]
    is the [ValueError] of [_filter_labels]; it carries the array
    [not_covered] and the [label_type] its message is formatted from. *)
Inductive exn : Type :=
| ValueError (msg : string)
| KeyError (key : option string)
| TypeError (msg : string)
| AttributeError (msg : string)
| AssertionError
| LabelsNotFound (not_covered : list string) (label_type : string).

Inductive result (A : Type) : Type :=
| Ok (a : A)
| Err (e : exn).
Arguments Ok {A} a.
Arguments Err {A} e.

Definition rbind {A B : Type} (r : result A) (k : A → result B) : result B :=
  match r with
  | Ok a => k a
  | Err e => Err e
  end.

Notation "'let!' x ':=' r 'in' k" := (rbind r (fun x => k))
  (at level 10, x name, r at level 100, k at level 200, only parsing).

(** Insertion sort; used for pandas' sorted category levels and sorted
    group keys. *)
Fixpoint insert_sorted {A : Type} (leb : A → A → bool) (x : A) (l : list A) : list A :=
  match l with
  | [] => [x]
  | y :: l' => if leb x y then x :: l else y :: insert_sorted leb x l'
  end.

Fixpoint isort {A : Type} (leb : A → A → bool) (l : list A) : list A :=
  match l with
  | [] => []
  | x :: l' => insert_sorted leb x (isort leb l')
  end.

(** [x in l] on strings. *)
Definition str_in (x : string) (l : list string) : bool :=
  existsb (String.eqb x) l.

(** Unique values in order of first appearance ([pandas.unique]). *)
Fixpoint unique {A : Type} `{EqDecision A} (l : list A) : list A :=
  match l with
  | [] => []
  | x :: l' => x :: List.filter (fun y => negb (bool_decide (x = y))) (unique l')
  end.

(** Boolean-mask selection, [l[mask]]. *)
Fixpoint select {A : Type} (mask : list bool) (l : list A) : list A :=
  match mask, l with
  | b :: mask', x :: l' => if b then x :: select mask' l' else select mask' l'
  | _, _ => []
  end.

(** [DataFrame.head(n)]: the first [n] entries, or all but the last
    [-n] when [n] is negative. *)
Definition head {A : Type} (n : Z) (l : list A) : list A :=
  if 0 <=? n then firstn (Z.to_nat n) l
  else firstn (length l - Z.to_nat (- n))%nat l.

(** ** [liana/method/_Method.py] *)
Module Method.

(** A table with an index: one [(label, row)] entry per line. *)
Definition DataFrame (R : Type) : Type := list (Z * R).

Definition frame_rows {R : Type} (df : DataFrame R) : list R := map snd df.

(** A frame of optional strings with named columns, as [get_meta]
    builds; [None] is a missing value. *)
Record MetaFrame : Type := mkMetaFrame {
  mf_columns : list string;
  mf_index : list Z;
  mf_data : list (list (option string))
}.

(** An annotation column of [adata.obs]: either of categorical dtype,
    with its ordered category levels, or of any other dtype.  A missing
    value is [None]. *)
Inductive Series : Type :=
| Categorical (categories : list string) (values : list (option string))
| Object (values : list (option string)).

Definition series_values (s : Series) : list (option string) :=
  match s with
  | Categorical _ vs => vs
  | Object vs => vs
  end.

(** [series.dtype.name != "category"] *)
Definition is_category (s : Series) : bool :=
  match s with
  | Categorical _ _ => true
  | Object _ => false
  end.

(** [series.astype("category")]: the levels are the sorted unique
    non-missing values. *)
Definition astype_category (s : Series) : Series :=
  match s with
  | Categorical cs vs => Categorical cs vs
  | Object vs => Categorical (isort String.leb (unique (omap id vs))) vs
  end.

(** [series.cat.categories] *)
Definition cat_categories (s : Series) : list string :=
  match s with
  | Categorical cs _ => cs
  | Object _ => []
  end.

(** [series == sample] *)
Definition series_eq (s : Series) (sample : string) : list bool :=
  map (fun v => match v with Some x => String.eqb x sample | None => false end)
      (series_values s).

(** The three spellings of [verbose] that [by_sample] distinguishes. *)
Inductive verbosity : Type := VFalse | VTrue | VFull.

(** What reaches the caller's console. *)
Inductive event : Type :=
| Progress (description : string)
| Warning (message : string).

(** Keyword arguments of [Method.__call__] other than [adata],
    [verbose] and [inplace]. *)
Record CallArgs : Type := mkCallArgs {
  groupby : string;
  resource_name : string;
  expr_prop : Q;
  min_cells : Z;
  base : Q;
  supp_columns : option (list string);
  return_all_lrs : bool;
  use_raw : option bool;
  layer : option string;
  de_method : string;
  n_perms : Z;
  seed : Z;
  resource : option (list (string * string))
}.

Section WithPipe.

(** [ScoreFun]: scoring function handles; [Expr]: the per-cell
    expression data of an [AnnData]; [R]: the rows of a result table. *)
Context {ScoreFun Expr R : Type}.

Record MethodMeta : Type := mkMethodMeta {
  method_name : string;
  complex_cols : list string;
  add_cols : list string;
  fun_ : ScoreFun;
  magnitude : option string;
  magnitude_ascending : option bool;
  specificity : option string;
  specificity_ascending : option bool;
  permute : bool;
  reference : string
}.

(** [MethodMeta.__init__]: stores its arguments and appends the new
    object to the class-level [instances] list. *)
Definition MethodMeta_init (instances : list MethodMeta)
    (method_name : string) (complex_cols add_cols : list string) (fn : ScoreFun)
    (magnitude : option string) (magnitude_ascending : option bool)
    (specificity : option string) (specificity_ascending : option bool)
    (permute : bool) (reference : string) : MethodMeta * list MethodMeta :=
  let self := mkMethodMeta method_name complex_cols add_cols fn
                magnitude magnitude_ascending
                specificity specificity_ascending permute reference in
  (self, instances ++ [self]).

Definition get_meta (self : MethodMeta) : MetaFrame :=
  {| mf_columns := ["Method Name"; "Magnitude Score"; "Specificity Score"; "Reference"];
     mf_index := [0];
     mf_data := [[Some (method_name self); magnitude self;
                  specificity self; Some (reference self)]] |}.

(** Values stored in [adata.uns]. *)
Inductive UnsVal : Type :=
| UnsFrame (df : DataFrame R)
| UnsBySample (sample_key : string) (df : DataFrame (string * R))
| UnsDict (d : list (string * DataFrame R))
| UnsOther (repr : string).

Record AnnData : Type := mkAnnData {
  obs : gmap string Series;
  X : list Expr;
  uns : gmap string UnsVal
}.

Definition set_obs (k : string) (s : Series) (a : AnnData) : AnnData :=
  {| obs := <[k := s]> (obs a); X := X a; uns := uns a |}.

Definition set_uns (k : string) (v : UnsVal) (a : AnnData) : AnnData :=
  {| obs := obs a; X := X a; uns := <[k := v]> (uns a) |}.

(** [adata[mask].copy()]: the selected cells with their annotations;
    category levels without a cell left are removed; [uns] is copied. *)
Definition subset_series (mask : list bool) (s : Series) : Series :=
  match s with
  | Categorical cs vs =>
      let vs' := select mask vs in
      Categorical (List.filter (fun c => str_in c (omap id vs')) cs) vs'
  | Object vs => Object (select mask vs)
  end.

Definition subset_copy (a : AnnData) (mask : list bool) : AnnData :=
  {| obs := subset_series mask <$> obs a;
     X := select mask (X a);
     uns := uns a |}.

(** The arguments [Method.__call__] hands to [liana_pipe]. *)
Record PipeArgs : Type := mkPipeArgs {
  p_adata : AnnData;
  p_groupby : string;
  p_resource_name : string;
  p_resource : option (list (string * string));
  p_expr_prop : Q;
  p_min_cells : Z;
  p_supp_columns : list string;
  p_return_all_lrs : bool;
  p_base : Q;
  p_de_method : string;
  p_verbose : bool;
  p_score : MethodMeta;
  p_n_perms : Z;
  p_seed : Z;
  p_use_raw : option bool;
  p_layer : option string
}.

(** [Method(_SCORE)]: the metadata copied from [_SCORE], and [_SCORE]. *)
Record MethodT : Type := mkMethod {
  meta : MethodMeta;
  _SCORE : MethodMeta
}.

Definition Method_init (instances : list MethodMeta) (score : MethodMeta)
    : MethodT * list MethodMeta :=
  let '(m, instances') :=
    MethodMeta_init instances (method_name score) (complex_cols score)
      (add_cols score) (fun_ score) (magnitude score) (magnitude_ascending score)
      (specificity score) (specificity_ascending score) (permute score)
      (reference score) in
  ({| meta := m; _SCORE := score |}, instances').

(** [liana_pipe] lives in [liana/method/_liana_pipe.py]; it is taken as
    a parameter. *)
Variable liana_pipe : PipeArgs → result (DataFrame R).

(** A small state-and-exception monad over the [AnnData] object a
    function mutates and the console. *)
Record world : Type := mkWorld {
  w_adata : AnnData;
  w_console : list event
}.

Definition M (A : Type) : Type := world → result A * world.

Definition ret {A : Type} (a : A) : M A := fun w => (Ok a, w).

Definition raise {A : Type} (e : exn) : M A := fun w => (Err e, w).

Definition bind {A B : Type} (m : M A) (k : A → M B) : M B :=
  fun w => match m w with
           | (Ok a, w') => k a w'
           | (Err e, w') => (Err e, w')
           end.

Definition get_adata : M AnnData := fun w => (Ok (w_adata w), w).

Definition modify_adata (f : AnnData → AnnData) : M unit :=
  fun w => (Ok tt, {| w_adata := f (w_adata w); w_console := w_console w |}).

Definition emit (e : event) : M unit :=
  fun w => (Ok tt, {| w_adata := w_adata w; w_console := w_console w ++ [e] |}).

Definition lift_result {A : Type} (r : result A) : M A := fun w => (r, w).

(** [adata.obs[key]] and [adata.uns[key]] *)
Definition get_obs (key : string) : M Series :=
  fun w => match obs (w_adata w) !! key with
           | Some col => (Ok col, w)
           | None => (Err (KeyError (Some key)), w)
           end.

Definition get_uns (key : string) : M UnsVal :=
  fun w => match uns (w_adata w) !! key with
           | Some v => (Ok v, w)
           | None => (Err (KeyError (Some key)), w)
           end.

Notation "'let*' x ':=' m 'in' k" := (bind m (fun x => k))
  (at level 10, x name, m at level 100, k at level 200, only parsing).
Notation "m ;; k" := (bind m (fun _ => k))
  (at level 100, k at level 200, right associativity, only parsing).

(** The keyword arguments of the [liana_pipe(...)] call in
    [Method.__call__]. *)
Definition pipe_args (self : MethodT) (adata : AnnData) (kw : CallArgs)
    (verbose : bool) : PipeArgs :=
  let supp_columns := match supp_columns kw with
                      | None => []
                      | Some cs => cs
                      end in
  {| p_adata := adata;
     p_groupby := groupby kw;
     p_resource_name := resource_name kw;
     p_resource := resource kw;
     p_expr_prop := expr_prop kw;
     p_min_cells := min_cells kw;
     p_supp_columns := supp_columns;
     p_return_all_lrs := return_all_lrs kw;
     p_base := base kw;
     p_de_method := de_method kw;
     p_verbose := verbose;
     p_score := _SCORE self;
     p_n_perms := n_perms kw;
     p_seed := seed kw;
     p_use_raw := use_raw kw;
     p_layer := layer kw |}.

(** [Method.__call__], run on the object in the world. *)
Definition Method_call (self : MethodT) (kw : CallArgs)
    (verbose : bool) (inplace : bool) : M (option (DataFrame R)) :=
  let* adata := get_adata in
  let* liana_res := lift_result (liana_pipe (pipe_args self adata kw verbose)) in
  if inplace
  then modify_adata (set_uns "liana_res" (UnsFrame liana_res)) ;; ret None
  else ret (Some liana_res).

(** A call on a separate object [temp]: the caller's object is not the
    one mutated, the console is shared. *)
Definition call_on (temp : AnnData) {A : Type} (m : M A) : M A :=
  fun w =>
    let '(r, w') := m {| w_adata := temp; w_console := w_console w |} in
    (r, {| w_adata := w_adata w; w_console := w_console w' |}).

(** [d[k] = v] on an insertion-ordered dict. *)
Fixpoint dict_set {V : Type} (k : string) (v : V) (d : list (string * V))
    : list (string * V) :=
  match d with
  | [] => [(k, v)]
  | (k', v') :: d' =>
      if String.eqb k k' then (k, v) :: d' else (k', v') :: dict_set k v d'
  end.

(** [adata.uns['liana_res'][sample] = sample_res] *)
Definition store_sample (sample : string) (sample_res : DataFrame R) : M unit :=
  let* slot := get_uns "liana_res" in
  match slot with
  | UnsDict d =>
      modify_adata (set_uns "liana_res" (UnsDict (dict_set sample sample_res d)))
  | _ => raise (TypeError "object does not support item assignment")
  end.

(** The body of the [for sample in progress_bar] loop. *)
Definition run_sample (self : MethodT) (sample_key : string) (kw : CallArgs)
    (verbose full_verbose : bool) (sample : string) : M unit :=
  (if verbose then emit (Progress ("Now running: " +:+ sample)) else ret tt) ;;
  let* adata := get_adata in
  let* col := get_obs sample_key in
  let temp := subset_copy adata (series_eq col sample) in
  let* sample_res := call_on temp (Method_call self kw full_verbose false) in
  match sample_res with
  | Some df => store_sample sample df
  | None => raise (TypeError "sample result is None")
  end.

Fixpoint for_each {A : Type} (body : A → M unit) (l : list A) : M unit :=
  match l with
  | [] => ret tt
  | x :: l' => body x ;; for_each body l'
  end.

(** [concat(d)] on a dict of frames: the rows of every frame in key
    order, indexed by [(key, label)]; pandas refuses an empty dict. *)
Definition concat_dict (d : list (string * DataFrame R))
    : result (list ((string * Z) * R)) :=
  match d with
  | [] => Err (ValueError "No objects to concatenate")
  | _ => Ok (flat_map (fun '(k, df) => map (fun '(i, r) => ((k, i), r)) df) d)
  end.

(** [.reset_index(level=1, drop=True)] *)
Definition drop_level1 (df : list ((string * Z) * R)) : list (string * R) :=
  map (fun '((k, _), r) => (k, r)) df.

(** [.reset_index()] followed by the renaming of the new column: the
    old index becomes the first column, the new index counts from 0. *)
Definition reset_index (df : list (string * R)) : DataFrame (string * R) :=
  zip (seqZ 0 (Z.of_nat (length df))) df.

Definition by_sample (self : MethodT) (sample_key : string)
    (inplace : bool) (verbose : verbosity) (kw : CallArgs)
    : M (option (DataFrame (string * R))) :=
  let* adata := get_adata in
  match obs adata !! sample_key with
  | None => raise (ValueError (sample_key +:+ " was not found in `adata.obs`."))
  | Some col =>
      (if is_category col
       then ret tt
       else
         (* the source builds this message and drops it *)
         let _ := "`" +:+ sample_key +:+ "` was assigned as a categorical." in
         modify_adata (set_obs sample_key (astype_category col))) ;;
      let '(verbose, full_verbose) :=
        match verbose with
        | VFull => (true, true)
        | VTrue => (true, false)
        | VFalse => (false, false)
        end in
      let* col := get_obs sample_key in
      let samples := cat_categories col in
      modify_adata (set_uns "liana_res" (UnsDict [])) ;;
      for_each (run_sample self sample_key kw verbose full_verbose) samples ;;
      let* slot := get_uns "liana_res" in
      match slot with
      | UnsDict d =>
          let* cat := lift_result (concat_dict d) in
          let liana_res := reset_index (drop_level1 cat) in
          if inplace
          then modify_adata (set_uns "liana_res" (UnsBySample sample_key liana_res)) ;;
               ret None
          else ret (Some liana_res)
      | _ => raise (TypeError "cannot concatenate object")
      end
  end.

(** The table [by_sample] assembles from the per-sample tables, given
    in iteration order with their sample names. *)
Definition combined (d : list (string * DataFrame R)) : DataFrame (string * R) :=
  reset_index
    (drop_level1 (flat_map (fun '(k, df) => map (fun '(i, r) => ((k, i), r)) df) d)).

(** The rows of the per-sample tables, each tagged with its sample. *)
Definition tagged (d : list (string * DataFrame R)) : list (string * R) :=
  flat_map (fun '(s, t) => map (pair s) (frame_rows t)) d.

(** The slice of a combined table for one sample, without the sample
    column and the index. *)
Definition sample_slice (sample : string) (df : DataFrame (string * R)) : list R :=
  map snd (List.filter (fun sr => String.eqb (fst sr) sample) (frame_rows df)).

(** The flag [by_sample] passes to the per-sample runs, and whether it
    reports progress. *)
Definition full_verbose_of (verbose : verbosity) : bool :=
  match verbose with
  | VFull => true
  | _ => false
  end.

Definition reports_progress (verbose : verbosity) : bool :=
  match verbose with
  | VFalse => false
  | _ => true
  end.

(** A direct call [self(temp, inplace=False, verbose=..., **kw)]. *)
Definition direct_run (self : MethodT) (kw : CallArgs) (verbose : bool)
    (temp : AnnData) : result (option (DataFrame R)) :=
  fst (Method_call self kw verbose false {| w_adata := temp; w_console := [] |}).

(** [liana_pipe] does not read [adata.uns]. *)
Definition with_uns (u : gmap string UnsVal) (a : AnnData) : AnnData :=
  {| obs := obs a; X := X a; uns := u |}.

Definition ignores_uns : Prop :=
  ∀ (self : MethodT) (a : AnnData) (kw : CallArgs) (verbose : bool)
    (u : gmap string UnsVal),
    liana_pipe (pipe_args self (with_uns u a) kw verbose) =
    liana_pipe (pipe_args self a kw verbose).

(** [t] is the table of the method's call on the cells of sample [s]
    of [a], whatever [a.uns] holds at the time of the call. *)
Definition sample_run (self : MethodT) (kw : CallArgs) (verbose : bool)
    (a : AnnData) (col : Series) (s : string) (t : DataFrame R) : Prop :=
  ∃ u, direct_run self kw verbose
         (subset_copy (with_uns u a) (series_eq col s)) = Ok (Some t).

(** [by_sample] produces [table]: it returns it, or stores it under
    ['liana_res'] and returns [None] when [inplace]. *)
Definition produces (run : result (option (DataFrame (string * R))) * world)
    (sample_key : string) (inplace : bool) (table : DataFrame (string * R)) : Prop :=
  if inplace
  then fst run = Ok None
       ∧ uns (w_adata (snd run)) !! "liana_res" = Some (UnsBySample sample_key table)
  else fst run = Ok (Some table).

(** A categorical column is well formed when its levels are distinct. *)
Definition wf_series (s : Series) : Prop :=
  match s with
  | Categorical cs _ => NoDup cs
  | Object _ => True
  end.

(** The input object once the sample column is categorical. *)
Definition coerced (sample_key : string) (col : Series) (a : AnnData) : AnnData :=
  if is_category col then a else set_obs sample_key (astype_category col) a.

(** The description the progress bar shows for a sample. *)
Definition progress_of (sample : string) : event :=
  Progress ("Now running: " +:+ sample).

Definition progress_if (verbose : bool) (samples : list string) : list event :=
  if verbose then map progress_of samples else [].

(** Only events satisfying [P] reach the console. *)
Definition emits_only {A : Type} (P : event → Prop) (m : M A) : Prop :=
  ∀ w, ∃ evs, w_console (snd (m w)) = w_console w ++ evs ∧ Forall P evs.

End WithPipe.

(** A toy pipeline and data set: one result row per cell, holding the
    cell's value. *)
Definition toy_pipe (args : @PipeArgs unit Z Z) : result (DataFrame Z) :=
  Ok (imap (fun i x => (Z.of_nat i, x)) (X (p_adata args))).

Definition toy_score : @MethodMeta unit :=
  mkMethodMeta "toy" [] [] tt (Some "lr_means") (Some false)
               (Some "pvals") (Some true) false "Doe et al., 2022".

Definition toy_method : @MethodT unit := {| meta := toy_score; _SCORE := toy_score |}.

Definition toy_kwargs : CallArgs :=
  mkCallArgs "cell_type" "consensus" (1 # 10) 5 (2718281828459045 # 1000000000000000)
             None false (Some true) None "t-test" 1000 1337 None.

Definition toy_adata : @AnnData Z Z :=
  {| obs := {[ "sample" := Categorical ["s1"; "s2"] [Some "s1"; Some "s2"; Some "s1"] ]};
     X := [10; 20; 30];
     uns := {[ "liana_res" := UnsOther "old" ]} |}.

Definition toy_adata_object : @AnnData Z Z :=
  {| obs := {[ "sample" := Object [Some "s2"; Some "s1"; Some "s2"] ]};
     X := [10; 20; 30];
     uns := ∅ |}.

(** [pandas.concat] on a list of frames: the union of the columns in
    order of first appearance, every row laid out on it (a column the
    row's frame lacks is missing), indexes kept. *)
Definition all_columns (frames : list MetaFrame) : list string :=
  unique (flat_map mf_columns frames).

Fixpoint lookup_col (c : string) (cols : list string) (row : list (option string))
    : option string :=
  match cols, row with
  | c' :: cols', v :: row' => if String.eqb c c' then v else lookup_col c cols' row'
  | _, _ => None
  end.

Definition realign (cols : list string) (f : MetaFrame) : list (list (option string)) :=
  map (fun row => map (fun c => lookup_col c (mf_columns f) row) cols) (mf_data f).

Definition concat (frames : list MetaFrame) : result MetaFrame :=
  match frames with
  | [] => Err (ValueError "No objects to concatenate")
  | _ =>
      let cols := all_columns frames in
      Ok {| mf_columns := cols;
            mf_index := flat_map mf_index frames;
            mf_data := flat_map (realign cols) frames |}
  end.

(** The header and the row of a [get_meta] table. *)
Definition meta_columns : list string :=
  ["Method Name"; "Magnitude Score"; "Specificity Score"; "Reference"].

Definition meta_row {ScoreFun : Type} (m : @MethodMeta ScoreFun) : list (option string) :=
  [Some (method_name m); magnitude m; specificity m; Some (reference m)].

Definition _show_methods {ScoreFun : Type} (methods : list (@MethodMeta ScoreFun))
    : result MetaFrame :=
  concat (map get_meta methods).

(** *** The printing methods of [MethodMeta] *)

(** [f"{v}"] of a name that may be [None]. *)
Definition fmt (v : option string) : string :=
  match v with
  | Some s => s
  | None => "None"
  end.

(** The line the body of [describe] prints. *)
Definition describe_line {ScoreFun : Type} (self : @MethodMeta ScoreFun) : string :=
  method_name self +:+ " uses `" +:+ fmt (magnitude self) +:+ "` and `"
    +:+ fmt (specificity self) +:+ "`"
    +:+ " as measures of expression strength and interaction specificity, respectively".

(** The values an attribute of an instance can hold. *)
Inductive PyVal {ScoreFun : Type} : Type :=
| PStr (s : string)
| PStrOrNone (s : option string)
| PBoolOrNone (b : option bool)
| PBool (b : bool)
| PList (l : list string)
| PCallable (f : ScoreFun).

(** The instance attributes [__init__] assigns, by name. *)
Definition instance_attrs {ScoreFun : Type} (self : @MethodMeta ScoreFun)
    : gmap string (@PyVal ScoreFun) :=
  list_to_map
    [ ("method_name", PStr (method_name self));
      ("complex_cols", PList (complex_cols self));
      ("add_cols", PList (add_cols self));
      ("fun", PCallable (fun_ self));
      ("magnitude", PStrOrNone (magnitude self));
      ("magnitude_ascending", PBoolOrNone (magnitude_ascending self));
      ("specificity", PStrOrNone (specificity self));
      ("specificity_ascending", PBoolOrNone (specificity_ascending self));
      ("permute", PBool (permute self));
      ("reference", PStr (reference self)) ].

(** [type(v).__name__] *)
Definition type_name {ScoreFun : Type} (v : @PyVal ScoreFun) : string :=
  match v with
  | PStr _ => "str"
  | PStrOrNone (Some _) => "str"
  | PStrOrNone None => "NoneType"
  | PBoolOrNone (Some _) => "bool"
  | PBoolOrNone None => "NoneType"
  | PBool _ => "bool"
  | PList _ => "list"
  | PCallable _ => "function"
  end.

(** The two methods of [MethodMeta] that print. *)
Inductive printer : Type := Describe | Reference.

Definition printer_name (p : printer) : string :=
  match p with
  | Describe => "describe"
  | Reference => "reference"
  end.

(** [self.describe()] and [self.reference()], with the lines they
    print.  The name is looked up on the instance first: an attribute
    assigned by [__init__] comes before the function the class defines
    under the same name, and is what gets called. *)
Definition call_printer {ScoreFun : Type} (self : @MethodMeta ScoreFun)
    (p : printer) : result (list string) :=
  match instance_attrs self !! printer_name p with
  | Some (PCallable _) => Err (TypeError "missing required positional arguments")
  | Some v => Err (TypeError ("'" +:+ type_name v +:+ "' object is not callable"))
  | None =>
      match p with
      | Describe => Ok [describe_line self]
      | Reference => Ok [reference self]
      end
  end.

(** A pipeline that refuses a data set of fewer than [min_cells] cells,
    and a call asking for two cells. *)
Definition strict_pipe (args : @PipeArgs unit Z Z) : result (DataFrame Z) :=
  if Z.of_nat (length (X (p_adata args))) <? p_min_cells args
  then Err (ValueError "too few cells")
  else toy_pipe args.

Definition two_cells_kwargs : CallArgs :=
  mkCallArgs "cell_type" "consensus" (1 # 10) 2 (2718281828459045 # 1000000000000000)
             None false (Some true) None "t-test" 1000 1337 None.

(** A data set whose sample column has no level. *)
Definition toy_adata_unlabelled : @AnnData Z Z :=
  {| obs := {[ "sample" := Object [None; None; None] ]};
     X := [10; 20; 30];
     uns := ∅ |}.

(** Whether the sample column has a value for a cell. *)
Definition labelled_cell (v : option string) : bool :=
  match v with
  | Some _ => true
  | None => false
  end.

End Method.

(** ** [liana/steady/Method.py] *)
Module Steady.
Import Method.

Section WithPipe.

Context {ScoreFun Expr R : Type}.

(** The class [MethodMeta] of this file has the attributes of the one
    in [liana/method/_Method.py] and keeps no list of instances. *)
Definition MethodMeta_init
    (method_name : string) (complex_cols add_cols : list string) (fn : ScoreFun)
    (magnitude : option string) (magnitude_ascending : option bool)
    (specificity : option string) (specificity_ascending : option bool)
    (permute : bool) (reference : string) : @MethodMeta ScoreFun :=
  mkMethodMeta method_name complex_cols add_cols fn
    magnitude magnitude_ascending specificity specificity_ascending permute reference.

Definition get_meta (self : @MethodMeta ScoreFun) : MetaFrame :=
  {| mf_columns := ["Method Name"; "Magnitude Score"; "Specificity Score"; "Reference"];
     mf_index := [0];
     mf_data := [[Some (method_name self); magnitude self;
                  specificity self; Some (reference self)]] |}.

Definition Method_init (score : @MethodMeta ScoreFun) : @MethodT ScoreFun :=
  {| meta := MethodMeta_init (method_name score) (complex_cols score)
               (add_cols score) (fun_ score) (magnitude score)
               (magnitude_ascending score) (specificity score)
               (specificity_ascending score) (permute score) (reference score);
     _SCORE := score |}.

(** Keyword arguments of [Method.__call__] other than [adata] and
    [copy]. *)
Record CallArgs : Type := mkCallArgs {
  groupby : string;
  resource_name : string;
  expr_prop : Q;
  base : Q;
  use_raw : option bool;
  layer : option string;
  de_method : string;
  verbose : option bool;
  n_perms : Z;
  seed : Z;
  resource : option (list (string * string))
}.

(** The arguments [Method.__call__] hands to [liana_pipe]. *)
Record PipeArgs : Type := mkPipeArgs {
  p_adata : @AnnData Expr R;
  p_groupby : string;
  p_resource_name : string;
  p_resource : option (list (string * string));
  p_expr_prop : Q;
  p_supp_cols : list string;
  p_base : Q;
  p_de_method : string;
  p_verbose : option bool;
  p_score : @MethodMeta ScoreFun;
  p_n_perms : Z;
  p_seed : Z;
  p_use_raw : option bool;
  p_layer : option string
}.

(** [liana_pipe] lives in [liana/steady/liana_pipe.py]; it is taken as a
    parameter. *)
Variable liana_pipe : PipeArgs → result (DataFrame R).

Definition pipe_args (self : @MethodT ScoreFun) (adata : @AnnData Expr R)
    (kw : CallArgs) : PipeArgs :=
  {| p_adata := adata;
     p_groupby := groupby kw;
     p_resource_name := resource_name kw;
     p_resource := resource kw;
     p_expr_prop := expr_prop kw;
     p_supp_cols := ["ligand_pvals"; "receptor_pvals"];
     p_base := base kw;
     p_de_method := de_method kw;
     p_verbose := verbose kw;
     p_score := _SCORE self;
     p_n_perms := n_perms kw;
     p_seed := seed kw;
     p_use_raw := use_raw kw;
     p_layer := layer kw |}.

(** What the call returns: the object it was given, or the table. *)
Inductive Returned : Type :=
| TheAnnData
| TheTable (liana_res : DataFrame R).

(** [Method.__call__], run on the object in the world. *)
Definition Method_call (self : @MethodT ScoreFun) (kw : CallArgs) (copy : bool)
    : @M Expr R Returned :=
  bind get_adata (fun adata =>
  bind (lift_result (liana_pipe (pipe_args self adata kw))) (fun liana_res =>
  if negb copy
  then bind (modify_adata (set_uns "liana_res" (UnsFrame liana_res)))
            (fun _ => ret TheAnnData)
  else ret (TheTable liana_res))).

(** [liana_pipe] does not read [adata.uns]. *)
Definition ignores_uns : Prop :=
  ∀ (self : @MethodT ScoreFun) (a : @AnnData Expr R) (kw : CallArgs)
    (u : gmap string (@UnsVal R)),
    liana_pipe (pipe_args self (with_uns u a) kw) =
    liana_pipe (pipe_args self a kw).

End WithPipe.

Definition _show_methods {ScoreFun : Type} (methods : list (@MethodMeta ScoreFun))
    : result MetaFrame :=
  concat (map get_meta methods).

(** A toy pipeline: one result row per cell. *)
Definition toy_pipe (args : @PipeArgs unit Z Z) : result (DataFrame Z) :=
  Ok (imap (fun i x => (Z.of_nat i, x)) (X (p_adata args))).

Definition toy_kwargs : CallArgs :=
  mkCallArgs "cell_type" "consensus" (1 # 10) (2718281828459045 # 1000000000000000)
             (Some false) None "t-test" (Some false) 1000 1337 None.

End Steady.

(** ** [liana/plotting/_dotplot.py] *)
Module Dotplot.

(** A cell of a result table: a name or a statistic.  Statistics are
    only compared, so they are taken in [Z]. *)
Inductive value : Type :=
| VStr (s : string)
| VNum (x : Z).

(** A row of a result table in liana's format: the four name columns
    and the statistic columns, read by name. *)
Record Raw : Type := mkRaw {
  source : string;
  target : string;
  ligand_complex : string;
  receptor_complex : string;
  stat : string → Z
}.

(** A row once [_prep_liana_res] has added the [interaction] column. *)
Record Row : Type := mkRow {
  raw : Raw;
  interaction : string
}.

(** A table: the names of its statistic columns and its rows. *)
Record Frame (A : Type) : Type := mkFrame {
  columns : list string;
  rows : list A
}.
Arguments mkFrame {A} columns rows.
Arguments columns {A} f.
Arguments rows {A} f.

(** [liana_res[mask]] *)
Definition where_ {A : Type} (p : A → bool) (f : Frame A) : Frame A :=
  {| columns := columns f; rows := List.filter p (rows f) |}.

(** The name columns, looked up by name. *)
Definition raw_str (c : string) : option (Raw → string) :=
  if String.eqb c "source" then Some source
  else if String.eqb c "target" then Some target
  else if String.eqb c "ligand_complex" then Some ligand_complex
  else if String.eqb c "receptor_complex" then Some receptor_complex
  else None.

Definition row_str (c : string) : option (Row → string) :=
  if String.eqb c "interaction" then Some interaction
  else match raw_str c with
       | Some col => Some (fun r => col (raw r))
       | None => None
       end.

(** [liana_res[c]] as a function of the row; [KeyError] when the table
    has no such column. *)
Definition row_cell (f : Frame Row) (c : string) : result (Row → value) :=
  match row_str c with
  | Some col => Ok (fun r => VStr (col r))
  | None =>
      if str_in c (columns f) then Ok (fun r => VNum (stat (raw r) c))
      else Err (KeyError (Some c))
  end.

Definition _filter_labels (liana_res : Frame Raw) (labels : option (list string))
    (label_type : string) : result (Frame Raw) :=
  match labels with
  | None => Ok liana_res
  | Some labels =>
      (* [labels is str] compares with the type [str] itself: it is false
         for every list of names, and the wrapping is never done *)
      match raw_str label_type with
      | None => Err (KeyError (Some label_type))
      | Some col =>
          let covered := map (fun l => str_in l (map col (rows liana_res))) labels in
          if negb (forallb id covered)
          then
            let not_covered := select (map negb covered) labels in
            Err (LabelsNotFound not_covered label_type)
          else Ok (where_ (fun r => str_in (col r) labels) liana_res)
      end
  end.

(** [adata], when given, is represented by the tables of its [uns]. *)
Definition _prep_liana_res (adata : option (gmap string (Frame Raw)))
    (liana_res : option (Frame Raw))
    (source_labels target_labels : option (list string))
    (colour size : option string) : result (Frame Row) :=
  match colour, size with
  | None, _ => Err (ValueError "`colour` must be provided!")
  | _, None => Err (ValueError "`size` must be provided!")
  | Some _, Some _ =>
      match liana_res, adata with
      | None, None =>
          Err (AttributeError "Ambiguous! One of `liana_res` or `adata` should be provided.")
      | _, _ =>
          let! liana_res :=
            match adata with
            | Some a =>
                match a !! "liana_res" with
                | Some f => Ok (Some f)
                | None => Err AssertionError
                end
            | None => Ok liana_res
            end in
          match liana_res with
          | None => Err (ValueError "`liana_res` or `adata` must be provided!")
          | Some liana_res =>
              let! liana_res := _filter_labels liana_res source_labels "source" in
              let! liana_res := _filter_labels liana_res target_labels "target" in
              Ok {| columns := columns liana_res;
                    rows := map (fun r =>
                      {| raw := r;
                         interaction :=
                           ligand_complex r +:+ " -> " +:+ receptor_complex r |})
                      (rows liana_res) |}
          end
      end
  end.

(** One line of the aggregated table: the values of the grouping
    columns and the aggregated score. *)
Record Agg : Type := mkAgg {
  agg_key : list string;
  score : Z
}.

Record AggFrame : Type := mkAggFrame {
  entities : list string;
  agg_rows : list Agg
}.

(** Lexicographic order on group keys, the order [groupby] sorts in. *)
Fixpoint key_leb (k1 k2 : list string) : bool :=
  match k1, k2 with
  | [], _ => true
  | _ :: _, [] => false
  | a :: k1', b :: k2' =>
      match String.compare a b with
      | Lt => true
      | Eq => key_leb k1' k2'
      | Gt => false
      end
  end.

(** The values of the grouping columns in a row.  The program groups by
    name columns, and a group key is a list of names: a grouping column
    that is not a name column is a [KeyError] here. *)
Fixpoint entity_cols (entities : list string) : result (Row → list string) :=
  match entities with
  | [] => Ok (fun _ => [])
  | e :: es =>
      match row_str e with
      | None => Err (KeyError (Some e))
      | Some col =>
          let! rest := entity_cols es in
          Ok (fun r => col r :: rest r)
      end
  end.

(** The function taking a row to its group key; [groupby] refuses an
    empty list of grouping columns. *)
Definition entity_key (entities : list string) : result (Row → list string) :=
  match entities with
  | [] => Err (ValueError "No group keys passed!")
  | _ :: _ => entity_cols entities
  end.

(** The value of the name column [e] in the row [r]. *)
Definition cell_str (e : string) (r : Row) : option string :=
  match row_str e with
  | Some col => Some (col r)
  | None => None
  end.

(** The aggregation named by [how], as the operation folded over the
    values of a group in row order.  [dotplot] asks for 'min' or 'max';
    of the other aggregations of pandas, 'first', 'last' and 'sum' are
    given, and every other name is refused like a name pandas does not
    know. *)
Definition agg_fun (how : string) : result (Z → Z → Z) :=
  if String.eqb how "min" then Ok Z.min
  else if String.eqb how "max" then Ok Z.max
  else if String.eqb how "first" then Ok (fun a _ => a)
  else if String.eqb how "last" then Ok (fun _ b => b)
  else if String.eqb how "sum" then Ok Z.add
  else Err (AttributeError how).

Definition aggregate (op : Z → Z → Z) (values : list Z) : Z :=
  match values with
  | [] => 0
  | v :: vs => fold_left op vs v
  end.

(** [what] is read as a statistic column of the table, the kind of
    column [dotplot] ranks by, so that a score is a number.  A name
    column as [what], whose strings pandas would aggregate, is not
    covered: it is a [KeyError] here. *)
Definition _aggregate_scores (res : Frame Row) (what : option string)
    (how : string) (entities : list string) : result AggFrame :=
  let! key := entity_key entities in
  let! col :=
    match what with
    | None => Err (KeyError None)
    | Some c =>
        if str_in c (columns res) then Ok (fun r => stat (raw r) c)
        else Err (KeyError (Some c))
    end in
  let! op := agg_fun how in
  let groups := isort key_leb (unique (map key (rows res))) in
  Ok {| entities := entities;
        agg_rows :=
          map (fun k =>
                 {| agg_key := k;
                    score := aggregate op
                      (map col (List.filter (fun r => bool_decide (key r = k))
                                            (rows res))) |})
              groups |}.

(** [top_lrs.interaction] and the like: a grouping column of the
    aggregated table. *)
Fixpoint key_field (c : string) (entities : list string) (k : list string)
    : option string :=
  match entities, k with
  | e :: es, v :: k' => if String.eqb c e then Some v else key_field c es k'
  | _, _ => None
  end.

Definition agg_column (c : string) (entities : list string) (l : list Agg)
    : result (list string) :=
  if str_in c entities then Ok (omap (fun a => key_field c entities (agg_key a)) l)
  else Err (AttributeError c).

Section WithSort.

(** [DataFrame.sort_values('score', ascending=...)] of pandas, taken as
    a parameter: its default algorithm does not fix the order of ties. *)
Variable sort_values : option bool → list Agg → result (list Agg).

(** The [if filterby is not None] block of [dotplot].  On a column
    without values [Series.apply] does not call [filter_lambda] and
    gives back an empty column that is no boolean mask: [liana_res[msk]]
    then selects columns, none of them, and [.interaction] fails. *)
Definition filter_interactions (liana_res : Frame Row) (filterby : string)
    (filter_lambda : option (value → bool)) : result (Frame Row) :=
  let! col := row_cell liana_res filterby in
  match rows liana_res with
  | [] => Err (AttributeError "'DataFrame' object has no attribute 'interaction'")
  | _ :: _ =>
      match filter_lambda with
      | None => Err (TypeError "'NoneType' object is not callable")
      | Some filter_lambda =>
          let msk := fun r => filter_lambda (col r) in
          let relevant_interactions :=
            isort String.leb
              (unique (map interaction (List.filter msk (rows liana_res)))) in
          Ok (where_ (fun r => str_in (interaction r) relevant_interactions) liana_res)
      end
  end.

(** The [if top_n is not None] block of [dotplot]. *)
Definition select_top_n (liana_res : Frame Row) (top_n : Z)
    (orderby : option string) (orderby_ascending : option bool)
    : result (Frame Row) :=
  (* both exceptions are built and dropped: the source has no [raise] *)
  let _ := match orderby with
           | None => Some (ValueError "Please specify the column to order the interactions.")
           | Some _ => None
           end in
  let _ := match orderby_ascending with
           | None => Some (ValueError "Please specify if `orderby` is ascending or not.")
           | Some _ => None
           end in
  let how := match orderby_ascending with
             | Some true => "min"
             | _ => "max"
             end in
  let! top_lrs := _aggregate_scores liana_res orderby how
                    ["interaction"; "ligand_complex"; "receptor_complex"] in
  let! sorted := sort_values orderby_ascending (agg_rows top_lrs) in
  let! top_lrs := agg_column "interaction" (entities top_lrs) (head top_n sorted) in
  Ok (where_ (fun r => str_in (interaction r) top_lrs) liana_res).

(** [dotplot] up to the table it plots; the rescaling of the colour and
    size columns ([_inverse_scores], embedded on its own in [Inverse])
    and the figure are left out. *)
Definition dotplot (adata : option (gmap string (Frame Raw)))
    (liana_res : option (Frame Raw)) (colour size : option string)
    (source_labels target_labels : option (list string))
    (top_n : option Z) (orderby : option string) (orderby_ascending : option bool)
    (filterby : option string) (filter_lambda : option (value → bool))
    : result (Frame Row) :=
  let! liana_res := _prep_liana_res adata liana_res source_labels target_labels
                      colour size in
  let! liana_res :=
    match filterby with
    | Some filterby => filter_interactions liana_res filterby filter_lambda
    | None => Ok liana_res
    end in
  let! liana_res :=
    match top_n with
    | Some top_n => select_top_n liana_res top_n orderby orderby_ascending
    | None => Ok liana_res
    end in
  Ok liana_res.

End WithSort.

(** The order [sort_values] ranks in: non-decreasing scores when
    ascending, non-increasing otherwise. *)
Definition score_leb (ascending : bool) (a b : Agg) : bool :=
  if ascending then score a <=? score b else score b <=? score a.

(** What [sort_values] guarantees when the flag is a boolean: a
    rearrangement of the table, ranked in the direction of the flag. *)
Definition sorts (sort_values : option bool → list Agg → result (list Agg)) : Prop :=
  ∀ (b : bool) (l : list Agg),
    ∃ l', sort_values (Some b) l = Ok l'
          ∧ l' ≡ₚ l
          ∧ StronglySorted (λ x y, score_leb b x y = true) l'.

(** The group key of a row in the top-N block, and the interaction
    label of a line of the aggregated table. *)
Definition key_of (r : Row) : list string :=
  [interaction r; ligand_complex (raw r); receptor_complex (raw r)].

Definition label_of (a : Agg) : option string :=
  key_field "interaction" ["interaction"; "ligand_complex"; "receptor_complex"]
            (agg_key a).

(** The table [_aggregate_scores] builds in the top-N block: one line
    per group key, in key order. *)
Definition aggregated (liana_res : Frame Row) (c : string) (ascending : bool)
    : list Agg :=
  map (fun k =>
         {| agg_key := k;
            score := aggregate (if ascending then Z.min else Z.max)
              (map (fun r => stat (raw r) c)
                   (List.filter (fun r => bool_decide (key_of r = k))
                                (rows liana_res))) |})
      (isort key_leb (unique (map key_of (rows liana_res)))).

(** [s] is the least (ascending) or greatest (descending) of [vs]. *)
Definition extremum (ascending : bool) (s : Z) (vs : list Z) : Prop :=
  s ∈ vs ∧ ∀ v, v ∈ vs → if ascending then s ≤ v else v ≤ s.

(** No two rows with different ligand or receptor complexes carry the
    same interaction label. *)
Definition labels_distinguish (liana_res : Frame Row) : Prop :=
  ∀ r r', r ∈ rows liana_res → r' ∈ rows liana_res →
    interaction r = interaction r' → key_of r = key_of r'.

(** Top-N selection in the words of the specification: aggregate the
    statistic per unique interaction across all its rows, rank the
    interactions, keep all the rows of the N best-ranked ones.
    [unit_of] says what identifies an interaction: the ordered
    (ligand, receptor) pair of the glossary, or the display label. *)
Definition pair_of (r : Row) : list string :=
  [ligand_complex (raw r); receptor_complex (raw r)].

Definition label_unit (r : Row) : list string := [interaction r].

Definition spec_top_n (unit_of : Row → list string)
    (sort_values : option bool → list Agg → result (list Agg))
    (liana_res : Frame Row) (top_n : Z) (orderby : string) (ascending : bool)
    : result (Frame Row) :=
  if str_in orderby (columns liana_res)
  then
    let op := if ascending then Z.min else Z.max in
    let aggregated :=
      map (fun k =>
             {| agg_key := k;
                score := aggregate op
                  (map (fun r => stat (raw r) orderby)
                       (List.filter (fun r => bool_decide (unit_of r = k))
                                    (rows liana_res))) |})
          (unique (map unit_of (rows liana_res))) in
    let! ranked := sort_values (Some ascending) aggregated in
    let best := map agg_key (head top_n ranked) in
    Ok (where_ (fun r => bool_decide (unit_of r ∈ best)) liana_res)
  else Err (KeyError (Some orderby)).

(** A stable instance of [sort_values]: insertion sort on the score,
    in the direction of the flag; pandas rejects a flag that is not a
    boolean. *)
Definition stable_sort_values (ascending : option bool) (l : list Agg)
    : result (list Agg) :=
  match ascending with
  | Some b => Ok (isort (score_leb b) l)
  | None => Err (ValueError "For argument 'ascending' expected type bool, received type NoneType.")
  end.

(** Sample tables. *)
Definition one_stat (name : string) (v : Z) : string → Z :=
  fun c => if String.eqb c name then v else 0.

Definition sample_table : Frame Raw :=
  {| columns := ["pval"];
     rows := [ mkRaw "T" "B" "CD40LG" "CD40" (one_stat "pval" 3);
               mkRaw "B" "T" "CD40LG" "CD40" (one_stat "pval" 1);
               mkRaw "T" "B" "TGFB1" "TGFBR1_TGFBR2" (one_stat "pval" 2);
               mkRaw "NK" "T" "IL2" "IL2RA" (one_stat "pval" 5) ] |}.

(** A table in which two different (ligand, receptor) pairs spell the
    same interaction label. *)
Definition clash_table : Frame Raw :=
  {| columns := ["pval"];
     rows := [ mkRaw "T" "B" "A -> B" "C" (one_stat "pval" 1);
               mkRaw "T" "B" "A" "B -> C" (one_stat "pval" 2);
               mkRaw "T" "B" "X" "Y" (one_stat "pval" 3) ] |}.

(** The sample tables as [_prep_liana_res] hands them on. *)
Definition prepared (liana_res : Frame Raw) : Frame Row :=
  match _prep_liana_res None (Some liana_res) None None (Some "pval") (Some "pval") with
  | Ok f => f
  | Err _ => {| columns := []; rows := [] |}
  end.

(** The row [_prep_liana_res] makes of a row of the table it is given:
    the row with its interaction label. *)
Definition labelled (r : Raw) : Row :=
  {| raw := r;
     interaction := ligand_complex r +:+ " -> " +:+ receptor_complex r |}.

(** The table [_prep_liana_res] starts from: [adata.uns['liana_res']]
    when [adata] is given, the [liana_res] argument otherwise. *)
Definition input_table (adata : option (gmap string (Frame Raw)))
    (liana_res : option (Frame Raw)) : option (Frame Raw) :=
  match adata with
  | Some a => a !! "liana_res"
  | None => liana_res
  end.



(** What an optional list of names lets through, and the names it asks
    for: [None] lets every value through and asks for nothing. *)
Definition allowed (labels : option (list string)) (x : string) : Prop :=
  match labels with
  | Some names => x ∈ names
  | None => True
  end.

#[global] Instance allowed_dec (labels : option (list string)) (x : string) :
  Decision (allowed labels x) :=
  match labels as l return Decision (allowed l x) with
  | Some names => decide (x ∈ names)
  | None => left I
  end.

Definition requested (labels : option (list string)) : list string :=
  match labels with
  | Some names => names
  | None => []
  end.

(** The top-N block, when it runs, ranks by a statistic: [orderby] is
    none of the name columns. *)
Definition ranks_by_statistic (top_n : option Z) (orderby : option string) : Prop :=
  match top_n, orderby with
  | Some _, Some c => row_str c = None
  | _, _ => True
  end.


(** A predicate for [filter_lambda]: the statistic is at most [bound]. *)
Definition at_most (bound : Z) (v : value) : bool :=
  match v with
  | VNum x => x <=? bound
  | VStr _ => false
  end.

End Dotplot.

(** ** [liana/plotting/_dotplot.py]: [_inverse_scores] *)

(** The statistics [_inverse_scores] rescales are binary64 numbers, and
    what the function returns depends on how their sum with the machine
    epsilon rounds: here they are Rocq's primitive floats, whose
    operations are those of IEEE 754 binary64. *)
Module Inverse.

(** [np.finfo(float).eps]: the gap between 1 and the next binary64
    number. *)
Definition eps : float := 0x1p-52%float.

Section WithLog10.

(** [np.log10] on one binary64 number.  It is numpy's routine, not part
    of the program: a parameter. *)
Variable log10 : float → float.

(** [-np.log10(score + np.finfo(float).eps)] on one value of the
    column. *)
Definition inverse (v : float) : float := (- log10 (v + eps))%float.

(** [_inverse_scores]: numpy applies the three operations to each value
    of the column. *)
Definition _inverse_scores (score : list float) : list float := map inverse score.

End WithLog10.

(** [f] does not decrease between [lo] and [hi]; in particular it is a
    number there. *)
Definition nondecreasing_between (f : float → float) (lo hi : float) : Prop :=
  ∀ x y, (lo <=? x)%float = true → (x <=? y)%float = true → (y <=? hi)%float = true →
         (f x <=? f y)%float = true.

(** [eps] as sign, mantissa and exponent. *)
Definition SFeps : spec_float := S754_finite false 4503599627370496 (-104).

(** The value of a positive binary64 number, in units of [2^-1074]. *)
Definition val (m : positive) (e : Z) : Z := Z.pos m * 2 ^ (e + 1074).

(** [V] is a rounding of [S] to nearest on 53 bits. *)
Definition rounds (S V : Z) : Prop :=
  ∃ D t, 53 ≤ D ∧ 2 ^ (D - 1) ≤ S < 2 ^ D ∧ V = 2 ^ (D - 53) * t
         ∧ - 2 ^ (D - 53) ≤ 2 * S - 2 * V ≤ 2 ^ (D - 53).

(** What [k] right shifts have done to [m0]: the bits shifted out are
    summed up by the round bit, the sticky bit and a remainder. *)
Definition shr_inv (m0 k : Z) (mrs : shr_record) : Prop :=
  0 ≤ shr_m mrs
  ∧ ∃ L, 0 ≤ L < 2 ^ k
         ∧ 2 * m0 = 2 ^ (k + 1) * shr_m mrs + 2 ^ k * Z.b2z (shr_r mrs) + L
         ∧ (shr_s mrs = false ↔ L = 0).

(** The value of a number of [0, 1], in units of [2^-1074], and the
    numbers of [0, 1]. *)
Definition fval (x : spec_float) : Z :=
  match x with
  | S754_finite false m e => val m e
  | _ => 0
  end.

Definition in_unit (x : spec_float) : Prop :=
  match x with
  | S754_zero _ => True
  | S754_finite false m e => bounded 53 1024 m e = true ∧ val m e ≤ 2 ^ 1074
  | _ => False
  end.

End Inverse.

(** * Properties *)

(** ** List helpers *)

Lemma str_in_spec (x : string) (l : list string) : str_in x l = true ↔ x ∈ l.
Proof.
  unfold str_in. rewrite existsb_exists. split.
  - intros (y & Hy & Heq). apply String.eqb_eq in Heq. subst.
    by apply list_elem_of_In.
  - intros Hx. exists x. split; [by apply list_elem_of_In | apply String.eqb_refl].
Qed.

Lemma str_in_false (x : string) (l : list string) : str_in x l = false ↔ x ∉ l.
Proof.
  rewrite <- str_in_spec. destruct (str_in x l); split; congruence.
Qed.

Lemma elem_of_filter_bool {A : Type} (f : A → bool) (x : A) (l : list A) :
  x ∈ List.filter f l ↔ x ∈ l ∧ f x = true.
Proof. rewrite !list_elem_of_In. apply filter_In. Qed.

Lemma insert_sorted_perm {A : Type} (leb : A → A → bool) (x : A) (l : list A) :
  insert_sorted leb x l ≡ₚ x :: l.
Proof.
  induction l as [|y l IH]; simpl; [done|].
  destruct (leb x y); [done|]. rewrite IH. apply Permutation_swap.
Qed.

Lemma isort_perm {A : Type} (leb : A → A → bool) (l : list A) : isort leb l ≡ₚ l.
Proof.
  induction l as [|x l IH]; simpl; [done|].
  by rewrite insert_sorted_perm, IH.
Qed.

Lemma elem_of_isort {A : Type} (leb : A → A → bool) (x : A) (l : list A) :
  x ∈ isort leb l ↔ x ∈ l.
Proof. by rewrite isort_perm. Qed.

Lemma elem_of_unique {A : Type} `{EqDecision A} (x : A) (l : list A) :
  x ∈ unique l ↔ x ∈ l.
Proof.
  induction l as [|y l IH]; simpl; [done|].
  rewrite !elem_of_cons, elem_of_filter_bool, IH.
  destruct (decide (x = y)) as [->|Hne]; [tauto|].
  split; [tauto|]. intros [?|?]; [tauto|]. right. split; [done|].
  rewrite bool_decide_eq_false_2; [done | congruence].
Qed.

Lemma NoDup_filter_bool {A : Type} (f : A → bool) (l : list A) :
  NoDup l → NoDup (List.filter f l).
Proof.
  induction 1 as [|x l Hx Hl IH]; simpl; [constructor|].
  destruct (f x); [|done]. constructor; [|done].
  rewrite elem_of_filter_bool. tauto.
Qed.

Lemma NoDup_unique {A : Type} `{EqDecision A} (l : list A) : NoDup (unique l).
Proof.
  induction l as [|x l IH]; simpl; constructor.
  - rewrite elem_of_filter_bool. intros [_ H].
    by rewrite bool_decide_eq_true_2 in H.
  - by apply NoDup_filter_bool.
Qed.

Lemma select_negb_map {A : Type} (f : A → bool) (l : list A) :
  select (map negb (map f l)) l = List.filter (fun x => negb (f x)) l.
Proof.
  induction l as [|x l IH]; simpl; [done|]. rewrite IH. by destruct (f x).
Qed.

Lemma forallb_id_map {A : Type} (f : A → bool) (l : list A) :
  forallb id (map f l) = forallb f l.
Proof. induction l as [|x l IH]; simpl; [done|]. by rewrite IH. Qed.

Lemma filter_bool_ext {A : Type} (f g : A → bool) (l : list A) :
  (∀ x, x ∈ l → f x = g x) → List.filter f l = List.filter g l.
Proof.
  induction l as [|x l IH]; intros H; simpl; [done|].
  rewrite (H x) by set_solver. rewrite IH; [done|]. intros; apply H; set_solver.
Qed.

Lemma head_firstn {A : Type} (n : Z) (l : list A) :
  0 ≤ n → head n l = take (Z.to_nat n) l.
Proof. intros Hn. unfold head. by rewrite (proj2 (Z.leb_le 0 n) Hn). Qed.

Lemma head_prefix {A : Type} (k k' : Z) (l : list A) :
  0 ≤ k → k ≤ k' → head k l `prefix_of` head k' l.
Proof.
  intros Hk Hk'. rewrite !head_firstn by lia.
  exists (take (Z.to_nat k' - Z.to_nat k) (drop (Z.to_nat k) l)).
  rewrite <- (take_drop (Z.to_nat k) (take (Z.to_nat k') l)) at 1.
  rewrite take_take, skipn_firstn_comm. f_equal. f_equal. lia.
Qed.

Lemma filter_bool_decide {A : Type} (P : A → Prop) `{∀ x, Decision (P x)}
    (f : A → bool) (l : list A) :
  (∀ x, f x = true ↔ P x) → List.filter f l = filter P l.
Proof.
  intros Hf. induction l as [|x l IH]; simpl; [done|].
  rewrite filter_cons, IH. destruct (f x) eqn:Hx; case_decide; try done.
  - apply Hf in Hx. done.
  - apply Hf in H0. congruence.
Qed.

Lemma filter_bool_sublist {A : Type} (f g : A → bool) (l : list A) :
  (∀ x, f x = true → g x = true) → List.filter f l `sublist_of` List.filter g l.
Proof.
  intros Hfg. induction l as [|x l IH]; simpl; [done|].
  destruct (f x) eqn:Hx.
  - rewrite (Hfg x Hx). by apply sublist_skip.
  - destruct (g x); [by apply sublist_cons | done].
Qed.

Lemma filter_bool_id {A : Type} (f : A → bool) (l : list A) :
  (∀ x, x ∈ l → f x = true) → List.filter f l = l.
Proof.
  induction l as [|x l IH]; intros H; simpl; [done|].
  rewrite (H x) by set_solver. rewrite IH; [done|]. intros; apply H; set_solver.
Qed.

Lemma filter_bool_comm {A : Type} (f g : A → bool) (l : list A) :
  List.filter f (List.filter g l) = List.filter g (List.filter f l).
Proof.
  induction l as [|x l IH]; simpl; [done|].
  destruct (f x) eqn:Hf, (g x) eqn:Hg; simpl; rewrite ?Hf, ?Hg, ?IH; done.
Qed.

Lemma unique_filter {A : Type} `{EqDecision A} (f : A → bool) (l : list A) :
  List.filter f (unique l) = unique (List.filter f l).
Proof.
  induction l as [|x l IH]; simpl; [done|]. destruct (f x) eqn:Hf; simpl.
  - rewrite ?Hf. by rewrite filter_bool_comm, IH.
  - rewrite filter_bool_comm, IH. apply filter_bool_id.
    intros y [Hy Hfy]%elem_of_unique%elem_of_filter_bool.
    rewrite bool_decide_eq_false_2; [done | congruence].
Qed.

Lemma unique_absorb {A : Type} `{EqDecision A} (cols l : list A) :
  NoDup cols → (∀ x, x ∈ l → x ∈ cols) → unique (cols ++ l) = cols.
Proof.
  intros Hnd. revert l. induction Hnd as [|c cs Hc Hnd IH]; intros l Hl.
  - destruct l as [|x l]; [done|]. exfalso.
    apply (not_elem_of_nil x), Hl. by left.
  - simpl. f_equal. rewrite unique_filter, List.filter_app.
    rewrite (filter_bool_id _ cs).
    + apply IH. intros x [Hx Hne]%elem_of_filter_bool.
      apply negb_true_iff, bool_decide_eq_false in Hne.
      specialize (Hl x Hx). apply elem_of_cons in Hl as [->|Hl]; done.
    + intros x Hx. apply negb_true_iff, bool_decide_eq_false. congruence.
Qed.

(** ** Properties of [_dotplot.py] *)
Module DotplotFacts.
Import Dotplot.

Lemma forallb_str_in (present labels : list string) :
  forallb (fun l => str_in l present) labels = true ↔ Forall (λ l, l ∈ present) labels.
Proof.
  rewrite forallb_forall, Forall_forall. split; intros H x Hx.
  - apply str_in_spec, H. by apply list_elem_of_In.
  - apply str_in_spec, H. by apply list_elem_of_In.
Qed.

Lemma filter_labels_col (liana_res : Frame Raw) (labels : list string)
    (label_type : string) (col : Raw → string) :
  raw_str label_type = Some col →
  _filter_labels liana_res (Some labels) label_type =
    if decide (Forall (λ l, l ∈ map col (rows liana_res)) labels)
    then Ok (where_ (fun r => bool_decide (col r ∈ labels)) liana_res)
    else Err (LabelsNotFound
                (filter (λ l, l ∉ map col (rows liana_res)) labels) label_type).
Proof.
  intros Hcol. unfold _filter_labels. rewrite Hcol, forallb_id_map.
  case_decide as Hall.
  - rewrite (proj2 (forallb_str_in _ _) Hall). simpl. unfold where_. do 2 f_equal.
    apply filter_bool_ext. intros r _.
    destruct (str_in (col r) labels) eqn:E.
    + apply str_in_spec in E. by rewrite bool_decide_eq_true_2.
    + apply str_in_false in E. by rewrite bool_decide_eq_false_2.
  - destruct (forallb _ labels) eqn:E; [by apply forallb_str_in in E|].
    simpl. f_equal. f_equal. rewrite select_negb_map.
    apply filter_bool_decide. intros l.
    rewrite negb_true_iff. apply str_in_false.
Qed.


(** C7, the code's behaviour.  On a table with at least one row,
    predicate filtering keeps exactly the rows whose interaction label
    has at least one row of the table satisfying the predicate on the
    chosen column: rows of such an interaction stay whether or not they
    satisfy it themselves, rows of the other interactions all go.  On a
    table without rows the block does not return the table: it raises
    [AttributeError].  [dotplot] does so on a table given without rows
    and on a table that [source_labels = []] has emptied.  A column the
    table lacks raises [KeyError]. *)
Theorem filter_interactions_exact (liana_res : Frame Row) (filterby : string)
    (p : value → bool) :
  filter_interactions liana_res filterby (Some p) =
    match row_cell liana_res filterby with
    | Ok col =>
        match rows liana_res with
        | [] => Err (AttributeError "'DataFrame' object has no attribute 'interaction'")
        | _ :: _ =>
            Ok (where_ (fun r => bool_decide
                  (Exists (λ r', interaction r' = interaction r ∧ p (col r') = true)
                          (rows liana_res)))
                liana_res)
        end
    | Err e => Err e
    end
  ∧ dotplot stable_sort_values None (Some {| columns := ["pval"]; rows := [] |})
      (Some "pval") (Some "pval") None None None None None
      (Some "pval") (Some (at_most 1)) =
    Err (AttributeError "'DataFrame' object has no attribute 'interaction'")
  ∧ dotplot stable_sort_values None (Some sample_table)
      (Some "pval") (Some "pval") (Some []) None None None None
      (Some "pval") (Some (at_most 1)) =
    Err (AttributeError "'DataFrame' object has no attribute 'interaction'").
Proof.
  split_and!; [|reflexivity|reflexivity].
  unfold filter_interactions. destruct (row_cell liana_res filterby) as [col|e];
    simpl; [|done].
  destruct (rows liana_res) as [|r0 rs] eqn:Hrows; [done|]. rewrite <- Hrows.
  unfold where_. do 2 f_equal. apply filter_bool_ext. intros r _.
  match goal with |- ?b = _ => destruct b eqn:E end; symmetry.
  - apply bool_decide_eq_true_2.
    apply str_in_spec in E.
    rewrite elem_of_isort, elem_of_unique, list_elem_of_fmap in E.
    destruct E as (r' & Hint & [Hin Hp]%elem_of_filter_bool).
    apply Exists_exists. exists r'. naive_solver.
  - apply bool_decide_eq_false_2. intros (r' & Hr' & Hint & Hp)%Exists_exists.
    apply str_in_false in E. apply E.
    rewrite elem_of_isort, elem_of_unique, list_elem_of_fmap.
    exists r'. split; [done|]. apply elem_of_filter_bool. done.
Qed.

Section TopN.

Variable sort_values : option bool → list Agg → result (list Agg).

Lemma agg_column_prefix (c : string) (es : list string) (l l' : list Agg) :
  l `prefix_of` l' →
  match agg_column c es l, agg_column c es l' with
  | Ok t, Ok t' => ∀ x, x ∈ t → x ∈ t'
  | Err e, Err e' => e = e'
  | _, _ => False
  end.
Proof.
  intros [k ->]. unfold agg_column. destruct (str_in c es); [|done].
  intros x. rewrite !list_elem_of_omap. intros (a & Ha & Hx).
  exists a. split; [|done]. apply elem_of_app. by left.
Qed.

Lemma select_top_n_monotone (liana_res : Frame Row) (K K' : Z)
    (orderby : option string) (orderby_ascending : option bool) :
  0 ≤ K → K ≤ K' →
  match select_top_n sort_values liana_res K orderby orderby_ascending,
        select_top_n sort_values liana_res K' orderby orderby_ascending with
  | Ok f, Ok f' =>
      columns f = columns f' ∧ rows f `sublist_of` rows f'
  | Err e, Err e' => e = e'
  | _, _ => False
  end.
Proof.
  intros HK HK'. unfold select_top_n.
  destruct (_aggregate_scores _ _ _ _) as [agg|e]; simpl; [|done].
  destruct (sort_values _ _) as [sorted|e]; simpl; [|done].
  pose proof (agg_column_prefix "interaction" (entities agg) _ _
                (head_prefix K K' sorted HK HK')) as Hpre.
  destruct (agg_column _ _ (head K sorted)) as [t|e],
           (agg_column _ _ (head K' sorted)) as [t'|e']; simpl; try done.
  split; [done|]. apply filter_bool_sublist. intros r Hr.
  apply str_in_spec. apply Hpre. by apply str_in_spec.
Qed.

(** C4. Top-N selection is monotone in N: for positive [K ≤ K'] and
    otherwise equal arguments, every row (hence every interaction)
    [dotplot] retains with [top_n = K] is retained with [top_n = K'];
    the two calls fail together, with the same error. *)
Theorem top_n_monotone (adata : option (gmap string (Frame Raw)))
    (liana_res : option (Frame Raw)) (colour size : option string)
    (source_labels target_labels : option (list string))
    (orderby : option string) (orderby_ascending : option bool)
    (filterby : option string) (filter_lambda : option (value → bool))
    (K K' : Z) :
  0 < K → K ≤ K' →
  match dotplot sort_values adata liana_res colour size source_labels target_labels
          (Some K) orderby orderby_ascending filterby filter_lambda,
        dotplot sort_values adata liana_res colour size source_labels target_labels
          (Some K') orderby orderby_ascending filterby filter_lambda with
  | Ok f, Ok f' =>
      rows f `sublist_of` rows f'
      ∧ ∀ i, i ∈ map interaction (rows f) → i ∈ map interaction (rows f')
  | Err e, Err e' => e = e'
  | _, _ => False
  end.
Proof.
  intros HK HK'. unfold dotplot.
  destruct (_prep_liana_res _ _ _ _ _ _) as [lr|e]; simpl; [|done].
  destruct (match filterby with Some _ => _ | None => _ end) as [lr'|e];
    simpl; [|done].
  pose proof (select_top_n_monotone lr' K K' orderby orderby_ascending
                ltac:(lia) HK') as Hmono.
  destruct (select_top_n _ _ K _ _) as [f|e],
           (select_top_n _ _ K' _ _) as [f'|e']; simpl; try done.
  destruct Hmono as [_ Hsub]. split; [done|].
  intros i (r & -> & Hr)%list_elem_of_fmap. apply list_elem_of_fmap.
  exists r. split; [done|]. by apply (sublist_subseteq _ _ Hsub).
Qed.

End TopN.

(** *** The aggregated table and its ranking *)

Lemma insert_sorted_sorted {A : Type} (leb : A → A → bool) (x : A) (l : list A) :
  (∀ a b, leb a b = true ∨ leb b a = true) →
  (∀ a b c, leb a b = true → leb b c = true → leb a c = true) →
  StronglySorted (λ a b, leb a b = true) l →
  StronglySorted (λ a b, leb a b = true) (insert_sorted leb x l).
Proof.
  intros Htot Htrans. induction 1 as [|y l Hl IH Hy]; simpl.
  - repeat constructor.
  - destruct (leb x y) eqn:Hxy.
    + constructor; [by constructor|]. constructor; [done|].
      eapply Forall_impl; [exact Hy|]. intros z Hz. by eapply Htrans.
    + constructor; [done|].
      rewrite insert_sorted_perm. constructor; [|done].
      destruct (Htot x y); congruence.
Qed.

Lemma isort_sorted {A : Type} (leb : A → A → bool) (l : list A) :
  (∀ a b, leb a b = true ∨ leb b a = true) →
  (∀ a b c, leb a b = true → leb b c = true → leb a c = true) →
  StronglySorted (λ a b, leb a b = true) (isort leb l).
Proof.
  intros Htot Htrans. induction l as [|x l IH]; simpl; [constructor|].
  by apply insert_sorted_sorted.
Qed.

Lemma stable_sort_values_sorts : sorts stable_sort_values.
Proof.
  intros b l. exists (isort (score_leb b) l). split; [done|].
  split; [apply isort_perm|]. apply isort_sorted.
  - intros x y. unfold score_leb. destruct b; lia.
  - intros x y z. unfold score_leb. destruct b; lia.
Qed.

Lemma fold_left_min (vs : list Z) (v : Z) :
  fold_left Z.min vs v ∈ v :: vs ∧ ∀ x, x ∈ v :: vs → fold_left Z.min vs v ≤ x.
Proof.
  revert v. induction vs as [|w vs IH]; intros v; simpl.
  - split; [by left|]. intros x ->%list_elem_of_singleton. lia.
  - destruct (IH (Z.min v w)) as [Hin Hle]. split.
    + apply elem_of_cons in Hin as [->|Hin]; [|by do 2 right].
      destruct (Z.min_spec v w) as [[_ ->]|[_ ->]]; [by left | by right; left].
    + intros x Hx. assert (fold_left Z.min vs (Z.min v w) ≤ Z.min v w)
        by (apply Hle; by left).
      rewrite !elem_of_cons in Hx. destruct Hx as [->|[->|Hx]]; [lia|lia|].
      apply Hle. by right.
Qed.

Lemma fold_left_max (vs : list Z) (v : Z) :
  fold_left Z.max vs v ∈ v :: vs ∧ ∀ x, x ∈ v :: vs → x ≤ fold_left Z.max vs v.
Proof.
  revert v. induction vs as [|w vs IH]; intros v; simpl.
  - split; [by left|]. intros x ->%list_elem_of_singleton. lia.
  - destruct (IH (Z.max v w)) as [Hin Hle]. split.
    + apply elem_of_cons in Hin as [->|Hin]; [|by do 2 right].
      destruct (Z.max_spec v w) as [[_ ->]|[_ ->]]; [by right; left | by left].
    + intros x Hx. assert (Z.max v w ≤ fold_left Z.max vs (Z.max v w))
        by (apply Hle; by left).
      rewrite !elem_of_cons in Hx. destruct Hx as [->|[->|Hx]]; [lia|lia|].
      apply Hle. by right.
Qed.

Lemma aggregate_extremum (ascending : bool) (vs : list Z) :
  vs ≠ [] →
  extremum ascending (aggregate (if ascending then Z.min else Z.max) vs) vs.
Proof.
  destruct vs as [|v vs]; [done|]. intros _. unfold extremum, aggregate.
  destruct ascending; [apply fold_left_min | apply fold_left_max].
Qed.

Lemma aggregate_scores_top (liana_res : Frame Row) (c : string) (ascending : bool) :
  c ∈ columns liana_res →
  _aggregate_scores liana_res (Some c) (if ascending then "min" else "max")
      ["interaction"; "ligand_complex"; "receptor_complex"] =
    Ok {| entities := ["interaction"; "ligand_complex"; "receptor_complex"];
          agg_rows := aggregated liana_res c ascending |}.
Proof.
  intros Hc%str_in_spec. unfold _aggregate_scores. cbn [entity_key].
  change (row_str "interaction") with (Some interaction).
  change (row_str "ligand_complex")
    with (Some (fun r => ligand_complex (raw r))).
  change (row_str "receptor_complex")
    with (Some (fun r => receptor_complex (raw r))).
  cbn [rbind]. rewrite Hc. cbn [rbind]. by destruct ascending.
Qed.

Lemma aggregated_keys (liana_res : Frame Row) (c : string) (ascending : bool) :
  map agg_key (aggregated liana_res c ascending) =
    isort key_leb (unique (map key_of (rows liana_res))).
Proof.
  unfold aggregated. rewrite map_map. simpl. apply map_id.
Qed.

Lemma aggregated_elem (liana_res : Frame Row) (c : string) (ascending : bool)
    (a : Agg) :
  a ∈ aggregated liana_res c ascending →
  (∃ r, r ∈ rows liana_res ∧ key_of r = agg_key a)
  ∧ extremum ascending (score a)
      (map (fun r => stat (raw r) c)
           (List.filter (fun r => bool_decide (key_of r = agg_key a))
                        (rows liana_res))).
Proof.
  unfold aggregated. intros (k & -> & Hk)%list_elem_of_fmap. simpl.
  apply elem_of_isort, elem_of_unique, list_elem_of_fmap in Hk
    as (r & -> & Hr).
  split; [by exists r|]. apply aggregate_extremum.
  intros Hnil%fmap_nil_inv.
  assert (r ∈ List.filter (fun r0 => bool_decide (key_of r0 = key_of r))
                          (rows liana_res)) as Hin.
  { apply elem_of_filter_bool. split; [done|]. by apply bool_decide_eq_true_2. }
  rewrite Hnil in Hin. by apply not_elem_of_nil in Hin.
Qed.

Lemma label_of_key (a : Agg) (r : Row) :
  key_of r = agg_key a → label_of a = Some (interaction r).
Proof. intros H. unfold label_of. rewrite <- H. reflexivity. Qed.

Lemma str_in_omap_label (i : string) (l : list Agg) :
  str_in i (omap label_of l) = bool_decide (Some i ∈ map label_of l).
Proof.
  destruct (str_in i (omap label_of l)) eqn:E; symmetry.
  - apply bool_decide_eq_true_2. apply str_in_spec, list_elem_of_omap in E
      as (a & Ha & Hl). apply list_elem_of_fmap. by exists a.
  - apply bool_decide_eq_false_2. intros (a & Hl & Ha)%list_elem_of_fmap.
    apply str_in_false in E. apply E, list_elem_of_omap. by exists a.
Qed.

(** X27. What the top-N block computes.  For a statistic column of the
    table, a boolean flag and [0 ≤ N], the block succeeds and there is
    a ranking [ranked] of the aggregated table such that: the table has
    one line
    per unique key (interaction label, ligand complex, receptor
    complex) occurring in the rows; the score of a line is the minimum
    (ascending) or maximum (descending) of the statistic over all rows
    with that key; [ranked] is ordered in the direction of the flag;
    and the surviving rows are exactly the rows whose interaction label
    is the label of one of the first [N] lines.  When no two different
    (ligand, receptor) pairs of the table share a label, these are
    exactly all the rows of the [N] best-ranked interactions. *)
Theorem select_top_n_exact
    (sort_values : option bool → list Agg → result (list Agg))
    (liana_res : Frame Row) (c : string) (ascending : bool) (N : Z) :
  sorts sort_values → c ∈ columns liana_res → 0 ≤ N →
  ∃ ranked : list Agg,
    NoDup (map agg_key ranked)
    ∧ (∀ k, k ∈ map agg_key ranked ↔ ∃ r, r ∈ rows liana_res ∧ key_of r = k)
    ∧ (∀ a, a ∈ ranked →
         extremum ascending (score a)
           (map (fun r => stat (raw r) c)
                (List.filter (fun r => bool_decide (key_of r = agg_key a))
                             (rows liana_res))))
    ∧ StronglySorted (λ x y, score_leb ascending x y = true) ranked
    ∧ select_top_n sort_values liana_res N (Some c) (Some ascending) =
        Ok (where_ (fun r => bool_decide
                      (Some (interaction r) ∈ map label_of (take (Z.to_nat N) ranked)))
                   liana_res)
    ∧ (labels_distinguish liana_res →
       select_top_n sort_values liana_res N (Some c) (Some ascending) =
         Ok (where_ (fun r => bool_decide
                       (key_of r ∈ map agg_key (take (Z.to_nat N) ranked)))
                    liana_res)).
Proof.
  intros Hsort Hc HN.
  destruct (Hsort ascending (aggregated liana_res c ascending))
    as (ranked & Hrun & Hperm & Hsorted).
  assert (∀ a, a ∈ ranked → a ∈ aggregated liana_res c ascending) as Hagg.
  { intros a. by rewrite Hperm. }
  assert (select_top_n sort_values liana_res N (Some c) (Some ascending) =
            Ok (where_ (fun r => bool_decide
                          (Some (interaction r) ∈ map label_of (take (Z.to_nat N) ranked)))
                       liana_res)) as Hcode.
  { unfold select_top_n.
    replace (match Some ascending with Some true => "min" | _ => "max" end)
      with (if ascending then "min" else "max") by by destruct ascending.
    rewrite aggregate_scores_top by done. cbn [rbind agg_rows entities].
    rewrite Hrun. cbn [rbind]. rewrite head_firstn by done.
    unfold agg_column. change (str_in "interaction" _) with true. cbn [rbind].
    unfold where_. do 2 f_equal. apply filter_bool_ext. intros r _.
    apply str_in_omap_label. }
  exists ranked. split_and!.
  - rewrite Hperm, aggregated_keys, isort_perm. apply NoDup_unique.
  - intros k. rewrite Hperm, aggregated_keys, elem_of_isort, elem_of_unique,
      list_elem_of_fmap.
    split; intros (r & H1 & H2); exists r; by split.
  - intros a Ha. by apply aggregated_elem, Hagg.
  - done.
  - done.
  - intros Hdist. rewrite Hcode. unfold where_. do 2 f_equal.
    apply filter_bool_ext. intros r Hr. apply bool_decide_ext.
    rewrite !list_elem_of_fmap. split.
    + intros (a & Hl & Ha). exists a. split; [|done].
      destruct (aggregated_elem liana_res c ascending a) as [(r' & Hr' & Hk) _].
      { apply Hagg. by eapply (subseteq_take (Z.to_nat N)). }
      rewrite (label_of_key a r' Hk) in Hl. simplify_eq.
      rewrite <- Hk. by apply Hdist.
    + intros (a & Hk & Ha). exists a. split; [|done].
      symmetry. by apply label_of_key.
Qed.

Lemma select_top_n_exact_witness :
  sorts stable_sort_values
  ∧ "pval" ∈ columns (prepared sample_table)
  ∧ 0 ≤ 2
  ∧ ∃ ranked : list Agg,
      StronglySorted (λ x y, score_leb true x y = true) ranked
      ∧ select_top_n stable_sort_values (prepared sample_table) 2
          (Some "pval") (Some true) =
        Ok (where_ (fun r => bool_decide
                      (Some (interaction r) ∈ map label_of (take 2 ranked)))
                   (prepared sample_table)).
Proof.
  split; [exact stable_sort_values_sorts|].
  split; [by apply str_in_spec|]. split; [lia|].
  destruct (select_top_n_exact stable_sort_values (prepared sample_table)
              "pval" true 2 stable_sort_values_sorts
              ltac:(by apply str_in_spec) ltac:(lia))
    as (ranked & _ & _ & _ & Hsorted & Hcode & _).
  exists ranked. split; [exact Hsorted | exact Hcode].
Defined.

(** C6, the code's behaviour.  The top-N block ranks the keys
    (interaction label, ligand complex, receptor complex) and then
    filters the table on the label alone.  In [clash_table] the pairs
    ("A -> B", "C") and ("A", "B -> C") spell the same label and have
    the two best aggregated scores.  With [top_n = 1], ascending, the
    code keeps the rows of both pairs, where the one best-ranked
    (ligand, receptor) interaction has the rows of the first pair
    only.  With [top_n = 2] it keeps those same rows, where the two
    best-ranked labels cover the whole table.  So the surviving rows
    are those of the N best-ranked interactions neither when an
    interaction is a pair nor when it is a label. *)
Theorem select_top_n_label_clash :
  ∃ f1 s1 f2 s2 : Frame Row,
    select_top_n stable_sort_values (prepared clash_table) 1
      (Some "pval") (Some true) = Ok f1
    ∧ spec_top_n pair_of stable_sort_values (prepared clash_table) 1 "pval" true = Ok s1
    ∧ map (fun r => (pair_of r, stat (raw r) "pval")) (rows f1) =
        [(["A -> B"; "C"], 1); (["A"; "B -> C"], 2)]
    ∧ map (fun r => (pair_of r, stat (raw r) "pval")) (rows s1) =
        [(["A -> B"; "C"], 1)]
    ∧ rows f1 ≠ rows s1
    ∧ select_top_n stable_sort_values (prepared clash_table) 2
        (Some "pval") (Some true) = Ok f2
    ∧ spec_top_n label_unit stable_sort_values (prepared clash_table) 2 "pval" true = Ok s2
    ∧ map (fun r => (pair_of r, stat (raw r) "pval")) (rows f2) =
        [(["A -> B"; "C"], 1); (["A"; "B -> C"], 2)]
    ∧ map (fun r => (pair_of r, stat (raw r) "pval")) (rows s2) =
        [(["A -> B"; "C"], 1); (["A"; "B -> C"], 2); (["X"; "Y"], 3)]
    ∧ rows f2 ≠ rows s2.
Proof.
  eexists _, _, _, _.
  split; [vm_compute; reflexivity|]. split; [vm_compute; reflexivity|].
  split; [reflexivity|]. split; [reflexivity|]. split; [discriminate|].
  split; [vm_compute; reflexivity|]. split; [vm_compute; reflexivity|].
  split; [reflexivity|]. split; [reflexivity|]. discriminate.
Qed.

Lemma top_n_monotone_witness :
  0 < 1 ∧ 1 ≤ 2
  ∧ match dotplot stable_sort_values None (Some sample_table) (Some "pval")
            (Some "pval") None None (Some 1) (Some "pval") (Some true) None None,
          dotplot stable_sort_values None (Some sample_table) (Some "pval")
            (Some "pval") None None (Some 2) (Some "pval") (Some true) None None with
    | Ok f, Ok f' =>
        rows f `sublist_of` rows f'
        ∧ ∀ i, i ∈ map interaction (rows f) → i ∈ map interaction (rows f')
    | Err e, Err e' => e = e'
    | _, _ => False
    end.
Proof.
  split; [lia|]. split; [lia|].
  apply (top_n_monotone stable_sort_values None (Some sample_table) (Some "pval")
           (Some "pval") None None (Some "pval") (Some true) None None 1 2); lia.
Defined.

(** C2, the code's behaviour.  The top-N block builds its two
    [ValueError]s and drops them, so a missing [orderby] or
    [orderby_ascending] reaches the aggregation: without [orderby] the
    error raised is the [KeyError] of the aggregation's column lookup;
    without [orderby_ascending] the block aggregates with [max] (or
    raises the [KeyError] of a column the table lacks) and only then
    hands the [None] flag to [sort_values].  The two sample calls of
    [dotplot] end in the aggregation's [KeyError]. *)
Theorem select_top_n_without_order_arguments
    (sort_values : option bool → list Agg → result (list Agg))
    (liana_res : Frame Row) (top_n : Z) :
  (∀ ascending : option bool,
     select_top_n sort_values liana_res top_n None ascending = Err (KeyError None))
  ∧ (∀ c : string,
       select_top_n sort_values liana_res top_n (Some c) None =
         if str_in c (columns liana_res)
         then
           let! sorted := sort_values None (aggregated liana_res c false) in
           let! top_lrs :=
             agg_column "interaction"
               ["interaction"; "ligand_complex"; "receptor_complex"]
               (head top_n sorted) in
           Ok (where_ (fun r => str_in (interaction r) top_lrs) liana_res)
         else Err (KeyError (Some c)))
  ∧ dotplot stable_sort_values None (Some sample_table) (Some "pval") (Some "pval")
      None None (Some 1) None (Some true) None None = Err (KeyError None)
  ∧ dotplot stable_sort_values None (Some sample_table) (Some "pval") (Some "pval")
      None None (Some 1) (Some "lr_means") None None None =
      Err (KeyError (Some "lr_means")).
Proof.
  split_and!; [| |reflexivity|reflexivity].
  - intros ascending. reflexivity.
  - intros c. destruct (str_in c (columns liana_res)) eqn:Hc.
    + apply str_in_spec in Hc. unfold select_top_n.
      change (match None with Some true => "min" | _ => "max" end)
        with (if false then "min" else "max").
      by rewrite (aggregate_scores_top liana_res c false Hc).
    + unfold select_top_n, _aggregate_scores. cbn [entity_key].
      change (row_str "interaction") with (Some interaction).
      change (row_str "ligand_complex")
        with (Some (fun r => ligand_complex (raw r))).
      change (row_str "receptor_complex")
        with (Some (fun r => receptor_complex (raw r))).
      cbn [rbind]. by rewrite Hc.
Qed.

End DotplotFacts.

(** ** Properties of [_Method.py] *)
Module MethodFacts.
Import Method.

Section WithPipe.

Context {ScoreFun Expr R : Type}.
Variable liana_pipe : @PipeArgs ScoreFun Expr R → result (DataFrame R).

Abbreviation MethodT := (@MethodT ScoreFun).
Abbreviation AnnData := (@AnnData Expr R).
Abbreviation world := (@world Expr R).
Abbreviation M := (@M Expr R).

Lemma Method_call_not_inplace (self : MethodT) (kw : CallArgs) (verbose : bool)
    (w : world) :
  Method_call liana_pipe self kw verbose false w =
    (match liana_pipe (pipe_args self (w_adata w) kw verbose) with
     | Ok t => Ok (Some t)
     | Err e => Err e
     end, w).
Proof.
  destruct w as [a con]. unfold Method_call, bind, get_adata, lift_result, ret.
  simpl. by destruct (liana_pipe _).
Qed.

Lemma direct_run_Ok (self : MethodT) (kw : CallArgs) (verbose : bool)
    (temp : AnnData) (t : DataFrame R) :
  direct_run liana_pipe self kw verbose temp = Ok (Some t) ↔
  liana_pipe (pipe_args self temp kw verbose) = Ok t.
Proof.
  unfold direct_run. rewrite Method_call_not_inplace. simpl.
  destruct (liana_pipe _); naive_solver.
Qed.

Lemma dict_set_fresh {V : Type} (k : string) (v : V) (d : list (string * V)) :
  k ∉ map fst d → dict_set k v d = d ++ [(k, v)].
Proof.
  induction d as [|[k' v'] d IH]; simpl; [done|]. intros Hk.
  apply not_elem_of_cons in Hk as [Hne Hk].
  destruct (String.eqb k k') eqn:E; [by apply String.eqb_eq in E|].
  by rewrite IH.
Qed.

Lemma set_uns_twice (k : string) (v1 v2 : UnsVal) (a : AnnData) :
  set_uns k v2 (set_uns k v1 a) = set_uns k v2 a.
Proof. unfold set_uns. simpl. f_equal. apply insert_insert_eq. Qed.

Lemma run_sample_eval (self : MethodT) (sample_key : string) (kw : CallArgs)
    (verbose full_verbose : bool) (a1 : AnnData) (col : Series)
    (s : string) (d : list (string * DataFrame R)) (con : list event) :
  obs a1 !! sample_key = Some col →
  run_sample liana_pipe self sample_key kw verbose full_verbose s
    {| w_adata := set_uns "liana_res" (UnsDict d) a1; w_console := con |} =
  match direct_run liana_pipe self kw full_verbose
          (subset_copy (with_uns (<["liana_res" := UnsDict d]> (uns a1)) a1)
                       (series_eq col s)) with
  | Ok (Some t) =>
      (Ok tt,
       {| w_adata := set_uns "liana_res" (UnsDict (dict_set s t d)) a1;
          w_console := con ++ progress_if verbose [s] |})
  | Ok None =>
      (Err (TypeError "sample result is None"),
       {| w_adata := set_uns "liana_res" (UnsDict d) a1;
          w_console := con ++ progress_if verbose [s] |})
  | Err e =>
      (Err e,
       {| w_adata := set_uns "liana_res" (UnsDict d) a1;
          w_console := con ++ progress_if verbose [s] |})
  end.
Proof.
  intros Hobs.
  unfold run_sample, bind, get_adata, get_obs, call_on, store_sample, get_uns,
    direct_run.
  rewrite !Method_call_not_inplace.
  change (subset_copy (with_uns (<["liana_res":=UnsDict d]> (uns a1)) a1) (series_eq col s))
    with (subset_copy (set_uns "liana_res" (UnsDict d) a1) (series_eq col s)).
  destruct verbose; simpl; rewrite Hobs; rewrite Method_call_not_inplace;
    simpl; destruct (liana_pipe _) as [t|e]; simpl; rewrite ?app_nil_r; try done;
    unfold bind; simpl; rewrite lookup_insert_eq; unfold modify_adata; simpl;
    by rewrite set_uns_twice.
Qed.

Lemma for_each_run_sample_inv (self : MethodT) (sample_key : string) (kw : CallArgs)
    (verbose full_verbose : bool) (a1 : AnnData) (col : Series) :
  obs a1 !! sample_key = Some col →
  ∀ (samples : list string) (d : list (string * DataFrame R)) (con : list event)
    (w' : world),
    NoDup (map fst d ++ samples) →
    for_each (run_sample liana_pipe self sample_key kw verbose full_verbose) samples
      {| w_adata := set_uns "liana_res" (UnsDict d) a1; w_console := con |} =
      (Ok tt, w') →
    ∃ tables,
      Forall2 (sample_run liana_pipe self kw full_verbose a1 col) samples tables
      ∧ w' = {| w_adata := set_uns "liana_res" (UnsDict (d ++ zip samples tables)) a1;
                w_console := con ++ progress_if verbose samples |}.
Proof.
  intros Hobs samples. induction samples as [|s samples IH]; intros d con w' Hnd Hrun.
  - exists []. split; [constructor|]. simpl in Hrun. unfold ret in Hrun.
    injection Hrun as <-. unfold progress_if. rewrite !app_nil_r.
    by destruct verbose; rewrite ?app_nil_r.
  - cbn [for_each] in Hrun. unfold bind at 1 in Hrun.
    rewrite (run_sample_eval self sample_key kw verbose full_verbose a1 col s d con Hobs)
      in Hrun.
    destruct (direct_run _ _ _ _ _) as [[t|]|e] eqn:Hdirect; try discriminate Hrun.
    assert (s ∉ map fst d) as Hfresh.
    { apply NoDup_app in Hnd as (_ & Hdisj & _). intros Hin.
      apply (Hdisj s Hin). by left. }
    rewrite (dict_set_fresh s t d Hfresh) in Hrun.
    apply IH in Hrun as (tables & Hruns & ->).
    + exists (t :: tables). split.
      * constructor; [by eexists | done].
      * simpl. rewrite <- !app_assoc. simpl. unfold progress_if.
        by destruct verbose.
    + rewrite map_app. simpl. rewrite <- app_assoc. simpl. done.
Qed.

Lemma sample_run_direct (self : MethodT) (kw : CallArgs) (verbose : bool)
    (a : AnnData) (col : Series) (s : string) (t : DataFrame R) :
  ignores_uns liana_pipe →
  sample_run liana_pipe self kw verbose a col s t ↔
  direct_run liana_pipe self kw verbose (subset_copy a (series_eq col s)) = Ok (Some t).
Proof.
  intros Hign. unfold sample_run. setoid_rewrite direct_run_Ok.
  assert (∀ u, liana_pipe (pipe_args self (subset_copy (with_uns u a) (series_eq col s)) kw verbose)
             = liana_pipe (pipe_args self (subset_copy a (series_eq col s)) kw verbose)) as Heq.
  { intros u. apply (Hign self (subset_copy a (series_eq col s)) kw verbose u). }
  split.
  - intros [u Hu]. by rewrite Heq in Hu.
  - intros H. exists (uns a). by rewrite Heq.
Qed.

Lemma for_each_run_sample (self : MethodT) (sample_key : string) (kw : CallArgs)
    (verbose full_verbose : bool) (a1 : AnnData) (col : Series) :
  ignores_uns liana_pipe →
  obs a1 !! sample_key = Some col →
  ∀ (samples : list string) (tables : list (DataFrame R))
    (d : list (string * DataFrame R)) (con : list event),
    Forall2 (λ s t, direct_run liana_pipe self kw full_verbose
                      (subset_copy a1 (series_eq col s)) = Ok (Some t))
            samples tables →
    NoDup (map fst d ++ samples) →
    for_each (run_sample liana_pipe self sample_key kw verbose full_verbose) samples
      {| w_adata := set_uns "liana_res" (UnsDict d) a1; w_console := con |} =
    (Ok tt,
     {| w_adata := set_uns "liana_res" (UnsDict (d ++ zip samples tables)) a1;
        w_console := con ++ progress_if verbose samples |}).
Proof.
  intros Hign Hobs samples tables d con Hruns. revert d con.
  induction Hruns as [|s t samples tables Hrun Hruns IH]; intros d con Hnd.
  - simpl. unfold ret, progress_if. rewrite !app_nil_r.
    by destruct verbose; rewrite ?app_nil_r.
  - cbn [for_each]. unfold bind at 1.
    rewrite (run_sample_eval self sample_key kw verbose full_verbose a1 col s d con Hobs).
    assert (sample_run liana_pipe self kw full_verbose a1 col s t) as Hs
      by by apply sample_run_direct.
    assert (direct_run liana_pipe self kw full_verbose
              (subset_copy (with_uns (<["liana_res":=UnsDict d]> (uns a1)) a1)
                 (series_eq col s)) = Ok (Some t)) as ->.
    { apply direct_run_Ok. apply direct_run_Ok in Hrun.
      rewrite <- Hrun.
      apply (Hign self (subset_copy a1 (series_eq col s)) kw full_verbose). }
    assert (s ∉ map fst d) as Hfresh.
    { apply NoDup_app in Hnd as (_ & Hdisj & _). intros Hin.
      apply (Hdisj s Hin). by left. }
    rewrite (dict_set_fresh s t d Hfresh). rewrite IH.
    + simpl. rewrite <- !app_assoc. simpl. unfold progress_if. by destruct verbose.
    + rewrite map_app. simpl. rewrite <- app_assoc. simpl. done.
Qed.

(** The outcome of [by_sample] in terms of the outcome of its loop. *)
Lemma by_sample_eval (self : MethodT) (sample_key : string) (inplace : bool)
    (verbose : verbosity) (kw : CallArgs) (a : AnnData) (con : list event)
    (col : Series) :
  obs a !! sample_key = Some col →
  by_sample liana_pipe self sample_key inplace verbose kw
    {| w_adata := a; w_console := con |} =
  match for_each (run_sample liana_pipe self sample_key kw
                    (reports_progress verbose) (full_verbose_of verbose))
          (cat_categories (astype_category col))
          {| w_adata := set_uns "liana_res" (UnsDict []) (coerced sample_key col a);
             w_console := con |} with
  | (Ok _, w1) =>
      match uns (w_adata w1) !! "liana_res" with
      | Some (UnsDict d) =>
          match concat_dict d with
          | Ok _ =>
              if inplace
              then (Ok None,
                    {| w_adata := set_uns "liana_res"
                                    (UnsBySample sample_key (combined d)) (w_adata w1);
                       w_console := w_console w1 |})
              else (Ok (Some (combined d)), w1)
          | Err e => (Err e, w1)
          end
      | Some _ => (Err (TypeError "cannot concatenate object"), w1)
      | None => (Err (KeyError (Some "liana_res")), w1)
      end
  | (Err e, w1) => (Err e, w1)
  end.
Proof.
  intros Hobs.
  assert (obs (coerced sample_key col a) !! sample_key = Some (astype_category col))
    as Hobs1.
  { unfold coerced. destruct col; simpl; [done|]. apply lookup_insert_eq. }
  set (a1 := coerced sample_key col a) in *.
  unfold by_sample. unfold bind at 1. unfold get_adata at 1. cbn [w_adata fst snd].
  rewrite Hobs.
  assert (∀ v fv,
     bind (get_obs sample_key)
          (λ col0, bind (modify_adata (set_uns "liana_res" (UnsDict [])))
             (λ _, bind (for_each (run_sample liana_pipe self sample_key kw v fv) (cat_categories col0))
               (λ _, bind (get_uns "liana_res")
                  (λ slot, match slot with
                           | UnsDict d =>
                               bind (lift_result (concat_dict d))
                                 (λ cat,
                                  if inplace
                                  then bind (modify_adata (set_uns "liana_res" (UnsBySample sample_key (reset_index (drop_level1 cat))))) (λ _, ret None)
                                  else ret (Some (reset_index (drop_level1 cat))))
                           | _ => raise (TypeError "cannot concatenate object")
                           end))))
       {| w_adata := a1; w_console := con |}
     = match for_each (run_sample liana_pipe self sample_key kw v fv)
          (cat_categories (astype_category col))
          {| w_adata := set_uns "liana_res" (UnsDict []) a1; w_console := con |} with
  | (Ok _, w1) =>
      match uns (w_adata w1) !! "liana_res" with
      | Some (UnsDict d) =>
          match concat_dict d with
          | Ok _ =>
              if inplace
              then (Ok None,
                    {| w_adata := set_uns "liana_res"
                                    (UnsBySample sample_key (combined d)) (w_adata w1);
                       w_console := w_console w1 |})
              else (Ok (Some (combined d)), w1)
          | Err e => (Err e, w1)
          end
      | Some _ => (Err (TypeError "cannot concatenate object"), w1)
      | None => (Err (KeyError (Some "liana_res")), w1)
      end
  | (Err e, w1) => (Err e, w1)
  end) as Hrest.
  { intros v fv. unfold bind at 1. unfold get_obs. cbn [w_adata].
    rewrite Hobs1. unfold bind at 1. unfold modify_adata at 1. cbn [w_adata w_console].
    unfold bind at 1.
    destruct (for_each _ _ _) as [[[]|e] w1]; [|done].
    unfold bind at 1. unfold get_uns.
    destruct (uns (w_adata w1) !! "liana_res") as [[df|k df|d|x]|]; try done.
    unfold bind at 1. unfold lift_result, concat_dict, combined.
    destruct d as [|p d]; [done|].
    destruct inplace; [|done]. unfold bind, modify_adata, ret. by destruct w1. }
  destruct (is_category col) eqn:Hcat.
  - assert (a1 = a) as Ha1 by (unfold a1, coerced; by rewrite Hcat).
    unfold bind at 1. unfold ret at 1. rewrite <- Ha1.
    destruct verbose; by apply Hrest.
  - assert (a1 = set_obs sample_key (astype_category col) a) as Ha1
      by (unfold a1, coerced; by rewrite Hcat).
    unfold bind at 1. unfold modify_adata at 1. cbn [w_adata w_console].
    rewrite <- Ha1. destruct verbose; by apply Hrest.
Qed.

Lemma NoDup_categories (col : Series) :
  wf_series col → NoDup (cat_categories (astype_category col)).
Proof.
  destruct col as [cs vs|vs]; simpl; [done|]. intros _.
  rewrite isort_perm. apply NoDup_unique.
Qed.

Lemma drop_level1_flat_map (d : list (string * DataFrame R)) :
  drop_level1 (flat_map (fun '(k, df) => map (fun '(i, r) => ((k, i), r)) df) d) =
  tagged d.
Proof.
  unfold drop_level1, tagged. induction d as [|[k df] d IH]; simpl; [done|].
  rewrite map_app, IH. f_equal. unfold frame_rows. rewrite !map_map.
  apply map_ext. by intros [i r].
Qed.

Lemma frame_rows_reset_index (l : list (string * R)) :
  frame_rows (reset_index l) = l.
Proof.
  unfold frame_rows, reset_index. apply snd_zip. rewrite length_seqZ. lia.
Qed.

Lemma index_reset_index (l : list (string * R)) :
  map fst (reset_index l) = seqZ 0 (Z.of_nat (length (reset_index l))).
Proof.
  unfold reset_index. rewrite length_zip, length_seqZ.
  rewrite fst_zip by (rewrite length_seqZ; lia). f_equal. lia.
Qed.

Lemma frame_rows_combined (d : list (string * DataFrame R)) :
  frame_rows (combined d) = tagged d.
Proof.
  unfold combined. by rewrite frame_rows_reset_index, drop_level1_flat_map.
Qed.

Lemma slice_tagged_other (s : string) (d : list (string * DataFrame R)) :
  s ∉ map fst d →
  List.filter (fun sr : string * R => String.eqb (fst sr) s) (tagged d) = [].
Proof.
  induction d as [|[k df] d IH]; simpl; [done|]. intros Hs.
  apply not_elem_of_cons in Hs as [Hne Hs]. unfold tagged in *. simpl.
  rewrite List.filter_app, IH by done. rewrite app_nil_r.
  induction (frame_rows df) as [|r l IHl]; simpl; [done|].
  destruct (String.eqb k s) eqn:E; [|done]. apply String.eqb_eq in E. congruence.
Qed.

Lemma slice_tagged_same (s : string) (l : list R) :
  map snd (List.filter (fun sr : string * R => String.eqb (fst sr) s) (map (pair s) l)) = l.
Proof.
  induction l as [|r l IH]; simpl; [done|]. rewrite String.eqb_refl. simpl.
  by rewrite IH.
Qed.

Lemma sample_slice_combined (d : list (string * DataFrame R)) :
  NoDup (map fst d) →
  Forall (λ st, sample_slice (fst st) (combined d) = frame_rows (snd st)) d.
Proof.
  intros Hnd. apply Forall_forall. intros [s t] Hin. simpl.
  unfold sample_slice. rewrite frame_rows_combined.
  induction d as [|[k df] d IH]; [by apply elem_of_nil in Hin|].
  simpl in Hnd. apply NoDup_cons in Hnd as [Hk Hnd]. unfold tagged. simpl.
  rewrite List.filter_app, map_app. apply elem_of_cons in Hin as [Heq|Hin].
  - simplify_eq. fold (tagged d). rewrite slice_tagged_other by done.
    simpl. rewrite app_nil_r. apply slice_tagged_same.
  - fold (tagged d). rewrite (IH Hnd Hin).
    assert (k ≠ s) as Hne.
    { intros ->. apply Hk. apply list_elem_of_fmap. by exists (s, t). }
    induction (frame_rows df) as [|r l IHl]; simpl; [done|].
    destruct (String.eqb k s) eqn:E; [|done]. by apply String.eqb_eq in E.
Qed.

Lemma Forall_zip_Forall2 {A B : Type} (Q : A → B → Prop) (l : list A) (k : list B) :
  length l = length k → Forall (λ p, Q (fst p) (snd p)) (zip l k) → Forall2 Q l k.
Proof.
  revert k. induction l as [|x l IH]; intros [|y k] Hlen H; simpl in *;
    try done; try constructor.
  - by apply Forall_cons in H as [H1 H2].
  - apply Forall_cons in H as [H1 H2]. apply IH; [lia|done].
Qed.

Lemma zip_nil_inv {A B : Type} (l : list A) (k : list B) :
  length l = length k → zip l k = [] → l = [].
Proof. by destruct l, k. Qed.

(** C1. For an input whose sample key is categorical (with distinct
    levels), every combined table [by_sample] produces (returns, or
    stores under ['liana_res'] when [inplace]) comes with direct runs
    [self(adata[adata.obs[sample_key] == s].copy(), inplace=False, **kw)],
    one per category level, that each return a table, and is their
    concatenation: its rows are the rows of those tables in
    category-level order, each tagged with its sample and none removed;
    its index is reset to 0, 1, 2, ...; and its slice for each sample,
    without the sample column, is row for row the table of the direct
    run on that sample.  Conversely the table is produced whenever
    there is a level and the direct runs return tables.  The direct
    runs get the verbosity [by_sample] gives its per-sample calls;
    [liana_pipe], which is outside these sources, is assumed not to
    read [adata.uns]. *)
Theorem by_sample_concatenates_direct_runs (self : MethodT) (sample_key : string)
    (inplace : bool) (verbose : verbosity) (kw : CallArgs) (a : AnnData)
    (con : list event) (cats : list string) (vals : list (option string)) :
  ignores_uns liana_pipe →
  obs a !! sample_key = Some (Categorical cats vals) →
  NoDup cats →
  (∀ table,
     produces (by_sample liana_pipe self sample_key inplace verbose kw
                 {| w_adata := a; w_console := con |}) sample_key inplace table →
     ∃ tables,
       Forall2 (λ s t, direct_run liana_pipe self kw (full_verbose_of verbose)
                         (subset_copy a (series_eq (Categorical cats vals) s)) =
                       Ok (Some t)) cats tables
       ∧ frame_rows table = tagged (zip cats tables)
       ∧ map fst table = seqZ 0 (Z.of_nat (length table))
       ∧ Forall2 (λ s t, sample_slice s table = frame_rows t) cats tables)
  ∧ (∀ tables,
       cats ≠ [] →
       Forall2 (λ s t, direct_run liana_pipe self kw (full_verbose_of verbose)
                         (subset_copy a (series_eq (Categorical cats vals) s)) =
                       Ok (Some t)) cats tables →
       produces (by_sample liana_pipe self sample_key inplace verbose kw
                   {| w_adata := a; w_console := con |}) sample_key inplace
                (combined (zip cats tables))).
Proof.
  intros Hign Hobs Hnd.
  pose proof (by_sample_eval self sample_key inplace verbose kw a con _ Hobs) as Heval.
  cbn [astype_category cat_categories] in Heval.
  change (coerced sample_key (Categorical cats vals) a) with a in Heval.
  split.
  - intros table Hprod. rewrite Heval in Hprod. clear Heval.
    destruct (for_each _ _ _) as [[[]|e] w1] eqn:Hloop.
    2:{ unfold produces in Hprod. destruct inplace; simpl in Hprod;
          [by destruct Hprod | done]. }
    apply (for_each_run_sample_inv self sample_key kw _ _ a _ Hobs)
      in Hloop as (tables & Hruns & ->); [|done].
    pose proof (Forall2_length _ _ _ Hruns) as Hlen.
    cbn [w_adata uns set_uns app] in Hprod. rewrite lookup_insert_eq in Hprod.
    assert (table = combined (zip cats tables)) as ->.
    { unfold produces, concat_dict in Hprod.
      destruct (zip cats tables) as [|p z] eqn:Ez.
      - destruct inplace; simpl in Hprod; [by destruct Hprod | done].
      - rewrite <- Ez in *. destruct inplace; simpl in Hprod.
        + destruct Hprod as [_ Hslot]. rewrite lookup_insert_eq in Hslot.
          by simplify_eq.
        + by simplify_eq. }
    exists tables. split_and!.
    + eapply Forall2_impl; [exact Hruns|]. intros s t Hs. by apply sample_run_direct in Hs.
    + apply frame_rows_combined.
    + unfold combined. apply index_reset_index.
    + apply Forall_zip_Forall2; [done|].
      apply (sample_slice_combined (zip cats tables)).
      rewrite fst_zip by lia. done.
  - intros tables Hne Hruns. rewrite Heval. clear Heval.
    rewrite (for_each_run_sample self sample_key kw _ _ a _ Hign Hobs cats tables []
               con Hruns Hnd).
    cbn [w_adata uns set_uns app]. rewrite lookup_insert_eq.
    pose proof (Forall2_length _ _ _ Hruns) as Hlen.
    unfold produces, concat_dict.
    destruct (zip cats tables) as [|p z] eqn:Ez.
    { by apply zip_nil_inv in Ez. }
    rewrite <- Ez. destruct inplace; simpl; [|done].
    split; [done|]. apply lookup_insert_eq.
Qed.

(** C10. With [inplace=False] the input object is mutated all the
    same: whenever the call returns the combined table, ['liana_res']
    in [adata.uns] holds the dictionary from each sample name, in
    iteration order, to the table of the per-sample call, whatever was
    stored there before; the returned table is assembled from that
    dictionary, and the other entries of [uns] are kept. *)
Theorem by_sample_not_inplace_keeps_dict (self : MethodT) (sample_key : string)
    (verbose : verbosity) (kw : CallArgs) (a : AnnData) (con : list event)
    (col : Series) (table : DataFrame (string * R)) (w' : world) :
  obs a !! sample_key = Some col →
  wf_series col →
  by_sample liana_pipe self sample_key false verbose kw
    {| w_adata := a; w_console := con |} = (Ok (Some table), w') →
  ∃ tables,
    Forall2 (sample_run liana_pipe self kw (full_verbose_of verbose)
               (coerced sample_key col a) (astype_category col))
            (cat_categories (astype_category col)) tables
    ∧ uns (w_adata w') !! "liana_res" =
        Some (UnsDict (zip (cat_categories (astype_category col)) tables))
    ∧ table = combined (zip (cat_categories (astype_category col)) tables)
    ∧ ∀ k, k ≠ "liana_res" → uns (w_adata w') !! k = uns a !! k.
Proof.
  intros Hobs Hwf Hrun.
  assert (obs (coerced sample_key col a) !! sample_key = Some (astype_category col))
    as Hobs1.
  { unfold coerced. destruct col; simpl; [done|]. apply lookup_insert_eq. }
  rewrite (by_sample_eval self sample_key false verbose kw a con col Hobs) in Hrun.
  destruct (for_each _ _ _) as [[[]|e] w1] eqn:Hloop; [|discriminate Hrun].
  apply (for_each_run_sample_inv self sample_key kw _ _ _ _ Hobs1)
    in Hloop as (tables & Hruns & ->);
    [|by apply NoDup_categories].
  cbn [w_adata uns set_uns app] in Hrun. rewrite lookup_insert_eq in Hrun.
  destruct (concat_dict _) as [cat|e]; [|discriminate Hrun].
  injection Hrun as <- <-. exists tables. split_and!; [done| |done|].
  - apply lookup_insert_eq.
  - intros k Hk. cbn [w_adata uns set_uns]. rewrite lookup_insert_ne by done.
    unfold coerced. by destruct (is_category col).
Qed.

(** *** What reaches the console *)

Lemma emits_only_ret {A : Type} (P : event → Prop) (x : A) : emits_only P (ret x : M A).
Proof. intros w. exists []. by rewrite app_nil_r. Qed.

Lemma emits_only_raise {A : Type} (P : event → Prop) (e : exn) :
  emits_only P (raise e : M A).
Proof. intros w. exists []. by rewrite app_nil_r. Qed.

Lemma emits_only_lift {A : Type} (P : event → Prop) (r : result A) :
  emits_only P (lift_result r : M A).
Proof. intros w. exists []. by rewrite app_nil_r. Qed.

Lemma emits_only_get_adata (P : event → Prop) : emits_only P (get_adata : M AnnData).
Proof. intros w. exists []. by rewrite app_nil_r. Qed.

Lemma emits_only_get_obs (P : event → Prop) (k : string) :
  emits_only P (get_obs k : M Series).
Proof.
  intros w. exists []. unfold get_obs. rewrite app_nil_r.
  by destruct (obs (w_adata w) !! k).
Qed.

Lemma emits_only_get_uns (P : event → Prop) (k : string) :
  emits_only P (get_uns k : M UnsVal).
Proof.
  intros w. exists []. unfold get_uns. rewrite app_nil_r.
  by destruct (uns (w_adata w) !! k).
Qed.

Lemma emits_only_modify (P : event → Prop) (f : AnnData → AnnData) :
  emits_only P (modify_adata f).
Proof. intros w. exists []. by rewrite app_nil_r. Qed.

Lemma emits_only_emit (P : event → Prop) (e : event) :
  P e → emits_only P (emit e : M unit).
Proof. intros He w. exists [e]. split; [done|]. by constructor. Qed.

Lemma emits_only_bind {A B : Type} (P : event → Prop) (m : M A) (k : A → M B) :
  emits_only P m → (∀ x, emits_only P (k x)) → emits_only P (bind m k).
Proof.
  intros Hm Hk w. unfold bind. destruct (Hm w) as (evs & Hc & Hevs).
  destruct (m w) as [[x|e] w1]; simpl in *.
  - destruct (Hk x w1) as (evs' & Hc' & Hevs'). exists (evs ++ evs').
    rewrite Hc', Hc, app_assoc. split; [done|]. by apply Forall_app.
  - by exists evs.
Qed.

Lemma emits_only_call_on {A : Type} (P : event → Prop) (temp : AnnData) (m : M A) :
  emits_only P m → emits_only P (call_on temp m).
Proof.
  intros Hm w. unfold call_on.
  destruct (Hm {| w_adata := temp; w_console := w_console w |}) as (evs & Hc & Hevs).
  destruct (m _) as [r w1]. simpl in *. by exists evs.
Qed.

Lemma emits_only_Method_call (P : event → Prop) (self : MethodT) (kw : CallArgs)
    (verbose inplace : bool) :
  emits_only P (Method_call liana_pipe self kw verbose inplace).
Proof.
  unfold Method_call. apply emits_only_bind; [apply emits_only_get_adata|].
  intros adata. apply emits_only_bind; [apply emits_only_lift|]. intros t.
  destruct inplace; [|apply emits_only_ret].
  apply emits_only_bind; [apply emits_only_modify|]. intros _. apply emits_only_ret.
Qed.

Lemma emits_only_for_each {A : Type} (P : event → Prop) (body : A → M unit)
    (l : list A) :
  (∀ x, emits_only P (body x)) → emits_only P (for_each body l).
Proof.
  intros Hbody. induction l as [|x l IH]; simpl; [apply emits_only_ret|].
  apply emits_only_bind; [apply Hbody | by intros _].
Qed.

Lemma emits_only_run_sample (self : MethodT) (sample_key : string) (kw : CallArgs)
    (verbose full_verbose : bool) (s : string) :
  emits_only (λ e, verbose = true ∧ ∃ x, e = progress_of x)
    (run_sample liana_pipe self sample_key kw verbose full_verbose s).
Proof.
  unfold run_sample. apply emits_only_bind.
  { destruct verbose; [|apply emits_only_ret]. apply emits_only_emit. eauto. }
  intros _. apply emits_only_bind; [apply emits_only_get_adata|]. intros adata.
  apply emits_only_bind; [apply emits_only_get_obs|]. intros col.
  apply emits_only_bind.
  { apply emits_only_call_on, emits_only_Method_call. }
  intros [df|]; [|apply emits_only_raise].
  unfold store_sample. apply emits_only_bind; [apply emits_only_get_uns|].
  intros []; try apply emits_only_raise. apply emits_only_modify.
Qed.

(** C3, the code's behaviour.  Whatever the input, and in particular
    when the sample column is not categorical and gets coerced, the
    only events [by_sample] sends to the console are the progress
    descriptions, and those only when [verbose] is set: no warning is
    emitted. *)
Theorem by_sample_emits_no_warning (self : MethodT) (sample_key : string)
    (inplace : bool) (verbose : verbosity) (kw : CallArgs) :
  emits_only (λ e, reports_progress verbose = true ∧ ∃ s, e = progress_of s)
    (by_sample liana_pipe self sample_key inplace verbose kw).
Proof.
  unfold by_sample. apply emits_only_bind; [apply emits_only_get_adata|].
  intros adata. destruct (obs adata !! sample_key) as [col|];
    [|apply emits_only_raise].
  apply emits_only_bind.
  { destruct (is_category col); [apply emits_only_ret | apply emits_only_modify]. }
  intros _.
  assert (∀ v fv, v = reports_progress verbose →
    emits_only (λ e, reports_progress verbose = true ∧ ∃ s, e = progress_of s)
      (bind (get_obs sample_key)
          (λ col0, bind (modify_adata (set_uns "liana_res" (UnsDict [])))
             (λ _, bind (for_each (run_sample liana_pipe self sample_key kw v fv) (cat_categories col0))
               (λ _, bind (get_uns "liana_res")
                  (λ slot, match slot with
                           | UnsDict d =>
                               bind (lift_result (concat_dict d))
                                 (λ cat,
                                  if inplace
                                  then bind (modify_adata (set_uns "liana_res" (UnsBySample sample_key (reset_index (drop_level1 cat))))) (λ _, ret None)
                                  else ret (Some (reset_index (drop_level1 cat))))
                           | _ => raise (TypeError "cannot concatenate object")
                           end)))))) as Hrest.
  { intros v fv ->. apply emits_only_bind; [apply emits_only_get_obs|]. intros col0.
    apply emits_only_bind; [apply emits_only_modify|]. intros _.
    apply emits_only_bind.
    { apply emits_only_for_each. intros s. apply emits_only_run_sample. }
    intros _. apply emits_only_bind; [apply emits_only_get_uns|].
    intros []; try apply emits_only_raise.
    apply emits_only_bind; [apply emits_only_lift|]. intros cat.
    destruct inplace; [|apply emits_only_ret].
    apply emits_only_bind; [apply emits_only_modify|]. intros _. apply emits_only_ret. }
  destruct verbose; by apply Hrest.
Qed.

End WithPipe.

(** *** The toy pipeline as an instance *)

Lemma toy_pipe_ignores_uns : ignores_uns toy_pipe.
Proof. intros self a kw verbose u. reflexivity. Qed.

Lemma by_sample_concatenates_direct_runs_witness :
  ignores_uns toy_pipe
  ∧ obs toy_adata !! "sample" =
      Some (Categorical ["s1"; "s2"] [Some "s1"; Some "s2"; Some "s1"])
  ∧ NoDup ["s1"; "s2"]
  ∧ produces (by_sample toy_pipe toy_method "sample" false VTrue toy_kwargs
                {| w_adata := toy_adata; w_console := [] |}) "sample" false
             (combined (zip ["s1"; "s2"] [[(0, 10); (1, 30)]; [(0, 20)]])).
Proof.
  assert (NoDup ["s1"; "s2"]) as Hnd.
  { apply NoDup_cons. split; [|apply NoDup_singleton].
    intros H%list_elem_of_singleton. discriminate H. }
  split_and!; [exact toy_pipe_ignores_uns | reflexivity | exact Hnd |].
  apply (by_sample_concatenates_direct_runs toy_pipe toy_method "sample" false
           VTrue toy_kwargs toy_adata [] ["s1"; "s2"]
           [Some "s1"; Some "s2"; Some "s1"] toy_pipe_ignores_uns eq_refl Hnd).
  - discriminate.
  - repeat constructor.
Defined.

Lemma by_sample_not_inplace_keeps_dict_witness :
  obs toy_adata !! "sample" =
    Some (Categorical ["s1"; "s2"] [Some "s1"; Some "s2"; Some "s1"])
  ∧ wf_series (Categorical ["s1"; "s2"] [Some "s1"; Some "s2"; Some "s1"])
  ∧ by_sample toy_pipe toy_method "sample" false VFalse toy_kwargs
      {| w_adata := toy_adata; w_console := [] |} =
      (Ok (Some [(0, ("s1", 10)); (1, ("s1", 30)); (2, ("s2", 20))]),
       {| w_adata := set_uns "liana_res"
                       (UnsDict [("s1", [(0, 10); (1, 30)]); ("s2", [(0, 20)])])
                       toy_adata;
          w_console := [] |})
  ∧ ∃ tables,
      uns (set_uns "liana_res"
             (UnsDict [("s1", [(0, 10); (1, 30)]); ("s2", [(0, 20)])]) toy_adata)
        !! "liana_res" = Some (UnsDict (zip ["s1"; "s2"] tables)).
Proof.
  assert (NoDup ["s1"; "s2"]) as Hnd.
  { apply NoDup_cons. split; [|apply NoDup_singleton].
    intros H%list_elem_of_singleton. discriminate H. }
  assert (by_sample toy_pipe toy_method "sample" false VFalse toy_kwargs
      {| w_adata := toy_adata; w_console := [] |} =
      (Ok (Some [(0, ("s1", 10)); (1, ("s1", 30)); (2, ("s2", 20))]),
       {| w_adata := set_uns "liana_res"
                       (UnsDict [("s1", [(0, 10); (1, 30)]); ("s2", [(0, 20)])])
                       toy_adata;
          w_console := [] |})) as Hrun.
  { vm_compute. reflexivity. }
  split_and!; [reflexivity | exact Hnd | exact Hrun |].
  destruct (by_sample_not_inplace_keeps_dict toy_pipe toy_method "sample" VFalse
              toy_kwargs toy_adata []
              (Categorical ["s1"; "s2"] [Some "s1"; Some "s2"; Some "s1"])
              _ _ eq_refl Hnd Hrun) as (tables & _ & Hslot & _).
  exists tables. exact Hslot.
Defined.

(** A run on a non-categorical sample column: the column is coerced in
    place, the samples are visited in the order of the sorted levels,
    and nothing is written to the console. *)
Example by_sample_coerces_silently :
  let r := by_sample toy_pipe toy_method "sample" false VFalse toy_kwargs
             {| w_adata := toy_adata_object; w_console := [] |} in
  fst r = Ok (Some [(0, ("s1", 20)); (1, ("s2", 10)); (2, ("s2", 30))])
  ∧ obs (w_adata (snd r)) !! "sample" =
      Some (Categorical ["s1"; "s2"] [Some "s2"; Some "s1"; Some "s2"])
  ∧ w_console (snd r) = [].
Proof. split_and!; vm_compute; reflexivity. Qed.

(** *** The registry table *)

Section Registry.

Context {ScoreFun : Type}.
Abbreviation MethodMeta := (@MethodMeta ScoreFun).

Lemma all_columns_get_meta (m : MethodMeta) (ms : list MethodMeta) :
  all_columns (map get_meta (m :: ms)) = meta_columns.
Proof.
  unfold all_columns. cbn [map flat_map get_meta mf_columns].
  apply (unique_absorb meta_columns).
  - unfold meta_columns. apply (bool_decide_unpack _). by vm_compute.
  - intros x. induction ms as [|m' ms IH]; cbn [map flat_map];
      [by intros ?%elem_of_nil|].
    rewrite elem_of_app. intros [Hx|Hx]; [done | by apply IH].
Qed.

Lemma realign_get_meta (m : MethodMeta) :
  realign meta_columns (get_meta m) = [meta_row m].
Proof. reflexivity. Qed.

Lemma index_get_meta (ms : list MethodMeta) :
  flat_map mf_index (map get_meta ms) = map (λ _, 0) ms.
Proof. induction ms as [|m ms IH]; simpl; [done|]. by rewrite IH. Qed.

Lemma data_get_meta (ms : list MethodMeta) :
  flat_map (realign meta_columns) (map get_meta ms) = map meta_row ms.
Proof.
  induction ms as [|m ms IH]; [done|]. cbn [map flat_map].
  by rewrite realign_get_meta, IH.
Qed.

(** C9, as amended.  A constructed [MethodMeta] describes itself by a
    one-row table holding exactly its name, magnitude column,
    specificity column and reference as given to the constructor; and
    for every non-empty list of methods the registry table is the
    row-wise concatenation of their [get_meta] rows in list order
    (every row keeps its index 0).  For the empty list the call raises
    the [ValueError] of [pandas.concat]. *)
Theorem get_meta_show_methods :
  (∀ (instances : list MethodMeta) (name : string) (cc ac : list string)
     (fn : ScoreFun) (mag : option string) (mag_asc : option bool)
     (spec : option string) (spec_asc : option bool) (perm : bool) (ref : string),
     get_meta (fst (MethodMeta_init instances name cc ac fn mag mag_asc
                                    spec spec_asc perm ref)) =
       {| mf_columns := meta_columns;
          mf_index := [0];
          mf_data := [[Some name; mag; spec; Some ref]] |})
  ∧ (∀ methods : list MethodMeta,
       _show_methods methods =
         match methods with
         | [] => Err (ValueError "No objects to concatenate")
         | _ => Ok {| mf_columns := meta_columns;
                      mf_index := map (λ _, 0) methods;
                      mf_data := map meta_row methods |}
         end).
Proof.
  split; [reflexivity|]. intros [|m ms]; [reflexivity|].
  unfold _show_methods, concat.
  rewrite all_columns_get_meta, index_get_meta, data_get_meta. reflexivity.
Qed.

End Registry.

(** C9, counterexample.  With no method to show there is no registry
    table, in particular not the empty concatenation: the call raises. *)
Lemma show_methods_of_no_method :
  _show_methods (@nil (@Method.MethodMeta unit)) =
    Err (ValueError "No objects to concatenate")
  ∧ _show_methods (@nil (@Method.MethodMeta unit)) ≠
      Ok {| mf_columns := meta_columns; mf_index := []; mf_data := [] |}.
Proof. split; [reflexivity | discriminate]. Qed.

End MethodFacts.

(** ** More on [_dotplot.py]: the table [dotplot] and
       [dotplot_by_sample] plot *)
Module DotplotTableFacts.
Import Dotplot DotplotFacts.

Lemma filter_labels_opt (liana_res : Frame Raw) (labels : option (list string))
    (label_type : string) (col : Raw → string) :
  raw_str label_type = Some col →
  _filter_labels liana_res labels label_type =
    if decide (Forall (λ l, l ∈ map col (rows liana_res)) (requested labels))
    then Ok {| columns := columns liana_res;
               rows := filter (λ r, allowed labels (col r)) (rows liana_res) |}
    else Err (LabelsNotFound
                (filter (λ l, l ∉ map col (rows liana_res)) (requested labels))
                label_type).
Proof.
  intros Hcol. destruct labels as [names|].
  - rewrite (filter_labels_col liana_res names label_type col Hcol). simpl.
    case_decide; [|done]. unfold where_. do 2 f_equal.
    apply filter_bool_decide. intros r. apply bool_decide_eq_true.
  - unfold _filter_labels, requested. rewrite decide_True by constructor.
    destruct liana_res as [cs rs]. cbn [rows columns allowed].
    f_equal. f_equal. symmetry. induction rs as [|r rs IH]; [done|].
    rewrite filter_cons_True by done. by rewrite IH.
Qed.

Lemma prep_table_eval (liana_res : Frame Raw)
    (source_labels target_labels : option (list string)) (colour size : string) :
  _prep_liana_res None (Some liana_res) source_labels target_labels
      (Some colour) (Some size) =
    if decide (Forall (λ l, l ∈ map source (rows liana_res)) (requested source_labels))
    then
      let by_source := filter (λ r, allowed source_labels (source r)) (rows liana_res) in
      if decide (Forall (λ l, l ∈ map target by_source) (requested target_labels))
      then Ok {| columns := columns liana_res;
                 rows := map labelled
                           (filter (λ r, allowed source_labels (source r)
                                         ∧ allowed target_labels (target r))
                                   (rows liana_res)) |}
      else Err (LabelsNotFound
                  (filter (λ l, l ∉ map target by_source) (requested target_labels))
                  "target")
    else Err (LabelsNotFound
                (filter (λ l, l ∉ map source (rows liana_res)) (requested source_labels))
                "source").
Proof.
  unfold _prep_liana_res. cbn [rbind].
  rewrite (filter_labels_opt liana_res source_labels "source" source eq_refl).
  case_decide as HS; [|done]. cbn [rbind].
  rewrite (filter_labels_opt _ target_labels "target" target eq_refl).
  cbn [rows columns]; cbv zeta.
  case_decide as HT; [|done]. cbn [rbind rows columns]. do 2 f_equal.
  fold labelled. f_equal. rewrite list_filter_filter. apply list_filter_iff.
  intros r. tauto.
Qed.

(** X1. [_prep_liana_res] on a table passed as [liana_res], with
    [colour] and [size] set.  The source labels are checked against the
    whole table, the target labels against the rows the source filter
    keeps.  When both checks pass, the result has the columns of the
    table and, in order, exactly the rows whose source is let through
    by [source_labels] and whose target is let through by
    [target_labels], each with the label
    [ligand_complex + ' -> ' + receptor_complex].  Otherwise the error
    names the requested labels that were not found, the source labels
    first.  A list that is [None] lets every row through and never
    fails. *)
Theorem prep_liana_res_label_filters (liana_res : Frame Raw)
    (source_labels target_labels : option (list string)) (colour size : string) :
  _prep_liana_res None (Some liana_res) source_labels target_labels
      (Some colour) (Some size) =
    if decide (Forall (λ l, l ∈ map source (rows liana_res)) (requested source_labels))
    then
      let by_source := filter (λ r, allowed source_labels (source r)) (rows liana_res) in
      if decide (Forall (λ l, l ∈ map target by_source) (requested target_labels))
      then Ok {| columns := columns liana_res;
                 rows := map labelled
                           (filter (λ r, allowed source_labels (source r)
                                         ∧ allowed target_labels (target r))
                                   (rows liana_res)) |}
      else Err (LabelsNotFound
                  (filter (λ l, l ∉ map target by_source) (requested target_labels))
                  "target")
    else Err (LabelsNotFound
                (filter (λ l, l ∉ map source (rows liana_res)) (requested source_labels))
                "source").
Proof. apply prep_table_eval. Qed.

(** X2. The target labels are looked up after the source filter has
    been applied: a requested target label whose rows all have a source
    that [source_labels] removes is reported as not found in
    [liana_res['target']], although the table given has it. *)
Theorem prep_liana_res_target_hidden (liana_res : Frame Raw)
    (source_labels : option (list string)) (target_labels : list string)
    (colour size : string) (l : string) :
  Forall (λ x, x ∈ map source (rows liana_res)) (requested source_labels) →
  l ∈ target_labels →
  (∀ r, r ∈ rows liana_res → target r = l → ¬ allowed source_labels (source r)) →
  ∃ not_covered,
    _prep_liana_res None (Some liana_res) source_labels (Some target_labels)
      (Some colour) (Some size) = Err (LabelsNotFound not_covered "target")
    ∧ l ∈ not_covered.
Proof.
  intros HS Hl Hhid. rewrite prep_table_eval.
  rewrite decide_True by done. cbv zeta.
  assert (l ∉ map target (filter (λ r, allowed source_labels (source r)) (rows liana_res)))
    as Hno.
  { intros (r & Hr & [Hal Hin]%list_elem_of_filter)%list_elem_of_fmap.
    by apply (Hhid r Hin). }
  rewrite decide_False.
  - eexists. split; [done|]. apply list_elem_of_filter. done.
  - intros HT. apply Hno. rewrite Forall_forall in HT. by apply HT.
Qed.


Lemma prep_input_table (adata : option (gmap string (Frame Raw)))
    (liana_res : option (Frame Raw))
    (source_labels target_labels : option (list string)) (colour size : string) :
  _prep_liana_res adata liana_res source_labels target_labels (Some colour) (Some size) =
    match input_table adata liana_res with
    | Some t =>
        _prep_liana_res None (Some t) source_labels target_labels (Some colour) (Some size)
    | None =>
        match adata with
        | Some _ => Err AssertionError
        | None =>
            Err (AttributeError
                   "Ambiguous! One of `liana_res` or `adata` should be provided.")
        end
    end.
Proof.
  unfold _prep_liana_res, input_table.
  destruct adata as [a|], liana_res as [t|]; try done;
    destruct (a !! "liana_res"); done.
Qed.

(** X3. When [adata] is given, [_prep_liana_res] never uses its
    [liana_res] argument: once [colour] and [size] are checked, the
    table is [adata.uns['liana_res']], and the call fails with
    [AssertionError] when [adata.uns] has no such entry, whatever
    [liana_res] is. *)
Theorem prep_liana_res_adata_first (a : gmap string (Frame Raw))
    (liana_res : option (Frame Raw))
    (source_labels target_labels : option (list string)) (colour size : option string) :
  _prep_liana_res (Some a) liana_res source_labels target_labels colour size =
    match colour, size with
    | None, _ => Err (ValueError "`colour` must be provided!")
    | Some _, None => Err (ValueError "`size` must be provided!")
    | Some _, Some _ =>
        match a !! "liana_res" with
        | Some t => _prep_liana_res None (Some t) source_labels target_labels colour size
        | None => Err AssertionError
        end
    end.
Proof.
  destruct colour as [c|], size as [s|]; try done.
  by rewrite prep_input_table.
Qed.

(** X4. The only plain [ValueError]s [_prep_liana_res] raises are the
    two about a missing [colour] and a missing [size], in that order of
    precedence.  In particular the message of its last check,
    '`liana_res` or `adata` must be provided!', is never raised: with
    neither argument given the first check has already raised
    [AttributeError]. *)
Theorem prep_liana_res_value_errors (adata : option (gmap string (Frame Raw)))
    (liana_res : option (Frame Raw))
    (source_labels target_labels : option (list string)) (colour size : option string)
    (msg : string) :
  _prep_liana_res adata liana_res source_labels target_labels colour size =
    Err (ValueError msg) →
  (colour = None ∧ msg = "`colour` must be provided!")
  ∨ (is_Some colour ∧ size = None ∧ msg = "`size` must be provided!").
Proof.
  destruct colour as [c|]; [|intros [= <-]; by left].
  destruct size as [s|]; [|intros [= <-]; right; by eauto].
  rewrite prep_input_table.
  destruct (input_table adata liana_res) as [t|]; [|by destruct adata].
  rewrite prep_table_eval. cbv zeta. repeat case_decide; discriminate.
Qed.

Lemma list_filter_idemp {A : Type} (f : A → bool) (l : list A) :
  List.filter f (List.filter f l) = List.filter f l.
Proof.
  apply filter_bool_id. by intros x [_ Hx]%elem_of_filter_bool.
Qed.

(** X5. After a successful [_filter_labels] the values of the filtered
    column are exactly the requested labels (each occurs, no other
    does), and filtering the result again with the same labels returns
    it unchanged. *)
Theorem filter_labels_result_values (liana_res : Frame Raw) (labels : list string)
    (label_type : string) (col : Raw → string) (kept : Frame Raw) :
  raw_str label_type = Some col →
  _filter_labels liana_res (Some labels) label_type = Ok kept →
  (∀ x, x ∈ map col (rows kept) ↔ x ∈ labels)
  ∧ _filter_labels kept (Some labels) label_type = Ok kept.
Proof.
  intros Hcol. rewrite (filter_labels_col liana_res labels label_type col Hcol).
  case_decide as Hall; [|done]. intros [= <-].
  assert (∀ x, x ∈ map col (rows (where_ (fun r => bool_decide (col r ∈ labels)) liana_res))
               ↔ x ∈ labels) as Hvals.
  { intros x. cbn [where_ rows]. rewrite list_elem_of_fmap. split.
    - intros (r & -> & Hr). apply elem_of_filter_bool in Hr as [_ Hr].
      by apply bool_decide_eq_true in Hr.
    - intros Hx. rewrite Forall_forall in Hall.
      pose proof (Hall _ Hx) as Hin. apply list_elem_of_fmap in Hin as (r & -> & Hr).
      exists r. split; [done|]. apply elem_of_filter_bool.
      split; [done|]. by apply bool_decide_eq_true_2. }
  split; [done|].
  rewrite (filter_labels_col _ labels label_type col Hcol).
  rewrite decide_True.
  - unfold where_. cbn [rows columns]. by rewrite list_filter_idemp.
  - apply Forall_forall. intros x Hx. by apply Hvals.
Qed.

(** X6. An empty list of source labels is not an error: it leaves a
    table without rows.  Target labels given besides are then looked up
    in that empty table, so a non-empty list of them fails with all of
    its labels reported as not found. *)
Theorem prep_liana_res_no_source (liana_res : Frame Raw)
    (target_labels : option (list string)) (colour size : string) :
  _prep_liana_res None (Some liana_res) (Some []) target_labels
      (Some colour) (Some size) =
    match target_labels with
    | Some (l :: names) => Err (LabelsNotFound (l :: names) "target")
    | _ => Ok {| columns := columns liana_res; rows := [] |}
    end.
Proof.
  rewrite prep_table_eval. cbn [requested]. rewrite decide_True by constructor.
  cbv zeta.
  assert (∀ (P : Raw → Prop) `{∀ r, Decision (P r)},
            (∀ r, ¬ P r) → filter P (rows liana_res) = []) as Hnone.
  { intros P ? HP. induction (rows liana_res) as [|r l IH]; [done|].
    by rewrite filter_cons_False. }
  rewrite (Hnone (λ r, allowed (Some []) (source r))) by (intros r Hr; by apply elem_of_nil in Hr).
  rewrite (Hnone (λ r, allowed (Some []) (source r) ∧ _))
    by (intros r [Hr _]; by apply elem_of_nil in Hr).
  destruct target_labels as [[|l names]|]; cbn [requested map].
  - by rewrite decide_True by constructor.
  - rewrite decide_False.
    + f_equal. f_equal. clear Hnone.
      induction (l :: names) as [|x xs IH]; [done|].
      rewrite filter_cons_True by apply not_elem_of_nil. by rewrite IH.
    + intros [Hl _]%Forall_cons. by apply elem_of_nil in Hl.
  - by rewrite decide_True by constructor.
Qed.


Lemma row_cell_columns (t t' : Frame Row) (c : string) :
  columns t' = columns t → row_cell t' c = row_cell t c.
Proof. intros H. unfold row_cell. by rewrite H. Qed.

Lemma filter_interactions_where (t t' : Frame Row) (c : string)
    (filter_lambda : option (value → bool)) :
  filter_interactions t c filter_lambda = Ok t' →
  ∃ (col : Row → value) (p : value → bool),
    row_cell t c = Ok col ∧ filter_lambda = Some p ∧ rows t ≠ []
    ∧ t' = where_ (fun r => str_in (interaction r)
                     (isort String.leb
                        (unique (map interaction
                                     (List.filter (fun r => p (col r)) (rows t)))))) t.
Proof.
  unfold filter_interactions. destruct (row_cell t c) as [col|e]; [|done].
  cbn [rbind]. destruct (rows t) as [|r0 rs] eqn:Hrows; [done|]. rewrite <- Hrows.
  destruct filter_lambda as [p|]; [|done]. intros [= <-].
  exists col, p. split_and!; try done. by rewrite Hrows.
Qed.


Lemma select_top_n_where
    (sort_values : option bool → list Agg → result (list Agg))
    (t t' : Frame Row) (top_n : Z) (orderby : option string)
    (orderby_ascending : option bool) :
  select_top_n sort_values t top_n orderby orderby_ascending = Ok t' →
  ∃ (sorted : list Agg) (top_lrs : list string),
    (length top_lrs ≤ length (head top_n sorted))%nat
    ∧ t' = where_ (fun r => str_in (interaction r) top_lrs) t.
Proof.
  unfold select_top_n.
  destruct (_aggregate_scores _ _ _ _) as [agg|e]; [|done]. cbn [rbind].
  destruct (sort_values _ _) as [sorted|e]; [|done]. cbn [rbind].
  unfold agg_column. destruct (str_in _ _); [|done]. cbn [rbind].
  intros [= <-]. eexists sorted, _. split; [|done].
  generalize (head top_n sorted). intros l.
  induction l as [|a l IH]; [done|]. cbn [omap list_omap length].
  destruct (key_field _ _ _); simpl; lia.
Qed.









(** X10. With [top_n = N], [N] not negative, and an [orderby] that is
    none of the name columns, the table [dotplot] plots has at most [N]
    distinct interaction labels, whatever the labels, the filter and
    the sorting routine. *)
Theorem dotplot_top_n_bounds_labels
    (sort_values : option bool → list Agg → result (list Agg))
    (adata : option (gmap string (Frame Raw)))
    (liana_res : option (Frame Raw)) (colour size : option string)
    (source_labels target_labels : option (list string))
    (N : Z) (orderby : option string) (orderby_ascending : option bool)
    (filterby : option string) (filter_lambda : option (value → bool))
    (f : Frame Row) :
  0 ≤ N → ranks_by_statistic (Some N) orderby →
  dotplot sort_values adata liana_res colour size source_labels target_labels
    (Some N) orderby orderby_ascending filterby filter_lambda = Ok f →
  (length (unique (map interaction (rows f))) ≤ Z.to_nat N)%nat.
Proof.
  intros HN _. unfold dotplot.
  destruct (_prep_liana_res _ _ _ _ _ _) as [p|e]; [|done]. cbn [rbind].
  destruct (match filterby with Some _ => _ | None => _ end) as [p1|e]; [|done].
  cbn [rbind].
  destruct (select_top_n _ _ _ _ _) as [p2|e] eqn:E; [|done]. cbn [rbind].
  intros [= <-].
  apply select_top_n_where in E as (sorted & top_lrs & Hlen & ->).
  rewrite head_firstn, length_take in Hlen by done.
  assert (unique (map interaction (rows (where_ (fun r => str_in (interaction r) top_lrs) p1)))
            ⊆+ top_lrs) as Hsub.
  { apply NoDup_submseteq; [apply NoDup_unique|].
    intros i (r & -> & Hr)%elem_of_unique%list_elem_of_fmap.
    cbn [where_ rows] in Hr. apply elem_of_filter_bool in Hr as [_ Hr].
    by apply str_in_spec. }
  apply submseteq_length in Hsub. lia.
Qed.

(** X7. Running the [filterby] block of [dotplot] again on its own
    result, with the same column and predicate.  As long as the first
    pass has left a row, the second returns the result unchanged; when
    the first pass has left no row, the second raises
    [AttributeError].  The first pass leaves no row exactly when no row
    of the table satisfies the predicate. *)
Theorem filter_interactions_twice (liana_res kept : Frame Row) (filterby : string)
    (filter_lambda : option (value → bool)) :
  filter_interactions liana_res filterby filter_lambda = Ok kept →
  filter_interactions kept filterby filter_lambda =
    match rows kept with
    | [] => Err (AttributeError "'DataFrame' object has no attribute 'interaction'")
    | _ :: _ => Ok kept
    end
  ∧ ∀ col p, row_cell liana_res filterby = Ok col → filter_lambda = Some p →
      (rows kept = [] ↔ Forall (λ r, p (col r) = false) (rows liana_res)).
Proof.
  intros (col & p & Hcol & -> & Hne & ->)%filter_interactions_where.
  set (rel := isort String.leb
                (unique (map interaction (List.filter (fun r => p (col r)) (rows liana_res))))).
  split.
  - unfold filter_interactions. rewrite (row_cell_columns liana_res) by done.
    rewrite Hcol. cbn [rbind where_ rows columns].
    destruct (List.filter (fun r => str_in (interaction r) rel) (rows liana_res))
      as [|r0 rs] eqn:Hkept; [done|]. rewrite <- Hkept.
    f_equal. unfold where_. cbn [rows columns]. f_equal.
    assert (List.filter (fun r => p (col r))
              (List.filter (fun r => str_in (interaction r) rel) (rows liana_res)) =
            List.filter (fun r => p (col r)) (rows liana_res)) as ->.
    { rewrite filter_bool_comm. apply filter_bool_id.
      intros r Hr. apply str_in_spec. unfold rel.
      rewrite elem_of_isort, elem_of_unique. apply list_elem_of_fmap. by exists r. }
    fold rel. apply list_filter_idemp.
  - intros col' p' Hcol' [= <-]. rewrite Hcol in Hcol'. injection Hcol' as <-.
    cbn [where_ rows]. rewrite Forall_forall. split.
    + intros Hnil r Hr. destruct (p (col r)) eqn:Hp; [|done]. exfalso.
      assert (r ∈ List.filter (fun r => str_in (interaction r) rel) (rows liana_res))
        as Hin.
      { apply elem_of_filter_bool. split; [done|]. apply str_in_spec. unfold rel.
        rewrite elem_of_isort, elem_of_unique. apply list_elem_of_fmap. exists r.
        split; [done|]. by apply elem_of_filter_bool. }
      rewrite Hnil in Hin. by apply not_elem_of_nil in Hin.
    + intros Hall.
      assert (∀ r, r ∈ rows liana_res → str_in (interaction r) rel = false) as Hout.
      { intros r _. apply str_in_false. unfold rel.
        rewrite elem_of_isort, elem_of_unique, list_elem_of_fmap.
        intros (r' & _ & [Hr' Hp]%elem_of_filter_bool).
        rewrite (Hall r' Hr') in Hp. discriminate Hp. }
      clearbody rel. clear -Hout.
      induction (rows liana_res) as [|r l IH]; [done|]. simpl.
      rewrite Hout by (by left). apply IH. intros r' Hr'. apply Hout. by right.
Qed.


Lemma where_all {A : Type} (f : A → bool) (t : Frame A) :
  (∀ r, r ∈ rows t → f r = true) → where_ f t = t.
Proof.
  intros H. destruct t as [cs rs]. unfold where_. simpl in *. f_equal.
  by apply filter_bool_id.
Qed.

Lemma where_none {A : Type} (f : A → bool) (t : Frame A) :
  (∀ r, r ∈ rows t → f r = false) → where_ f t = {| columns := columns t; rows := [] |}.
Proof.
  intros H. unfold where_. f_equal.
  induction (rows t) as [|r l IH]; simpl; [done|].
  rewrite H by (by left). apply IH. intros r' Hr'. apply H. by right.
Qed.

(** The top-N block for every [N], in terms of a ranking of the
    aggregated table. *)
Lemma select_top_n_ranked
    (sort_values : option bool → list Agg → result (list Agg))
    (liana_res : Frame Row) (c : string) (ascending : bool) :
  sorts sort_values → c ∈ columns liana_res →
  ∃ ranked : list Agg,
    ranked ≡ₚ aggregated liana_res c ascending
    ∧ StronglySorted (λ x y, score_leb ascending x y = true) ranked
    ∧ ∀ N, select_top_n sort_values liana_res N (Some c) (Some ascending) =
             Ok (where_ (fun r => bool_decide
                           (Some (interaction r) ∈ map label_of (head N ranked)))
                        liana_res).
Proof.
  intros Hsort Hc.
  destruct (Hsort ascending (aggregated liana_res c ascending))
    as (ranked & Hrun & Hperm & Hsorted).
  exists ranked. split_and!; [done|done|]. intros N.
  unfold select_top_n.
  replace (match Some ascending with Some true => "min" | _ => "max" end)
    with (if ascending then "min" else "max") by by destruct ascending.
  rewrite aggregate_scores_top by done. cbn [rbind agg_rows entities].
  rewrite Hrun. cbn [rbind].
  unfold agg_column. change (str_in "interaction" _) with true. cbn [rbind].
  unfold where_. do 2 f_equal. apply filter_bool_ext. intros r _.
  apply str_in_omap_label.
Qed.

Lemma aggregated_length (liana_res : Frame Row) (c : string) (ascending : bool) :
  length (aggregated liana_res c ascending) =
  length (unique (map key_of (rows liana_res))).
Proof.
  unfold aggregated. by rewrite length_map, isort_perm.
Qed.

Lemma aggregated_label (liana_res : Frame Row) (c : string) (ascending : bool)
    (r : Row) :
  r ∈ rows liana_res →
  Some (interaction r) ∈ map label_of (aggregated liana_res c ascending).
Proof.
  intros Hr.
  assert (key_of r ∈ map agg_key (aggregated liana_res c ascending)) as Hk.
  { rewrite aggregated_keys, elem_of_isort, elem_of_unique.
    apply list_elem_of_fmap. by exists r. }
  apply list_elem_of_fmap in Hk as (a & Hk & Ha).
  apply list_elem_of_fmap. exists a. split; [|done].
  symmetry. by apply label_of_key.
Qed.

(** X11. The ends of the top-N range, for a statistic column of the
    table and a boolean flag: [top_n = 0] leaves a table without rows,
    and a [top_n] that is at least the number of distinct
    (label, ligand complex, receptor complex) keys leaves the table
    unchanged. *)
Theorem select_top_n_none_and_all
    (sort_values : option bool → list Agg → result (list Agg))
    (liana_res : Frame Row) (c : string) (ascending : bool) :
  sorts sort_values → c ∈ columns liana_res →
  select_top_n sort_values liana_res 0 (Some c) (Some ascending) =
    Ok {| columns := columns liana_res; rows := [] |}
  ∧ ∀ N, Z.of_nat (length (unique (map key_of (rows liana_res)))) ≤ N →
         select_top_n sort_values liana_res N (Some c) (Some ascending) = Ok liana_res.
Proof.
  intros Hsort Hc.
  destruct (select_top_n_ranked sort_values liana_res c ascending Hsort Hc)
    as (ranked & Hperm & _ & Hcode).
  split.
  - rewrite Hcode. f_equal. apply where_none. intros r _.
    apply bool_decide_eq_false_2. cbn. apply not_elem_of_nil.
  - intros N HN. rewrite Hcode. f_equal. apply where_all. intros r Hr.
    apply bool_decide_eq_true_2.
    rewrite head_firstn by lia. rewrite take_ge.
    + rewrite Hperm. by apply aggregated_label.
    + rewrite Hperm, aggregated_length. lia.
Qed.

(** X12. A negative [top_n] is not rejected.  [head(top_n)] then drops
    the last [-top_n] lines of the ranked table, so the rows kept are
    those whose label is the label of one of the other lines; once
    [-top_n] reaches the number of lines no row is left. *)
Theorem select_top_n_negative
    (sort_values : option bool → list Agg → result (list Agg))
    (liana_res : Frame Row) (c : string) (ascending : bool) (N : Z) :
  sorts sort_values → c ∈ columns liana_res → N < 0 →
  ∃ ranked : list Agg,
    ranked ≡ₚ aggregated liana_res c ascending
    ∧ StronglySorted (λ x y, score_leb ascending x y = true) ranked
    ∧ select_top_n sort_values liana_res N (Some c) (Some ascending) =
        Ok (where_ (fun r => bool_decide
                      (Some (interaction r) ∈
                         map label_of (take (length ranked - Z.to_nat (- N)) ranked)))
                   liana_res)
    ∧ (Z.of_nat (length ranked) ≤ - N →
       select_top_n sort_values liana_res N (Some c) (Some ascending) =
         Ok {| columns := columns liana_res; rows := [] |}).
Proof.
  intros Hsort Hc HN.
  destruct (select_top_n_ranked sort_values liana_res c ascending Hsort Hc)
    as (ranked & Hperm & Hsorted & Hcode).
  assert (head N ranked = take (length ranked - Z.to_nat (- N)) ranked) as Hhead.
  { unfold head. by rewrite (proj2 (Z.leb_gt 0 N)) by lia. }
  exists ranked. split_and!; [done|done| |].
  - by rewrite Hcode, Hhead.
  - intros Hlen. rewrite Hcode, Hhead. f_equal. apply where_none. intros r _.
    apply bool_decide_eq_false_2.
    replace (length ranked - Z.to_nat (- N))%nat with 0%nat by lia.
    cbn. apply not_elem_of_nil.
Qed.


(** *** The order of the group keys *)

Lemma ascii_compare_refl (a : Ascii.ascii) : Ascii.compare a a = Eq.
Proof. unfold Ascii.compare. apply N.compare_refl. Qed.

Lemma ascii_compare_lt_trans (a b c : Ascii.ascii) :
  Ascii.compare a b = Lt → Ascii.compare b c = Lt → Ascii.compare a c = Lt.
Proof. unfold Ascii.compare. rewrite !N.compare_lt_iff. lia. Qed.

Lemma string_compare_refl (s : string) : String.compare s s = Eq.
Proof. induction s as [|a s IH]; simpl; [done|]. by rewrite ascii_compare_refl. Qed.

Lemma string_compare_lt_trans (s1 s2 s3 : string) :
  String.compare s1 s2 = Lt → String.compare s2 s3 = Lt → String.compare s1 s3 = Lt.
Proof.
  revert s2 s3. induction s1 as [|a s1 IH]; intros [|b s2] [|c s3]; simpl; try done.
  destruct (Ascii.compare a b) eqn:Hab; try done;
    destruct (Ascii.compare b c) eqn:Hbc; try done.
  - apply Ascii.compare_eq_iff in Hab, Hbc. subst. rewrite ascii_compare_refl.
    apply IH.
  - apply Ascii.compare_eq_iff in Hab. subst. by rewrite Hbc.
  - apply Ascii.compare_eq_iff in Hbc. subst. by rewrite Hab.
  - by rewrite (ascii_compare_lt_trans a b c).
Qed.

Lemma string_compare_gt_lt (s1 s2 : string) :
  String.compare s1 s2 = Gt → String.compare s2 s1 = Lt.
Proof.
  intros H. rewrite String.compare_antisym, H. done.
Qed.

Lemma key_leb_total (k1 k2 : list string) :
  key_leb k1 k2 = true ∨ key_leb k2 k1 = true.
Proof.
  revert k2. induction k1 as [|a k1 IH]; intros [|b k2]; simpl; auto.
  destruct (String.compare a b) eqn:Hab; [|by left|].
  - apply String.compare_eq_iff in Hab. subst. rewrite string_compare_refl. apply IH.
  - right. by rewrite (string_compare_gt_lt a b).
Qed.

Lemma key_leb_trans (k1 k2 k3 : list string) :
  key_leb k1 k2 = true → key_leb k2 k3 = true → key_leb k1 k3 = true.
Proof.
  revert k2 k3. induction k1 as [|a k1 IH]; intros [|b k2] [|c k3]; simpl; try done.
  destruct (String.compare a b) eqn:Hab; try done;
    destruct (String.compare b c) eqn:Hbc; try done.
  - apply String.compare_eq_iff in Hab, Hbc. subst. rewrite string_compare_refl.
    apply IH.
  - apply String.compare_eq_iff in Hab. subst. by rewrite Hbc.
  - apply String.compare_eq_iff in Hbc. subst. by rewrite Hab.
  - by rewrite (string_compare_lt_trans a b c).
Qed.

Lemma key_leb_antisym (k1 k2 : list string) :
  key_leb k1 k2 = true → key_leb k2 k1 = true → k1 = k2.
Proof.
  revert k2. induction k1 as [|a k1 IH]; intros [|b k2]; simpl; try done.
  destruct (String.compare a b) eqn:Hab; try done.
  - apply String.compare_eq_iff in Hab. subst. rewrite string_compare_refl.
    intros H1 H2. f_equal. by apply IH.
  - rewrite String.compare_antisym, Hab. done.
Qed.

Lemma isort_key_leb_sorted (l : list (list string)) :
  StronglySorted (λ k k', key_leb k k' = true) (isort key_leb l).
Proof. apply isort_sorted; [apply key_leb_total | apply key_leb_trans]. Qed.

(** *** [_aggregate_scores] on name columns *)

Lemma entity_cols_Ok (es : list string) :
  Forall (λ e, is_Some (row_str e)) es →
  ∃ key, entity_cols es = Ok key
         ∧ ∀ r, Some <$> key r = (λ e, cell_str e r) <$> es.
Proof.
  induction 1 as [|e es [col He] _ (rest & Hrest & Hvals)].
  - by exists (fun _ => []).
  - exists (fun r => col r :: rest r). cbn [entity_cols]. rewrite He, Hrest.
    split; [done|]. intros r. cbn [fmap list_fmap]. rewrite <- Hvals.
    unfold cell_str. by rewrite He.
Qed.

Lemma entity_key_Ok (es : list string) :
  es ≠ [] → Forall (λ e, is_Some (row_str e)) es →
  ∃ key, entity_key es = Ok key
         ∧ ∀ r, Some <$> key r = (λ e, cell_str e r) <$> es.
Proof.
  intros Hne Hes. destruct es as [|e es]; [done|]. by apply entity_cols_Ok.
Qed.

Lemma aggregate_scores_eval (res : Frame Row) (c : string) (ascending : bool)
    (es : list string) (key : Row → list string) :
  entity_key es = Ok key → c ∈ columns res →
  _aggregate_scores res (Some c) (if ascending then "min" else "max") es =
    Ok {| entities := es;
          agg_rows :=
            map (fun k =>
                   {| agg_key := k;
                      score := aggregate (if ascending then Z.min else Z.max)
                        (map (fun r => stat (raw r) c)
                             (List.filter (fun r => bool_decide (key r = k))
                                          (rows res))) |})
                (isort key_leb (unique (map key (rows res)))) |}.
Proof.
  intros Hkey Hc%str_in_spec. unfold _aggregate_scores. rewrite Hkey, Hc.
  by destruct ascending.
Qed.

(** X13. What [_aggregate_scores] returns on the kind of call [dotplot]
    makes: the grouping columns a non-empty list of distinct name
    columns, the aggregated column a statistic column of the table,
    the aggregation 'min' or 'max'.  The call returns a table over the
    grouping columns
    with one line per distinct group key occurring in the rows, the
    lines in strictly ascending lexicographic order of the keys, and
    the score of a line the least ('min') or greatest ('max') value of
    the statistic over the rows of its group.  The key of a row lists
    its values in the grouping columns. *)
Theorem aggregate_scores_groups (res : Frame Row) (c : string) (ascending : bool)
    (es : list string) :
  es ≠ [] → NoDup es → Forall (λ e, is_Some (row_str e)) es →
  c ∈ columns res → row_str c = None →
  ∃ (key : Row → list string) (agg : AggFrame),
    (∀ r, Some <$> key r = (λ e, cell_str e r) <$> es)
    ∧ _aggregate_scores res (Some c) (if ascending then "min" else "max") es = Ok agg
    ∧ entities agg = es
    ∧ StronglySorted (λ k k', key_leb k k' = true) (map agg_key (agg_rows agg))
    ∧ NoDup (map agg_key (agg_rows agg))
    ∧ (∀ k, k ∈ map agg_key (agg_rows agg) ↔ ∃ r, r ∈ rows res ∧ key r = k)
    ∧ ∀ a, a ∈ agg_rows agg →
        extremum ascending (score a)
          (map (fun r => stat (raw r) c)
               (List.filter (fun r => bool_decide (key r = agg_key a)) (rows res))).
Proof.
  intros Hne _ Hes Hc _. destruct (entity_key_Ok es Hne Hes) as (key & Hkey & Hvals).
  exists key. eexists. split; [exact Hvals|].
  split; [exact (aggregate_scores_eval res c ascending es key Hkey Hc)|].
  cbn [entities agg_rows].
  assert (∀ l : list (list string),
            map agg_key
              (map (fun k =>
                      {| agg_key := k;
                         score := aggregate (if ascending then Z.min else Z.max)
                           (map (fun r => stat (raw r) c)
                                (List.filter (fun r => bool_decide (key r = k))
                                             (rows res))) |}) l) = l) as Hkeys.
  { intros l. rewrite map_map. apply map_id. }
  rewrite Hkeys. split_and!; try done.
  - apply isort_key_leb_sorted.
  - rewrite isort_perm. apply NoDup_unique.
  - intros k. rewrite elem_of_isort, elem_of_unique, list_elem_of_fmap.
    split; intros (r & H1 & H2); exists r; by split.
  - intros a (k & -> & Hk)%list_elem_of_fmap. cbn [agg_key score].
    apply elem_of_isort, elem_of_unique, list_elem_of_fmap in Hk as (r & -> & Hr).
    apply aggregate_extremum. intros Hnil%fmap_nil_inv.
    assert (r ∈ List.filter (fun r0 => bool_decide (key r0 = key r)) (rows res)) as Hin.
    { apply elem_of_filter_bool. split; [done|]. by apply bool_decide_eq_true_2. }
    rewrite Hnil in Hin. by apply not_elem_of_nil in Hin.
Qed.

Lemma filter_bool_Permutation {A : Type} (f : A → bool) (l l' : list A) :
  l ≡ₚ l' → List.filter f l ≡ₚ List.filter f l'.
Proof.
  induction 1 as [|x l l' _ IH|x y l|l1 l2 l3 _ IH1 _ IH2]; simpl.
  - done.
  - destruct (f x); by rewrite IH.
  - destruct (f x), (f y); try done. apply perm_swap.
  - by etrans.
Qed.

Lemma extremum_unique (ascending : bool) (s s' : Z) (vs vs' : list Z) :
  vs ≡ₚ vs' → extremum ascending s vs → extremum ascending s' vs' → s = s'.
Proof.
  intros Hperm [Hs Hle] [Hs' Hle'].
  rewrite Hperm in Hs. rewrite <- Hperm in Hs'.
  specialize (Hle s' Hs'). specialize (Hle' s Hs). destruct ascending; lia.
Qed.

Lemma aggregate_Permutation (ascending : bool) (vs vs' : list Z) :
  vs ≡ₚ vs' →
  aggregate (if ascending then Z.min else Z.max) vs =
  aggregate (if ascending then Z.min else Z.max) vs'.
Proof.
  intros Hperm. destruct vs as [|v vs].
  - apply Permutation_nil_l in Hperm. by subst.
  - eapply (extremum_unique ascending); [exact Hperm| |];
      apply aggregate_extremum; [done|].
    intros ->. by apply Permutation_nil_r in Hperm.
Qed.

Lemma aggregate_scores_perm (res res' : Frame Row) (c : string)
    (ascending : bool) (es : list string) (key : Row → list string) :
  entity_key es = Ok key → c ∈ columns res →
  columns res' = columns res → rows res' ≡ₚ rows res →
  _aggregate_scores res' (Some c) (if ascending then "min" else "max") es =
  _aggregate_scores res (Some c) (if ascending then "min" else "max") es.
Proof.
  intros Hkey Hc Hcols Hperm.
  rewrite (aggregate_scores_eval res c ascending es key Hkey Hc).
  rewrite (aggregate_scores_eval res' c ascending es key Hkey) by by rewrite Hcols.
  assert (isort key_leb (unique (map key (rows res'))) =
          isort key_leb (unique (map key (rows res)))) as ->.
  { apply (StronglySorted_unique_strong (λ k k', key_leb k k' = true)).
    - intros k k' _ _. apply key_leb_antisym.
    - apply isort_key_leb_sorted.
    - apply isort_key_leb_sorted.
    - rewrite !isort_perm. apply NoDup_Permutation; try apply NoDup_unique.
      intros k. rewrite !elem_of_unique. by rewrite Hperm. }
  do 2 f_equal. apply map_ext. intros k. f_equal.
  apply aggregate_Permutation, Permutation_map. by apply filter_bool_Permutation.
Qed.

(** X14. With 'min' or 'max', the aggregations [dotplot] asks for, the
    aggregated table does not depend on the order of the rows: for a
    non-empty list of distinct name columns as grouping columns and a
    statistic column of the table, [_aggregate_scores] returns the same
    table,
    line for line, on every table with the same columns whose rows are
    a permutation of the rows given.  This is a property of the two
    aggregations, not of [_aggregate_scores]: with 'first' the sample
    table and the same table read backwards give different scores. *)
Theorem aggregate_scores_row_order (res res' : Frame Row) (c : string)
    (ascending : bool) (es : list string) :
  es ≠ [] → NoDup es → Forall (λ e, is_Some (row_str e)) es →
  c ∈ columns res → row_str c = None →
  columns res' = columns res → rows res' ≡ₚ rows res →
  (∃ agg : AggFrame,
     _aggregate_scores res (Some c) (if ascending then "min" else "max") es = Ok agg
     ∧ _aggregate_scores res' (Some c) (if ascending then "min" else "max") es = Ok agg)
  ∧ _aggregate_scores (prepared sample_table) (Some "pval") "first"
      ["ligand_complex"] ≠
    _aggregate_scores
      {| columns := ["pval"]; rows := reverse (rows (prepared sample_table)) |}
      (Some "pval") "first" ["ligand_complex"].
Proof.
  intros Hne _ Hes Hc _ Hcols Hperm. split.
  - destruct (entity_key_Ok es Hne Hes) as (key & Hkey & _).
    eexists. split; [exact (aggregate_scores_eval res c ascending es key Hkey Hc)|].
    rewrite (aggregate_scores_perm res res' c ascending es key Hkey Hc Hcols Hperm).
    exact (aggregate_scores_eval res c ascending es key Hkey Hc).
  - intros Heq. vm_compute in Heq. discriminate Heq.
Qed.




Lemma prep_liana_res_target_hidden_witness :
  Forall (λ x, x ∈ map source (rows sample_table)) (requested (Some ["T"]))
  ∧ "T" ∈ ["T"]
  ∧ "T" ∈ map target (rows sample_table)
  ∧ ∃ not_covered,
      _prep_liana_res None (Some sample_table) (Some ["T"]) (Some ["T"])
        (Some "pval") (Some "pval") = Err (LabelsNotFound not_covered "target")
      ∧ "T" ∈ not_covered.
Proof.
  assert (Forall (λ x, x ∈ map source (rows sample_table)) (requested (Some ["T"])))
    as H1.
  { apply (bool_decide_unpack _). by vm_compute. }
  assert ("T" ∈ ["T"]) as H2 by by left.
  assert (∀ r, r ∈ rows sample_table → target r = "T" →
               ¬ allowed (Some ["T"]) (source r)) as H3.
  { intros r Hr Ht Hs. apply list_elem_of_singleton in Hs.
    cbn [sample_table rows] in Hr.
    repeat (apply elem_of_cons in Hr as [->|Hr]); try discriminate.
    by apply elem_of_nil in Hr. }
  split_and!; [exact H1 | exact H2 | by right; left |].
  exact (prep_liana_res_target_hidden sample_table (Some ["T"]) ["T"] "pval" "pval" "T"
           H1 H2 H3).
Defined.

Lemma prep_liana_res_value_errors_witness :
  _prep_liana_res None (Some sample_table) None None None (Some "pval") =
    Err (ValueError "`colour` must be provided!")
  ∧ ((@None string = None ∧ "`colour` must be provided!" = "`colour` must be provided!")
     ∨ (is_Some (@None string) ∧ Some "pval" = None
        ∧ "`colour` must be provided!" = "`size` must be provided!")).
Proof.
  split; [reflexivity|].
  exact (prep_liana_res_value_errors None (Some sample_table) None None None
           (Some "pval") _ eq_refl).
Defined.

Lemma filter_labels_result_values_witness :
  raw_str "source" = Some source
  ∧ _filter_labels sample_table (Some ["T"]) "source" =
      Ok (where_ (fun r => str_in (source r) ["T"]) sample_table)
  ∧ (∀ x, x ∈ map source (rows (where_ (fun r => str_in (source r) ["T"]) sample_table))
          ↔ x ∈ ["T"])
  ∧ _filter_labels (where_ (fun r => str_in (source r) ["T"]) sample_table)
      (Some ["T"]) "source" =
      Ok (where_ (fun r => str_in (source r) ["T"]) sample_table).
Proof.
  split; [reflexivity|]. split; [reflexivity|].
  exact (filter_labels_result_values sample_table ["T"] "source" source _
           eq_refl eq_refl).
Defined.



Lemma dotplot_top_n_bounds_labels_witness :
  0 ≤ 2
  ∧ ranks_by_statistic (Some 2) (Some "pval")
  ∧ match dotplot stable_sort_values None (Some sample_table) (Some "pval") (Some "pval")
            None None (Some 2) (Some "pval") (Some true) None None with
    | Ok f => (length (unique (map interaction (rows f))) ≤ Z.to_nat 2)%nat
    | Err _ => False
    end.
Proof.
  split; [lia|]. split; [reflexivity|].
  destruct (dotplot stable_sort_values None (Some sample_table) (Some "pval")
              (Some "pval") None None (Some 2) (Some "pval") (Some true) None None)
    as [f|e] eqn:Hrun.
  - exact (dotplot_top_n_bounds_labels stable_sort_values None (Some sample_table)
             (Some "pval") (Some "pval") None None 2 (Some "pval") (Some true)
             None None f ltac:(lia) eq_refl Hrun).
  - vm_compute in Hrun. discriminate Hrun.
Defined.

Lemma filter_interactions_twice_witness :
  match filter_interactions (prepared sample_table) "pval" (Some (at_most 1)) with
  | Ok kept =>
      rows kept ≠ [] ∧ filter_interactions kept "pval" (Some (at_most 1)) = Ok kept
  | Err _ => False
  end.
Proof.
  destruct (filter_interactions (prepared sample_table) "pval" (Some (at_most 1)))
    as [kept|e] eqn:Hrun.
  - destruct (filter_interactions_twice (prepared sample_table) kept "pval"
                (Some (at_most 1)) Hrun) as [Hagain _].
    vm_compute in Hrun. injection Hrun as <-. split; [discriminate | exact Hagain].
  - vm_compute in Hrun. discriminate Hrun.
Defined.

Lemma select_top_n_none_and_all_witness :
  sorts stable_sort_values
  ∧ "pval" ∈ columns (prepared sample_table)
  ∧ select_top_n stable_sort_values (prepared sample_table) 0 (Some "pval") (Some true) =
      Ok {| columns := columns (prepared sample_table); rows := [] |}
  ∧ select_top_n stable_sort_values (prepared sample_table) 3 (Some "pval") (Some true) =
      Ok (prepared sample_table).
Proof.
  assert ("pval" ∈ columns (prepared sample_table)) as Hc by by apply str_in_spec.
  destruct (select_top_n_none_and_all stable_sort_values (prepared sample_table)
              "pval" true stable_sort_values_sorts Hc) as [H0 Hall].
  split_and!; [exact stable_sort_values_sorts | exact Hc | exact H0 |].
  apply Hall. vm_compute. discriminate.
Defined.

Lemma select_top_n_negative_witness :
  sorts stable_sort_values
  ∧ "pval" ∈ columns (prepared sample_table)
  ∧ -1 < 0
  ∧ ∃ ranked : list Agg,
      ranked ≡ₚ aggregated (prepared sample_table) "pval" true
      ∧ select_top_n stable_sort_values (prepared sample_table) (-1)
          (Some "pval") (Some true) =
        Ok (where_ (fun r => bool_decide
                      (Some (interaction r) ∈
                         map label_of (take (length ranked - Z.to_nat (- -1)) ranked)))
                   (prepared sample_table)).
Proof.
  assert ("pval" ∈ columns (prepared sample_table)) as Hc by by apply str_in_spec.
  destruct (select_top_n_negative stable_sort_values (prepared sample_table)
              "pval" true (-1) stable_sort_values_sorts Hc ltac:(lia))
    as (ranked & Hperm & _ & Hcode & _).
  split_and!; [exact stable_sort_values_sorts | exact Hc | lia |].
  exists ranked. split; [exact Hperm | exact Hcode].
Defined.

Lemma aggregate_scores_groups_witness :
  ["ligand_complex"] ≠ []
  ∧ NoDup ["ligand_complex"]
  ∧ Forall (λ e, is_Some (row_str e)) ["ligand_complex"]
  ∧ "pval" ∈ columns (prepared sample_table)
  ∧ row_str "pval" = None
  ∧ ∃ (key : Row → list string) (agg : AggFrame),
      (∀ r, Some <$> key r = (λ e, cell_str e r) <$> ["ligand_complex"])
      ∧ _aggregate_scores (prepared sample_table) (Some "pval") "min"
          ["ligand_complex"] = Ok agg
      ∧ map (fun a => (agg_key a, score a)) (agg_rows agg) =
          [(["CD40LG"], 1); (["IL2"], 5); (["TGFB1"], 2)]
      ∧ StronglySorted (λ k k', key_leb k k' = true) (map agg_key (agg_rows agg))
      ∧ NoDup (map agg_key (agg_rows agg)).
Proof.
  assert (["ligand_complex"] ≠ []) as Hne by discriminate.
  assert (Forall (λ e, is_Some (row_str e)) ["ligand_complex"]) as Hes.
  { repeat constructor. by eexists. }
  assert ("pval" ∈ columns (prepared sample_table)) as Hc by by apply str_in_spec.
  assert (NoDup ["ligand_complex"]) as Hnd' by apply NoDup_singleton.
  split_and!; [exact Hne | exact Hnd' | exact Hes | exact Hc | reflexivity |].
  destruct (aggregate_scores_groups (prepared sample_table) "pval" true
              ["ligand_complex"] Hne Hnd' Hes Hc eq_refl)
    as (key & agg & Hvals & Hrun & _ & Hsorted & Hnd & _).
  exists key, agg. split_and!; [exact Hvals | exact Hrun | | exact Hsorted | exact Hnd].
  vm_compute in Hrun. injection Hrun as <-. reflexivity.
Defined.

Lemma aggregate_scores_row_order_witness :
  ["interaction"; "ligand_complex"; "receptor_complex"] ≠ []
  ∧ NoDup ["interaction"; "ligand_complex"; "receptor_complex"]
  ∧ Forall (λ e, is_Some (row_str e))
           ["interaction"; "ligand_complex"; "receptor_complex"]
  ∧ "pval" ∈ columns (prepared sample_table)
  ∧ row_str "pval" = None
  ∧ rows {| columns := ["pval"]; rows := reverse (rows (prepared sample_table)) |} ≡ₚ
      rows (prepared sample_table)
  ∧ ∃ agg : AggFrame,
      _aggregate_scores (prepared sample_table) (Some "pval") "max"
        ["interaction"; "ligand_complex"; "receptor_complex"] = Ok agg
      ∧ _aggregate_scores
          {| columns := ["pval"]; rows := reverse (rows (prepared sample_table)) |}
          (Some "pval") "max" ["interaction"; "ligand_complex"; "receptor_complex"] =
        Ok agg.
Proof.
  assert (["interaction"; "ligand_complex"; "receptor_complex"] ≠ []) as Hne
    by discriminate.
  assert (Forall (λ e, is_Some (row_str e))
            ["interaction"; "ligand_complex"; "receptor_complex"]) as Hes.
  { repeat constructor; by eexists. }
  assert ("pval" ∈ columns (prepared sample_table)) as Hc by by apply str_in_spec.
  assert (rows {| columns := ["pval"];
                  rows := reverse (rows (prepared sample_table)) |} ≡ₚ
            rows (prepared sample_table)) as Hperm.
  { cbn [rows]. apply reverse_Permutation. }
  assert (NoDup ["interaction"; "ligand_complex"; "receptor_complex"]) as Hnd.
  { apply (bool_decide_unpack _). by vm_compute. }
  split_and!; [exact Hne | exact Hnd | exact Hes | exact Hc | reflexivity
              | exact Hperm |].
  exact (proj1 (aggregate_scores_row_order (prepared sample_table)
                  {| columns := ["pval"];
                     rows := reverse (rows (prepared sample_table)) |}
                  "pval" false ["interaction"; "ligand_complex"; "receptor_complex"]
                  Hne Hnd Hes Hc eq_refl eq_refl Hperm)).
Defined.

End DotplotTableFacts.

(** ** More on [_Method.py]: what [by_sample] and [__call__] leave
       behind *)
Module OrchestrationFacts.
Import Method MethodFacts.

Section Frame.

Context {ScoreFun Expr R : Type}.
Variable liana_pipe : @PipeArgs ScoreFun Expr R → result (DataFrame R).

Abbreviation MethodT := (@MethodT ScoreFun).
Abbreviation AnnData := (@AnnData Expr R).
Abbreviation world := (@world Expr R).
Abbreviation M := (@M Expr R).

(** Whatever its outcome, the loop leaves the object as it was but for
    the dictionary under ['liana_res']. *)
Lemma for_each_run_sample_state (self : MethodT) (sample_key : string) (kw : CallArgs)
    (verbose full_verbose : bool) (a1 : AnnData) (col : Series) :
  obs a1 !! sample_key = Some col →
  ∀ (samples : list string) (d : list (string * DataFrame R)) (con : list event),
    ∃ d' evs,
      snd (for_each (run_sample liana_pipe self sample_key kw verbose full_verbose)
             samples
             {| w_adata := set_uns "liana_res" (UnsDict d) a1; w_console := con |}) =
      {| w_adata := set_uns "liana_res" (UnsDict d') a1; w_console := con ++ evs |}.
Proof.
  intros Hobs samples. induction samples as [|s samples IH]; intros d con.
  - exists d, []. by rewrite app_nil_r.
  - cbn [for_each]. unfold bind at 1.
    rewrite (run_sample_eval liana_pipe self sample_key kw verbose full_verbose
               a1 col s d con Hobs).
    destruct (direct_run _ _ _ _ _) as [[t|]|e].
    + destruct (IH (dict_set s t d) (con ++ progress_if verbose [s]))
        as (d' & evs & ->).
      exists d', (progress_if verbose [s] ++ evs). by rewrite app_assoc.
    + by exists d, (progress_if verbose [s]).
    + by exists d, (progress_if verbose [s]).
Qed.

Lemma obs_coerced (sample_key : string) (col : Series) (a : AnnData) :
  obs a !! sample_key = Some col →
  obs (coerced sample_key col a) !! sample_key = Some (astype_category col)
  ∧ (∀ k, k ≠ sample_key → obs (coerced sample_key col a) !! k = obs a !! k)
  ∧ X (coerced sample_key col a) = X a
  ∧ uns (coerced sample_key col a) = uns a.
Proof.
  intros Hobs. unfold coerced. destruct col as [cs vs|vs]; simpl.
  - done.
  - split_and!; try done.
    + apply lookup_insert_eq.
    + intros k Hk. by apply lookup_insert_ne.
Qed.

(** X16. What [by_sample] may change.  Whatever its arguments and its
    outcome (a result or an exception), the expression data and every
    column of [adata.obs] other than [sample_key] are as before, the
    column [sample_key] is its former self made categorical, and every
    entry of [adata.uns] other than ['liana_res'] is as before.  When
    [sample_key] is no column of [adata.obs], the call raises
    [ValueError] naming it and changes nothing at all. *)
Theorem by_sample_touches_only_its_keys (self : MethodT) (sample_key : string)
    (inplace : bool) (verbose : verbosity) (kw : CallArgs) (w : world) :
  let run := by_sample liana_pipe self sample_key inplace verbose kw w in
  X (w_adata (snd run)) = X (w_adata w)
  ∧ (∀ k, k ≠ sample_key → obs (w_adata (snd run)) !! k = obs (w_adata w) !! k)
  ∧ obs (w_adata (snd run)) !! sample_key =
      astype_category <$> obs (w_adata w) !! sample_key
  ∧ (∀ k, k ≠ "liana_res" → uns (w_adata (snd run)) !! k = uns (w_adata w) !! k)
  ∧ (obs (w_adata w) !! sample_key = None →
     run = (Err (ValueError (sample_key +:+ " was not found in `adata.obs`.")), w)).
Proof.
  destruct w as [a con]. cbv zeta. cbn [w_adata].
  destruct (obs a !! sample_key) as [col|] eqn:Hobs.
  2:{ assert (by_sample liana_pipe self sample_key inplace verbose kw
                {| w_adata := a; w_console := con |} =
              (Err (ValueError (sample_key +:+ " was not found in `adata.obs`.")),
               {| w_adata := a; w_console := con |})) as ->.
      { unfold by_sample, bind, get_adata. cbn [w_adata]. by rewrite Hobs. }
      cbn [snd w_adata]. by rewrite Hobs. }
  destruct (obs_coerced sample_key col a Hobs) as (Hc1 & Hc2 & Hc3 & Hc4).
  rewrite (by_sample_eval liana_pipe self sample_key inplace verbose kw a con col Hobs).
  destruct (for_each_run_sample_state self sample_key kw (reports_progress verbose)
              (full_verbose_of verbose) (coerced sample_key col a) (astype_category col)
              Hc1 (cat_categories (astype_category col)) [] con) as (d' & evs & Hst).
  destruct (for_each _ _ _) as [[[]|e] w1]; cbn [snd] in Hst; subst w1;
    cbn [w_adata set_uns uns obs X].
  - rewrite lookup_insert_eq. destruct (concat_dict d') as [cat|e].
    + destruct inplace; cbn [snd w_adata set_uns uns obs X fmap option_fmap option_map];
        rewrite Hc1, Hc3, Hc4; split_and!; try done.
      * intros k Hk. rewrite !lookup_insert_ne by done. done.
      * intros k Hk. by rewrite lookup_insert_ne.
    + cbn [snd w_adata set_uns uns obs X fmap option_fmap option_map].
      rewrite Hc1, Hc3, Hc4; split_and!; try done.
      intros k Hk. by rewrite lookup_insert_ne.
  - cbn [snd w_adata set_uns uns obs X fmap option_fmap option_map].
    rewrite Hc1, Hc3, Hc4; split_and!; try done.
    intros k Hk. by rewrite lookup_insert_ne.
Qed.

(** X17. A sample column without a level (no cell, or only missing
    values): [by_sample] runs the method on nothing, fails with the
    [ValueError] of [pandas.concat], 'No objects to concatenate', and
    leaves an empty dictionary under ['liana_res'] in place of what was
    there. *)
Theorem by_sample_without_samples (self : MethodT) (sample_key : string)
    (inplace : bool) (verbose : verbosity) (kw : CallArgs) (a : AnnData)
    (con : list event) (col : Series) :
  obs a !! sample_key = Some col →
  cat_categories (astype_category col) = [] →
  by_sample liana_pipe self sample_key inplace verbose kw
    {| w_adata := a; w_console := con |} =
  (Err (ValueError "No objects to concatenate"),
   {| w_adata := set_uns "liana_res" (UnsDict []) (coerced sample_key col a);
      w_console := con |}).
Proof.
  intros Hobs Hcats.
  rewrite (by_sample_eval liana_pipe self sample_key inplace verbose kw a con col Hobs).
  rewrite Hcats. cbn [for_each ret w_adata set_uns uns].
  by rewrite lookup_insert_eq.
Qed.

(** X18. A call of [by_sample] that returns has written to the
    console exactly one progress description per category level, in the
    order of the levels, when [verbose] is [True] or ['full'], and
    nothing when it is [False]. *)
Theorem by_sample_reports_each_sample (self : MethodT) (sample_key : string)
    (inplace : bool) (verbose : verbosity) (kw : CallArgs) (a : AnnData)
    (con : list event) (col : Series)
    (r : option (DataFrame (string * R))) (w' : world) :
  obs a !! sample_key = Some col →
  wf_series col →
  by_sample liana_pipe self sample_key inplace verbose kw
    {| w_adata := a; w_console := con |} = (Ok r, w') →
  w_console w' =
    con ++ progress_if (reports_progress verbose) (cat_categories (astype_category col)).
Proof.
  intros Hobs Hwf.
  destruct (obs_coerced sample_key col a Hobs) as (Hc1 & _).
  rewrite (by_sample_eval liana_pipe self sample_key inplace verbose kw a con col Hobs).
  destruct (for_each _ _ _) as [[[]|e] w1] eqn:Hloop; [|done].
  apply (for_each_run_sample_inv liana_pipe self sample_key kw _ _ _ _ Hc1)
    in Hloop as (tables & _ & ->); [|by apply NoDup_categories].
  cbn [w_adata set_uns uns w_console]. rewrite lookup_insert_eq.
  destruct (concat_dict _); [|done].
  destruct inplace; by intros [= <- <-].
Qed.

End Frame.


Section Samples.

Context {ScoreFun Expr R : Type}.
Variable liana_pipe : @PipeArgs ScoreFun Expr R → result (DataFrame R).

Abbreviation MethodT := (@MethodT ScoreFun).
Abbreviation AnnData := (@AnnData Expr R).
Abbreviation world := (@world Expr R).
Abbreviation M := (@M Expr R).

Lemma direct_run_with_uns (self : MethodT) (kw : CallArgs) (verbose : bool)
    (a : AnnData) (mask : list bool) (u : gmap string UnsVal) :
  ignores_uns liana_pipe →
  direct_run liana_pipe self kw verbose (subset_copy (with_uns u a) mask) =
  direct_run liana_pipe self kw verbose (subset_copy a mask).
Proof.
  intros Hign. unfold direct_run. rewrite !Method_call_not_inplace. cbn [fst w_adata].
  pose proof (Hign self (subset_copy a mask) kw verbose u) as H.
  change (with_uns u (subset_copy a mask)) with (subset_copy (with_uns u a) mask) in H.
  by rewrite H.
Qed.

(** The loop up to a sample whose run fails. *)
Lemma for_each_run_sample_fails (self : MethodT) (sample_key : string) (kw : CallArgs)
    (verbose full_verbose : bool) (a1 : AnnData) (col : Series)
    (s : string) (post : list string) (e : exn) :
  ignores_uns liana_pipe →
  obs a1 !! sample_key = Some col →
  direct_run liana_pipe self kw full_verbose (subset_copy a1 (series_eq col s)) = Err e →
  ∀ (pre : list string) (tables : list (DataFrame R))
    (d : list (string * DataFrame R)) (con : list event),
    Forall2 (λ s t, direct_run liana_pipe self kw full_verbose
                      (subset_copy a1 (series_eq col s)) = Ok (Some t))
            pre tables →
    NoDup (map fst d ++ pre) →
    for_each (run_sample liana_pipe self sample_key kw verbose full_verbose)
      (pre ++ s :: post)
      {| w_adata := set_uns "liana_res" (UnsDict d) a1; w_console := con |} =
    (Err e,
     {| w_adata := set_uns "liana_res" (UnsDict (d ++ zip pre tables)) a1;
        w_console := con ++ progress_if verbose (pre ++ [s]) |}).
Proof.
  intros Hign Hobs Hfail pre tables d con Hruns. revert d con.
  induction Hruns as [|s0 t pre tables Hrun Hruns IH]; intros d con Hnd.
  - cbn [app for_each]. unfold bind at 1.
    rewrite (run_sample_eval liana_pipe self sample_key kw verbose full_verbose
               a1 col s d con Hobs).
    rewrite (direct_run_with_uns self kw full_verbose a1 _ _ Hign), Hfail.
    cbn [zip zip_with]. by rewrite app_nil_r.
  - cbn [app for_each]. unfold bind at 1.
    rewrite (run_sample_eval liana_pipe self sample_key kw verbose full_verbose
               a1 col s0 d con Hobs).
    rewrite (direct_run_with_uns self kw full_verbose a1 _ _ Hign), Hrun.
    assert (s0 ∉ map fst d) as Hfresh.
    { apply NoDup_app in Hnd as (_ & Hdisj & _). intros Hin.
      apply (Hdisj s0 Hin). by left. }
    rewrite (dict_set_fresh s0 t d Hfresh). rewrite IH.
    + cbn [zip zip_with]. rewrite <- !app_assoc. cbn [app].
      unfold progress_if. by destruct verbose.
    + rewrite map_app. cbn [map fst]. rewrite <- app_assoc. done.
Qed.

(** X19. When the run on a sample fails, [by_sample] fails with the
    exception of that run, whatever [inplace]; the samples after it are
    not run, and ['liana_res'] in [adata.uns] is left holding the
    dictionary of the tables of the samples before it, in place of what
    was stored there.  A progress description was written for the
    samples up to and including the failing one.  ([liana_pipe] is
    assumed not to read [adata.uns].) *)
Theorem by_sample_failure_leaves_partial_dict (self : MethodT) (sample_key : string)
    (inplace : bool) (verbose : verbosity) (kw : CallArgs) (a : AnnData)
    (con : list event) (cats : list string) (vals : list (option string))
    (pre post : list string) (s : string) (tables : list (DataFrame R)) (e : exn) :
  ignores_uns liana_pipe →
  obs a !! sample_key = Some (Categorical cats vals) →
  NoDup cats →
  cats = pre ++ s :: post →
  Forall2 (λ s t, direct_run liana_pipe self kw (full_verbose_of verbose)
                    (subset_copy a (series_eq (Categorical cats vals) s)) = Ok (Some t))
          pre tables →
  direct_run liana_pipe self kw (full_verbose_of verbose)
    (subset_copy a (series_eq (Categorical cats vals) s)) = Err e →
  by_sample liana_pipe self sample_key inplace verbose kw
    {| w_adata := a; w_console := con |} =
  (Err e,
   {| w_adata := set_uns "liana_res" (UnsDict (zip pre tables)) a;
      w_console := con ++ progress_if (reports_progress verbose) (pre ++ [s]) |}).
Proof.
  intros Hign Hobs Hnd Hcats Hruns Hfail.
  rewrite (by_sample_eval liana_pipe self sample_key inplace verbose kw a con _ Hobs).
  cbn [astype_category cat_categories].
  change (coerced sample_key (Categorical cats vals) a) with a.
  rewrite Hcats.
  rewrite (for_each_run_sample_fails self sample_key kw _ _ a _ s post e Hign Hobs Hfail
             pre tables [] con Hruns).
  - done.
  - cbn [map app]. rewrite Hcats in Hnd. by apply NoDup_app in Hnd as (Hpre & _).
Qed.

(** *** Which cells a sample run sees *)

Lemma flat_map_insert_one {A : Type} (x : A) (y : string) (h : string → list A)
    (cats : list string) :
  NoDup cats → y ∈ cats →
  flat_map (fun s => if String.eqb y s then x :: h s else h s) cats ≡ₚ
  x :: flat_map h cats.
Proof.
  induction 1 as [|c cats Hc Hnd IH]; intros Hy; [by apply elem_of_nil in Hy|].
  cbn [flat_map]. destruct (String.eqb y c) eqn:E.
  - apply String.eqb_eq in E. subst c. cbn [app]. constructor.
    apply Permutation_app_head.
    assert (∀ l, y ∉ l →
              flat_map (fun s => if String.eqb y s then x :: h s else h s) l =
              flat_map h l) as Hsame.
    { intros l. induction l as [|c l IHl]; intros Hl; [done|]. cbn [flat_map].
      apply not_elem_of_cons in Hl as [Hne Hl]. rewrite IHl by done.
      destruct (String.eqb y c) eqn:E; [|done]. by apply String.eqb_eq in E. }
    by rewrite Hsame.
  - apply elem_of_cons in Hy as [->|Hy]; [by rewrite String.eqb_refl in E|].
    rewrite IH by done. by rewrite Permutation_middle.
Qed.

Lemma select_series_eq {A : Type} (cats : list string) (v : option string)
    (vals : list (option string)) (x : A) (xs : list A) (s : string) :
  select (series_eq (Categorical cats (v :: vals)) s) (x :: xs) =
    if match v with Some y => String.eqb y s | None => false end
    then x :: select (series_eq (Categorical cats vals) s) xs
    else select (series_eq (Categorical cats vals) s) xs.
Proof. reflexivity. Qed.

Lemma select_series_eq_nil {A : Type} (cats : list string)
    (vals : list (option string)) (s : string) :
  select (series_eq (Categorical cats vals) s) (@nil A) = [].
Proof. unfold series_eq. simpl. by destruct vals. Qed.

Lemma flat_map_nil {A B : Type} (l : list A) : flat_map (fun _ => @nil B) l = [].
Proof. by induction l. Qed.

Lemma cells_partition {A : Type} (cats : list string) (vals : list (option string))
    (xs : list A) :
  NoDup cats →
  Forall (λ v, match v with Some y => y ∈ cats | None => True end) vals →
  flat_map (fun s => select (series_eq (Categorical cats vals) s) xs) cats ≡ₚ
  select (map labelled_cell vals) xs.
Proof.
  intros Hnd Hvals. revert xs.
  induction Hvals as [|v vals Hv Hvals IH]; intros xs.
  - cbn. apply Permutation_refl'. clear Hnd. by induction cats.
  - destruct xs as [|x xs].
    + cbn [map select]. erewrite flat_map_ext; [apply Permutation_refl', flat_map_nil|].
      intros s. apply select_series_eq_nil.
    + erewrite flat_map_ext; [|intros s; apply select_series_eq].
      cbn [map select labelled_cell]. destruct v as [y|].
      * rewrite (flat_map_insert_one x y _ cats Hnd Hv). by constructor.
      * apply IH.
Qed.

(** X20. The subsets [adata[adata.obs[sample_key] == sample]] that the
    loop of [by_sample] makes, taken over all category levels, hold
    every cell with a value in the sample column exactly once, and no
    cell whose value is missing. *)
Theorem sample_subsets_partition_cells (a : AnnData) (cats : list string)
    (vals : list (option string)) :
  NoDup cats →
  Forall (λ v, match v with Some y => y ∈ cats | None => True end) vals →
  flat_map (fun s => X (subset_copy a (series_eq (Categorical cats vals) s))) cats ≡ₚ
  select (map labelled_cell vals) (X a).
Proof. intros Hnd Hvals. cbn [subset_copy X]. by apply cells_partition. Qed.

(** X23. [Method.__call__] with [inplace=True] returns [None] and
    leaves under ['liana_res'] exactly the table the call with
    [inplace=False] returns; on the object so annotated both calls give
    the same table again, the in-place one without changing the object
    any further.  ([liana_pipe] is assumed not to read [adata.uns].) *)
Theorem Method_call_inplace_idempotent (self : MethodT) (kw : CallArgs)
    (verbose : bool) (w w' : world) (r : option (DataFrame R)) :
  ignores_uns liana_pipe →
  Method_call liana_pipe self kw verbose true w = (Ok r, w') →
  r = None
  ∧ (∃ t, Method_call liana_pipe self kw verbose false w = (Ok (Some t), w)
          ∧ uns (w_adata w') !! "liana_res" = Some (UnsFrame t)
          ∧ Method_call liana_pipe self kw verbose false w' = (Ok (Some t), w'))
  ∧ Method_call liana_pipe self kw verbose true w' = (Ok None, w').
Proof.
  intros Hign. rewrite Method_call_not_inplace.
  destruct w as [a con]. unfold Method_call at 1, bind, get_adata, lift_result.
  cbn [w_adata w_console].
  destruct (liana_pipe (pipe_args self a kw verbose)) as [t|e] eqn:Hpipe; [|done].
  unfold modify_adata, ret. cbn [w_adata w_console]. intros [= <- <-].
  assert (liana_pipe (pipe_args self (set_uns "liana_res" (UnsFrame t) a) kw verbose)
          = Ok t) as Hpipe'.
  { rewrite <- Hpipe. apply (Hign self a kw verbose). }
  split; [done|]. split.
  - exists t. split; [done|]. split; [apply lookup_insert_eq|].
    rewrite Method_call_not_inplace. cbn [w_adata]. by rewrite Hpipe'.
  - unfold Method_call, bind, get_adata, lift_result. cbn [w_adata w_console].
    rewrite Hpipe'. unfold modify_adata, ret. cbn [w_adata w_console].
    by rewrite set_uns_twice.
Qed.

Lemma astype_category_idemp (col : Series) :
  astype_category (astype_category col) = astype_category col.
Proof. by destruct col. Qed.

(** X21. The coercion of the sample column is transparent: [by_sample]
    on an object behaves as on the same object with the column
    converted by [astype('category')] beforehand; result, final object
    and console are the same. *)
Theorem by_sample_coercion_is_transparent (self : MethodT) (sample_key : string)
    (inplace : bool) (verbose : verbosity) (kw : CallArgs) (a : AnnData)
    (con : list event) (col : Series) :
  obs a !! sample_key = Some col →
  by_sample liana_pipe self sample_key inplace verbose kw
    {| w_adata := a; w_console := con |} =
  by_sample liana_pipe self sample_key inplace verbose kw
    {| w_adata := set_obs sample_key (astype_category col) a; w_console := con |}.
Proof.
  intros Hobs.
  rewrite (by_sample_eval liana_pipe self sample_key inplace verbose kw a con col Hobs).
  rewrite (by_sample_eval liana_pipe self sample_key inplace verbose kw
             (set_obs sample_key (astype_category col) a) con (astype_category col))
    by apply lookup_insert_eq.
  rewrite astype_category_idemp.
  assert (coerced sample_key (astype_category col)
            (set_obs sample_key (astype_category col) a) =
          set_obs sample_key (astype_category col) a) as ->.
  { unfold coerced. by destruct col. }
  assert (set_uns "liana_res" (UnsDict []) (coerced sample_key col a) =
          set_uns "liana_res" (UnsDict [])
            (set_obs sample_key (astype_category col) a)) as ->; [|done].
  unfold coerced. destruct col as [cs vs|vs]; [|done]. cbn [is_category astype_category].
  unfold set_uns, set_obs. cbn [obs X uns]. f_equal.
  symmetry. by apply insert_id.
Qed.

End Samples.


Section Rerun.

Context {ScoreFun Expr R : Type}.
Variable liana_pipe : @PipeArgs ScoreFun Expr R → result (DataFrame R).

Abbreviation MethodT := (@MethodT ScoreFun).
Abbreviation AnnData := (@AnnData Expr R).
Abbreviation world := (@world Expr R).
Abbreviation M := (@M Expr R).

(** X22. [by_sample] can be run again on the object it has annotated:
    a second call with the same arguments on the object a first call
    left returns the same result and leaves the same object, the
    dictionary or table it finds under ['liana_res'] not being read.
    ([liana_pipe] is assumed not to read [adata.uns].) *)
Theorem by_sample_rerun (self : MethodT) (sample_key : string)
    (inplace : bool) (verbose : verbosity) (kw : CallArgs) (a : AnnData)
    (con con' : list event) (col : Series)
    (r : option (DataFrame (string * R))) (w' : world) :
  ignores_uns liana_pipe →
  obs a !! sample_key = Some col →
  wf_series col →
  by_sample liana_pipe self sample_key inplace verbose kw
    {| w_adata := a; w_console := con |} = (Ok r, w') →
  by_sample liana_pipe self sample_key inplace verbose kw
    {| w_adata := w_adata w'; w_console := con' |} =
  (Ok r,
   {| w_adata := w_adata w';
      w_console := con' ++ progress_if (reports_progress verbose)
                             (cat_categories (astype_category col)) |}).
Proof.
  intros Hign Hobs Hwf.
  destruct (obs_coerced sample_key col a Hobs) as (Hc1 & _).
  set (a1 := coerced sample_key col a) in *.
  set (col1 := astype_category col) in *.
  set (cats := cat_categories col1).
  assert (NoDup cats) as Hnd by by apply NoDup_categories.
  rewrite (by_sample_eval liana_pipe self sample_key inplace verbose kw a con col Hobs).
  fold a1 col1 cats.
  destruct (for_each _ _ _) as [[[]|e] w1] eqn:Hloop; [|done].
  apply (for_each_run_sample_inv liana_pipe self sample_key kw _ _ _ _ Hc1)
    in Hloop as (tables & Hruns & ->); [|done].
  cbn [w_adata set_uns uns w_console app]. rewrite lookup_insert_eq.
  destruct (concat_dict (zip cats tables)) as [cat|e] eqn:Hcat; [|done].
  (* the object of the second run *)
  assert (∀ u : gmap string UnsVal,
            Forall2 (λ s t, direct_run liana_pipe self kw (full_verbose_of verbose)
                              (subset_copy (with_uns u a1) (series_eq col1 s)) =
                            Ok (Some t)) cats tables) as Hruns2.
  { intros u. eapply Forall2_impl; [exact Hruns|]. intros s t Hs. cbv beta in Hs.
    apply (sample_run_direct liana_pipe) in Hs; [|done].
    by rewrite (direct_run_with_uns liana_pipe). }
  assert (∀ u : gmap string UnsVal,
            by_sample liana_pipe self sample_key inplace verbose kw
              {| w_adata := with_uns u a1; w_console := con' |} =
            (if inplace then Ok None else Ok (Some (combined (zip cats tables))),
             {| w_adata :=
                  with_uns
                    (if inplace
                     then <["liana_res" :=
                              UnsBySample sample_key (combined (zip cats tables))]>
                            (<["liana_res" := UnsDict (zip cats tables)]> u)
                     else <["liana_res" := UnsDict (zip cats tables)]> u) a1;
                w_console := con' ++ progress_if (reports_progress verbose) cats |}))
    as Hsecond.
  { intros u.
    assert (obs (with_uns u a1) !! sample_key = Some col1) as Hobs2 by done.
    rewrite (by_sample_eval liana_pipe self sample_key inplace verbose kw _ con' col1
               Hobs2).
    unfold col1 at 1 2. rewrite astype_category_idemp. fold col1 cats.
    assert (coerced sample_key col1 (with_uns u a1) = with_uns u a1) as ->.
    { unfold coerced, col1. by destruct col. }
    rewrite (for_each_run_sample liana_pipe self sample_key kw _ _ (with_uns u a1) col1
               Hign Hobs2 cats tables [] con' (Hruns2 u) Hnd).
    cbn [w_adata set_uns uns w_console app with_uns obs X].
    rewrite lookup_insert_eq, Hcat. unfold with_uns.
    destruct inplace; reflexivity. }
  destruct inplace; intros [= <- <-]; cbn [w_adata].
  - change (set_uns "liana_res" (UnsBySample sample_key (combined (zip cats tables)))
              (set_uns "liana_res" (UnsDict (zip cats tables)) a1))
      with (with_uns
              (<["liana_res" := UnsBySample sample_key (combined (zip cats tables))]>
                 (<["liana_res" := UnsDict (zip cats tables)]> (uns a1))) a1).
    rewrite Hsecond. unfold with_uns. by rewrite !insert_insert_eq.
  - change (set_uns "liana_res" (UnsDict (zip cats tables)) a1)
      with (with_uns (<["liana_res" := UnsDict (zip cats tables)]> (uns a1)) a1).
    rewrite Hsecond. unfold with_uns. by rewrite !insert_insert_eq.
Qed.

End Rerun.

(** *** Toy instances *)

Lemma strict_pipe_ignores_uns : ignores_uns strict_pipe.
Proof. intros self a kw verbose u. reflexivity. Qed.

(** *** Registry *)

Section Instances.

Context {ScoreFun : Type}.
Abbreviation MethodMeta := (@MethodMeta ScoreFun).

Lemma show_methods_snoc (ms : list MethodMeta) (m : MethodMeta) :
  _show_methods (ms ++ [m]) =
    Ok {| mf_columns := meta_columns;
          mf_index := map (λ _, 0) (ms ++ [m]);
          mf_data := map meta_row (ms ++ [m]) |}.
Proof.
  destruct (ms ++ [m]) as [|m0 ms0] eqn:E; [by destruct ms|].
  unfold _show_methods, concat. cbn [map].
  change (get_meta m0 :: map get_meta ms0) with (map get_meta (m0 :: ms0)).
  rewrite all_columns_get_meta, index_get_meta, data_get_meta. reflexivity.
Qed.

(** X24. [Method(_SCORE)] registers exactly one object, at the end of
    the shared list [instances]; that object carries the metadata of
    [_SCORE], so its [get_meta] row is the row of [_SCORE], and the
    registry table of the list gains that row as its last line.  (The
    list holds weak references; this is for objects still alive.) *)
Theorem Method_init_registers_once (instances : list MethodMeta) (score : MethodMeta) :
  let method := fst (Method_init instances score) in
  let instances' := snd (Method_init instances score) in
  instances' = instances ++ [meta method]
  ∧ _SCORE method = score
  ∧ get_meta (meta method) = get_meta score
  ∧ _show_methods instances' =
      Ok {| mf_columns := meta_columns;
            mf_index := map (λ _, 0) instances ++ [0];
            mf_data := map meta_row instances ++ [meta_row score] |}.
Proof.
  cbv zeta. unfold Method_init, MethodMeta_init. cbn [fst snd meta _SCORE].
  split_and!; try done.
  rewrite show_methods_snoc. by rewrite !map_app.
Qed.

(** X25. [self.reference()] never prints the reference.  [__init__]
    stores the reference string in the instance attribute [reference],
    which hides the method of the same name, so the call is a call of a
    string and raises [TypeError]; [self.describe()], whose name no
    attribute hides, prints its line. *)
Theorem reference_is_shadowed (self : MethodMeta) :
  call_printer self Reference = Err (TypeError "'str' object is not callable")
  ∧ call_printer self Describe = Ok [describe_line self].
Proof. split; reflexivity. Qed.

End Instances.


Lemma NoDup_toy_samples : NoDup ["s1"; "s2"].
Proof.
  apply NoDup_cons. split; [|apply NoDup_singleton].
  intros H%list_elem_of_singleton. discriminate H.
Qed.

Lemma by_sample_without_samples_witness :
  obs toy_adata_unlabelled !! "sample" = Some (Object [None; None; None])
  ∧ cat_categories (astype_category (Object [None; None; None])) = []
  ∧ by_sample toy_pipe toy_method "sample" true VTrue toy_kwargs
      {| w_adata := toy_adata_unlabelled; w_console := [] |} =
    (Err (ValueError "No objects to concatenate"),
     {| w_adata := set_uns "liana_res" (UnsDict [])
                     (coerced "sample" (Object [None; None; None]) toy_adata_unlabelled);
        w_console := [] |}).
Proof.
  split_and!; [reflexivity | reflexivity |].
  exact (by_sample_without_samples toy_pipe toy_method "sample" true VTrue toy_kwargs
           toy_adata_unlabelled [] (Object [None; None; None]) eq_refl eq_refl).
Defined.

Lemma by_sample_reports_each_sample_witness :
  obs toy_adata !! "sample" =
    Some (Categorical ["s1"; "s2"] [Some "s1"; Some "s2"; Some "s1"])
  ∧ wf_series (Categorical ["s1"; "s2"] [Some "s1"; Some "s2"; Some "s1"])
  ∧ match by_sample toy_pipe toy_method "sample" true VTrue toy_kwargs
            {| w_adata := toy_adata; w_console := [] |} with
    | (Ok _, w') =>
        w_console w' = [Progress "Now running: s1"; Progress "Now running: s2"]
    | (Err _, _) => False
    end.
Proof.
  split_and!; [reflexivity | exact NoDup_toy_samples |].
  destruct (by_sample toy_pipe toy_method "sample" true VTrue toy_kwargs
              {| w_adata := toy_adata; w_console := [] |}) as [[r|e] w'] eqn:Hrun.
  - exact (by_sample_reports_each_sample toy_pipe toy_method "sample" true VTrue
             toy_kwargs toy_adata []
             (Categorical ["s1"; "s2"] [Some "s1"; Some "s2"; Some "s1"]) r w'
             eq_refl NoDup_toy_samples Hrun).
  - vm_compute in Hrun. discriminate Hrun.
Defined.

Lemma by_sample_failure_leaves_partial_dict_witness :
  ignores_uns strict_pipe
  ∧ obs toy_adata !! "sample" =
      Some (Categorical ["s1"; "s2"] [Some "s1"; Some "s2"; Some "s1"])
  ∧ NoDup ["s1"; "s2"]
  ∧ direct_run strict_pipe toy_method two_cells_kwargs false
      (subset_copy toy_adata
         (series_eq (Categorical ["s1"; "s2"] [Some "s1"; Some "s2"; Some "s1"]) "s1")) =
    Ok (Some [(0, 10); (1, 30)])
  ∧ direct_run strict_pipe toy_method two_cells_kwargs false
      (subset_copy toy_adata
         (series_eq (Categorical ["s1"; "s2"] [Some "s1"; Some "s2"; Some "s1"]) "s2")) =
    Err (ValueError "too few cells")
  ∧ by_sample strict_pipe toy_method "sample" true VTrue two_cells_kwargs
      {| w_adata := toy_adata; w_console := [] |} =
    (Err (ValueError "too few cells"),
     {| w_adata := set_uns "liana_res" (UnsDict [("s1", [(0, 10); (1, 30)])]) toy_adata;
        w_console := [Progress "Now running: s1"; Progress "Now running: s2"] |}).
Proof.
  split_and!; [exact strict_pipe_ignores_uns | reflexivity | exact NoDup_toy_samples
              | reflexivity | reflexivity |].
  exact (by_sample_failure_leaves_partial_dict strict_pipe toy_method "sample" true
           VTrue two_cells_kwargs toy_adata [] ["s1"; "s2"]
           [Some "s1"; Some "s2"; Some "s1"] ["s1"] [] "s2" [[(0, 10); (1, 30)]]
           (ValueError "too few cells")
           strict_pipe_ignores_uns eq_refl NoDup_toy_samples eq_refl
           ltac:(repeat constructor) eq_refl).
Defined.

Lemma sample_subsets_partition_cells_witness :
  NoDup ["s1"; "s2"]
  ∧ Forall (λ v, match v with Some y => y ∈ ["s1"; "s2"] | None => True end)
           [Some "s1"; None; Some "s2"]
  ∧ flat_map (fun s => X (subset_copy toy_adata
                            (series_eq (Categorical ["s1"; "s2"]
                                          [Some "s1"; None; Some "s2"]) s)))
             ["s1"; "s2"] ≡ₚ [10; 30].
Proof.
  assert (Forall (λ v, match v with Some y => y ∈ ["s1"; "s2"] | None => True end)
                 [Some "s1"; None; Some "s2"]) as Hvals.
  { repeat constructor. }
  split_and!; [exact NoDup_toy_samples | exact Hvals |].
  exact (sample_subsets_partition_cells toy_adata ["s1"; "s2"]
           [Some "s1"; None; Some "s2"] NoDup_toy_samples Hvals).
Defined.

Lemma Method_call_inplace_idempotent_witness :
  ignores_uns toy_pipe
  ∧ match Method_call toy_pipe toy_method toy_kwargs false true
            {| w_adata := toy_adata; w_console := [] |} with
    | (Ok r, w') =>
        r = None
        ∧ Method_call toy_pipe toy_method toy_kwargs false true w' = (Ok None, w')
    | (Err _, _) => False
    end.
Proof.
  split; [exact toy_pipe_ignores_uns|].
  destruct (Method_call toy_pipe toy_method toy_kwargs false true
              {| w_adata := toy_adata; w_console := [] |}) as [[r|e] w'] eqn:Hrun.
  - destruct (Method_call_inplace_idempotent toy_pipe toy_method toy_kwargs false
                _ w' r toy_pipe_ignores_uns Hrun) as (Hr & _ & Hagain).
    split; [exact Hr | exact Hagain].
  - vm_compute in Hrun. discriminate Hrun.
Defined.

Lemma by_sample_coercion_is_transparent_witness :
  obs toy_adata_object !! "sample" = Some (Object [Some "s2"; Some "s1"; Some "s2"])
  ∧ by_sample toy_pipe toy_method "sample" false VFalse toy_kwargs
      {| w_adata := toy_adata_object; w_console := [] |} =
    by_sample toy_pipe toy_method "sample" false VFalse toy_kwargs
      {| w_adata := set_obs "sample"
                      (astype_category (Object [Some "s2"; Some "s1"; Some "s2"]))
                      toy_adata_object;
         w_console := [] |}.
Proof.
  split; [reflexivity|].
  exact (by_sample_coercion_is_transparent toy_pipe toy_method "sample" false VFalse
           toy_kwargs toy_adata_object [] (Object [Some "s2"; Some "s1"; Some "s2"])
           eq_refl).
Defined.

Lemma by_sample_rerun_witness :
  ignores_uns toy_pipe
  ∧ obs toy_adata !! "sample" =
      Some (Categorical ["s1"; "s2"] [Some "s1"; Some "s2"; Some "s1"])
  ∧ wf_series (Categorical ["s1"; "s2"] [Some "s1"; Some "s2"; Some "s1"])
  ∧ match by_sample toy_pipe toy_method "sample" true VFalse toy_kwargs
            {| w_adata := toy_adata; w_console := [] |} with
    | (Ok r, w') =>
        by_sample toy_pipe toy_method "sample" true VFalse toy_kwargs
          {| w_adata := w_adata w'; w_console := [] |} =
        (Ok r, {| w_adata := w_adata w'; w_console := [] |})
    | (Err _, _) => False
    end.
Proof.
  split_and!; [exact toy_pipe_ignores_uns | reflexivity | exact NoDup_toy_samples |].
  destruct (by_sample toy_pipe toy_method "sample" true VFalse toy_kwargs
              {| w_adata := toy_adata; w_console := [] |}) as [[r|e] w'] eqn:Hrun.
  - exact (by_sample_rerun toy_pipe toy_method "sample" true VFalse toy_kwargs
             toy_adata [] []
             (Categorical ["s1"; "s2"] [Some "s1"; Some "s2"; Some "s1"]) r w'
             toy_pipe_ignores_uns eq_refl NoDup_toy_samples Hrun).
  - vm_compute in Hrun. discriminate Hrun.
Defined.

End OrchestrationFacts.

(** ** Properties of [steady/Method.py] *)
Module SteadyFacts.
Import Method.

Section WithPipe.

Context {ScoreFun Expr R : Type}.
Variable liana_pipe : @Steady.PipeArgs ScoreFun Expr R → result (DataFrame R).

(** X26. [Method.__call__] of [liana/steady/Method.py].  With
    [copy=False] a call that returns hands back the object it was
    given, having stored under ['liana_res'] exactly the table the call
    with [copy=True] returns, and having changed nothing else; calling
    again on that object gives the same table and the same object.
    ([liana_pipe] is assumed not to read [adata.uns].) *)
Theorem steady_call_stores_the_table (self : @MethodT ScoreFun) (kw : Steady.CallArgs)
    (w w' : @world Expr R) (r : Steady.Returned) :
  Steady.ignores_uns liana_pipe →
  Steady.Method_call liana_pipe self kw false w = (Ok r, w') →
  r = Steady.TheAnnData
  ∧ (∃ t, Steady.Method_call liana_pipe self kw true w = (Ok (Steady.TheTable t), w)
          ∧ w_adata w' = set_uns "liana_res" (UnsFrame t) (w_adata w)
          ∧ Steady.Method_call liana_pipe self kw true w' = (Ok (Steady.TheTable t), w'))
  ∧ w_console w' = w_console w
  ∧ Steady.Method_call liana_pipe self kw false w' = (Ok Steady.TheAnnData, w').
Proof.
  intros Hign. destruct w as [a con].
  unfold Steady.Method_call, bind, get_adata, lift_result. cbn [w_adata w_console negb].
  destruct (liana_pipe (Steady.pipe_args self a kw)) as [t|e] eqn:Hpipe; [|done].
  unfold modify_adata, ret. cbn [w_adata w_console]. intros [= <- <-].
  cbn [w_adata w_console].
  assert (liana_pipe (Steady.pipe_args self (set_uns "liana_res" (UnsFrame t) a) kw)
          = Ok t) as ->.
  { rewrite <- Hpipe. apply (Hign self a kw). }
  split_and!; try done.
  - by exists t.
  - by rewrite MethodFacts.set_uns_twice.
Qed.

End WithPipe.

Lemma steady_toy_pipe_ignores_uns : Steady.ignores_uns Steady.toy_pipe.
Proof. intros self a kw u. reflexivity. Qed.

Lemma steady_call_stores_the_table_witness :
  Steady.ignores_uns Steady.toy_pipe
  ∧ Steady.Method_call Steady.toy_pipe toy_method Steady.toy_kwargs false
      {| w_adata := toy_adata; w_console := [] |} =
    (Ok Steady.TheAnnData,
     {| w_adata := set_uns "liana_res" (UnsFrame [(0, 10); (1, 20); (2, 30)]) toy_adata;
        w_console := [] |})
  ∧ Steady.Method_call Steady.toy_pipe toy_method Steady.toy_kwargs false
      {| w_adata := set_uns "liana_res" (UnsFrame [(0, 10); (1, 20); (2, 30)]) toy_adata;
         w_console := [] |} =
    (Ok Steady.TheAnnData,
     {| w_adata := set_uns "liana_res" (UnsFrame [(0, 10); (1, 20); (2, 30)]) toy_adata;
        w_console := [] |}).
Proof.
  assert (Steady.Method_call Steady.toy_pipe toy_method Steady.toy_kwargs false
      {| w_adata := toy_adata; w_console := [] |} =
    (Ok Steady.TheAnnData,
     {| w_adata := set_uns "liana_res" (UnsFrame [(0, 10); (1, 20); (2, 30)]) toy_adata;
        w_console := [] |})) as Hrun by reflexivity.
  split_and!; [exact steady_toy_pipe_ignores_uns | exact Hrun |].
  exact (proj2 (proj2 (proj2
           (steady_call_stores_the_table Steady.toy_pipe toy_method Steady.toy_kwargs
              _ _ _ steady_toy_pipe_ignores_uns Hrun)))).
Defined.

End SteadyFacts.

(** ** Properties of [_inverse_scores] *)
Module InverseFacts.
Import Inverse.

(** *** Binary digits and shifts *)

Lemma digits2_pos_size (p : positive) : digits2_pos p = Pos.size p.
Proof. induction p as [p IH|p IH|]; simpl; by rewrite ?IH. Qed.

Lemma digits2_bounds (p : positive) :
  2 ^ (Z.pos (digits2_pos p) - 1) ≤ Z.pos p < 2 ^ Z.pos (digits2_pos p).
Proof.
  rewrite digits2_pos_size.
  pose proof (Pos.size_gt p) as Hgt. pose proof (Pos.size_le p) as Hle.
  apply Pos2Z.pos_lt_pos in Hgt. apply Pos2Z.pos_le_pos in Hle.
  rewrite Pos2Z.inj_pow in Hgt, Hle. change (Z.pos p~0) with (2 * Z.pos p) in Hle.
  assert (2 ^ Z.pos (Pos.size p) = 2 * 2 ^ (Z.pos (Pos.size p) - 1)) as E.
  { rewrite <- Z.pow_succ_r by lia. f_equal. lia. }
  lia.
Qed.

Lemma pow2_lt_inv (a b : Z) : 0 ≤ b → 2 ^ a < 2 ^ b → a < b.
Proof. intros Hb H. apply (Z.pow_lt_mono_r_iff 2); [lia|lia|done]. Qed.

Lemma digits2_unique (p : positive) (d : Z) :
  2 ^ (d - 1) ≤ Z.pos p < 2 ^ d → Z.pos (digits2_pos p) = d.
Proof.
  intros [Hlo Hhi]. pose proof (digits2_bounds p) as [Hlo' Hhi'].
  assert (0 < d).
  { destruct (Z_lt_le_dec 0 d) as [|Hd]; [done|].
    destruct (Z.eq_dec d 0) as [->|]; [simpl in Hhi; lia|].
    rewrite Z.pow_neg_r in Hhi by lia. lia. }
  assert (d - 1 < Z.pos (digits2_pos p)) by (apply pow2_lt_inv; lia).
  assert (Z.pos (digits2_pos p) - 1 < d) by (apply pow2_lt_inv; lia).
  lia.
Qed.

(** Iterating a step function *)
Lemma iter_pos_invariant {A : Type} (f : A → A) (P : Z → A → Prop) :
  (∀ k x, 0 ≤ k → P k x → P (k + 1) (f x)) →
  ∀ n k x, 0 ≤ k → P k x → P (k + Z.pos n) (SpecFloat.iter_pos f n x).
Proof.
  intros Hstep. induction n as [n IH|n IH|]; intros k x Hk HP; simpl.
  - replace (k + Z.pos n~1) with ((k + 1 + Z.pos n) + Z.pos n) by lia.
    apply IH; [lia|]. apply IH; [lia|]. by apply Hstep.
  - replace (k + Z.pos n~0) with ((k + Z.pos n) + Z.pos n) by lia.
    apply IH; [lia|]. by apply IH.
  - by apply Hstep.
Qed.

Lemma shr_1_inv (m0 k : Z) (mrs : shr_record) :
  0 ≤ k → shr_inv m0 k mrs → shr_inv m0 (k + 1) (shr_1 mrs).
Proof.
  intros Hk (Hm & L & HL & Heq & Hs). destruct mrs as [m r s]. unfold shr_inv.
  cbn [shr_m shr_r shr_s] in *.
  assert (0 < 2 ^ k) as Hpos by (apply Z.pow_pos_nonneg; lia).
  assert (2 ^ (k + 1) = 2 * 2 ^ k) as E1 by (rewrite Z.pow_add_r by lia; lia).
  assert (2 ^ (k + 1 + 1) = 4 * 2 ^ k) as E2 by (rewrite !Z.pow_add_r by lia; lia).
  rewrite E1 in *. rewrite E2. clear E1 E2.
  set (P := 2 ^ k) in *. clearbody P.
  assert (∃ m' r', shr_1 {| shr_m := m; shr_r := r; shr_s := s |} =
                     {| shr_m := m'; shr_r := r'; shr_s := r || s |}
                   ∧ 0 ≤ m' ∧ m = 2 * m' + Z.b2z r') as (m' & r' & -> & Hm' & Hmm).
  { destruct m as [|[p|p|]|p]; simpl.
    - by exists 0, false.
    - exists (Z.pos p), true. split; [done|]. simpl. lia.
    - exists (Z.pos p), false. split; [done|]. simpl. lia.
    - by exists 0, true.
    - lia. }
  cbn [shr_m shr_r shr_s]. split; [done|].
  exists (P * Z.b2z r + L). split_and!.
  - destruct r; simpl; lia.
  - destruct r; simpl; lia.
  - subst m. lia.
  - destruct r, s; simpl; split; try done; lia.
Qed.

Lemma shr_inv_init (m0 : Z) :
  0 ≤ m0 → shr_inv m0 0 {| shr_m := m0; shr_r := false; shr_s := false |}.
Proof.
  intros Hm. split; [done|]. exists 0. cbn [shr_m shr_r shr_s]. simpl.
  split_and!; (lia || done).
Qed.

Lemma shr_inv_iter (m0 : Z) (n : positive) :
  0 ≤ m0 →
  shr_inv m0 (Z.pos n)
    (SpecFloat.iter_pos shr_1 n {| shr_m := m0; shr_r := false; shr_s := false |}).
Proof.
  intros Hm.
  apply (iter_pos_invariant shr_1 (shr_inv m0) (shr_1_inv m0) n 0); [lia|].
  by apply shr_inv_init.
Qed.

(** Rounding to nearest after [k] shifts stays within half a unit. *)
Lemma round_nearest_even_inv (m0 k : Z) (mrs : shr_record) :
  0 ≤ k → shr_inv m0 k mrs →
  let m2 := round_nearest_even (shr_m mrs) (loc_of_shr_record mrs) in
  shr_m mrs ≤ m2 ≤ shr_m mrs + 1
  ∧ - 2 ^ k ≤ 2 * m0 - 2 ^ (k + 1) * m2 ≤ 2 ^ k.
Proof.
  intros Hk (Hm & L & HL & Heq & Hs). destruct mrs as [m r s].
  cbn [shr_m shr_r shr_s] in *.
  assert (2 ^ (k + 1) = 2 * 2 ^ k) as E1 by (rewrite Z.pow_add_r by lia; lia).
  rewrite E1 in *. clear E1. set (P := 2 ^ k) in *. clearbody P.
  destruct r, s; cbn [loc_of_shr_record round_nearest_even Z.b2z] in *.
  - lia.
  - assert (L = 0) by by apply Hs. destruct (Z.even m); lia.
  - lia.
  - assert (L = 0) by by apply Hs. lia.
Qed.

(** *** Rounding to 53 bits *)

Lemma fexp_normal (x : Z) : -1021 ≤ x → fexp 53 1024 x = x - 53.
Proof. intros Hx. unfold fexp, emin. lia. Qed.

Lemma pow2_pos (k : Z) : 0 ≤ k → 0 < 2 ^ k.
Proof. intros. apply Z.pow_pos_nonneg; lia. Qed.

Lemma pow2_split (a b : Z) : 0 ≤ a → 0 ≤ b → 2 ^ (a + b) = 2 ^ a * 2 ^ b.
Proof. intros. by rewrite Z.pow_add_r. Qed.

Lemma bounded_normal (m : positive) (e : Z) :
  Z.pos (digits2_pos m) = 53 → -1074 ≤ e ≤ 971 → bounded 53 1024 m e = true.
Proof.
  intros Hd He. unfold bounded, canonical_mantissa. rewrite Hd, fexp_normal by lia.
  apply andb_true_intro. split; [apply Z.eqb_eq; lia | apply Z.leb_le; lia].
Qed.

(** The last steps of [binary_round_aux] on a rounded mantissa of 53
    bits, or of 54 after a carry. *)
Lemma round_finish (m2 : Z) (e' : Z) :
  2 ^ 52 ≤ m2 ≤ 2 ^ 53 → -1074 ≤ e' ≤ 970 →
  ∃ m' e'',
    (let '(mrs'', e'') := shr_fexp 53 1024 m2 e' loc_Exact in
     match shr_m mrs'' with
     | Z0 => S754_zero false
     | Zpos m => if e'' <=? 1024 - 53 then S754_finite false m e'' else S754_infinity false
     | _ => S754_nan
     end) = S754_finite false m' e''
    ∧ bounded 53 1024 m' e'' = true
    ∧ val m' e'' = m2 * 2 ^ (e' + 1074).
Proof.
  intros Hm He. destruct m2 as [|p|p]; [simpl in Hm; lia| |lia].
  destruct (Z.eq_dec (Z.pos p) (2 ^ 53)) as [E|Hne].
  - injection E as ->. exists 4503599627370496%positive, (e' + 1).
    unfold shr_fexp.
    change (Zdigits2 (Z.pos _)) with 54. rewrite fexp_normal by lia.
    replace (54 + e' - 53 - e') with 1 by lia.
    cbn [shr shr_record_of_loc SpecFloat.iter_pos shr_1 shr_m].
    replace (e' + 1 <=? 1024 - 53) with true by (symmetry; apply Z.leb_le; lia).
    split_and!; [done| |].
    + apply bounded_normal; [done|lia].
    + unfold val. replace (e' + 1 + 1074) with (1 + (e' + 1074)) by lia.
      rewrite pow2_split by lia. change (2 ^ 1) with 2. 
      change (Z.pos 9007199254740992) with (2 * Z.pos 4503599627370496). lia.
  - assert (Z.pos (digits2_pos p) = 53) as Hd by (apply digits2_unique; simpl in *; lia).
    exists p, e'. unfold shr_fexp. cbn [Zdigits2]. rewrite Hd, fexp_normal by lia.
    replace (53 + e' - 53 - e') with 0 by lia.
    cbn [shr shr_record_of_loc shr_m].
    replace (e' <=? 1024 - 53) with true by (symmetry; apply Z.leb_le; lia).
    split_and!; [done| |done]. apply bounded_normal; [done|lia].
Qed.

Lemma binary_round_aux_normal (M : positive) (e : Z) :
  53 ≤ Z.pos (digits2_pos M) → -1074 ≤ e → Z.pos (digits2_pos M) + e ≤ 1023 →
  ∃ m' e', binary_round_aux 53 1024 false (Z.pos M) e loc_Exact = S754_finite false m' e'
           ∧ bounded 53 1024 m' e' = true
           ∧ rounds (val M e) (val m' e').
Proof.
  intros Hd He Hmax. pose proof (digits2_bounds M) as [Hlo Hhi].
  set (d := Z.pos (digits2_pos M)) in *.
  unfold binary_round_aux. unfold shr_fexp at 1. cbn [Zdigits2]. fold d.
  rewrite fexp_normal by lia. cbn [shr_record_of_loc].
  destruct (d + e - 53 - e) as [|n|n] eqn:En; [| |lia].
  - (* the mantissa has 53 bits: nothing is shifted out *)
    assert (d = 53) as Hd53 by lia. rewrite Hd53 in *.
    cbn [shr shr_m loc_of_shr_record round_nearest_even].
    destruct (round_finish (Z.pos M) e) as (m' & e'' & Hrun & Hb & Hv);
      [simpl in *; lia | lia |].
    exists m', e''. split_and!; [done|done|].
    exists (53 + e + 1074), (Z.pos M).
    replace (53 + e + 1074 - 53) with (e + 1074) by lia.
    replace (53 + e + 1074 - 1) with (52 + (e + 1074)) by lia.
    replace (53 + e + 1074) with (53 + (e + 1074)) by lia.
    rewrite (pow2_split 52 (e + 1074)), (pow2_split 53 (e + 1074)) by lia.
    rewrite Hv. unfold val.
    pose proof (pow2_pos (e + 1074) ltac:(lia)).
    set (Q := 2 ^ (e + 1074)) in *. clearbody Q. simpl in Hlo, Hhi.
    split_and!; nia.
  - (* [n] bits are shifted out and rounded *)
    cbn [shr].
    pose proof (shr_inv_iter (Z.pos M) n ltac:(lia)) as Hinv.
    set (mrs := SpecFloat.iter_pos shr_1 n _) in *.
    pose proof (round_nearest_even_inv (Z.pos M) (Z.pos n) mrs ltac:(lia) Hinv) as Hr.
    cbv zeta in Hr. destruct Hr as [Hq Hb].
    set (m2 := round_nearest_even (shr_m mrs) (loc_of_shr_record mrs)) in *.
    assert (d = 53 + Z.pos n) as Hdn by lia.
    assert (2 ^ 52 ≤ shr_m mrs < 2 ^ 53) as Hqb.
    { destruct Hinv as (Hm & L & HL & Heq & _).
      rewrite Hdn in Hlo, Hhi.
      replace (53 + Z.pos n - 1) with (52 + Z.pos n) in Hlo by lia.
      rewrite pow2_split in Hlo, Hhi, Heq by lia. change (2 ^ 1) with 2 in Heq.
      pose proof (pow2_pos (Z.pos n) ltac:(lia)).
      set (P := 2 ^ Z.pos n) in *. clearbody P.
      assert (0 ≤ Z.b2z (shr_r mrs) ≤ 1) by (destruct (shr_r mrs); simpl; lia).
      split; nia. }
    destruct (round_finish m2 (e + Z.pos n)) as (m' & e'' & Hrun & Hbd & Hv);
      [lia | lia |].
    exists m', e''. split_and!; [done|done|].
    exists (d + e + 1074), m2. rewrite Hv. unfold val.
    replace (d + e + 1074 - 53) with (Z.pos n + (e + 1074)) by lia.
    replace (d + e + 1074 - 1) with ((d - 1) + (e + 1074)) by lia.
    replace (d + e + 1074) with (d + (e + 1074)) by lia.
    replace (e + Z.pos n + 1074) with (Z.pos n + (e + 1074)) by lia.
    rewrite (pow2_split (Z.pos n) (e + 1074)), (pow2_split (d - 1) (e + 1074)),
      (pow2_split d (e + 1074)) by lia.
    rewrite (pow2_split (Z.pos n) 1) in Hb by lia. change (2 ^ 1) with 2 in Hb.
    pose proof (pow2_pos (e + 1074) ltac:(lia)).
    pose proof (pow2_pos (Z.pos n) ltac:(lia)).
    set (P := 2 ^ Z.pos n) in *. set (Q := 2 ^ (e + 1074)) in *.
    clearbody P Q.
    split_and!; [lia | nia | nia | lia | nia | nia].
Qed.

Lemma iter_xO_val (m k : positive) : Z.pos (Pos.iter xO m k) = Z.pos m * 2 ^ Z.pos k.
Proof.
  apply (Pos.iter_ind _ xO m (λ k a, Z.pos a = Z.pos m * 2 ^ Z.pos k)).
  - change (2 ^ 1) with 2. lia.
  - intros p a Ha. rewrite Pos2Z.inj_succ, Z.pow_succ_r by lia.
    change (Z.pos a~0) with (2 * Z.pos a). lia.
Qed.

Lemma shl_align_val (m : positive) (e ez : Z) :
  -1074 ≤ ez ≤ e → val (fst (shl_align m e ez)) ez = val m e.
Proof.
  intros He. unfold shl_align, val. destruct (ez - e) as [|k|k] eqn:Ek; cbn [fst].
  - by replace ez with e by lia.
  - lia.
  - rewrite iter_xO_val. replace (e + 1074) with (Z.pos k + (ez + 1074)) by lia.
    rewrite (pow2_split (Z.pos k) (ez + 1074)) by lia. lia.
Qed.

Lemma binary_round_normal (M : positive) (e : Z) :
  -1074 ≤ e → -1021 ≤ Z.pos (digits2_pos M) + e ≤ 1023 →
  ∃ m' e', binary_round 53 1024 false M e = S754_finite false m' e'
           ∧ bounded 53 1024 m' e' = true
           ∧ rounds (val M e) (val m' e').
Proof.
  intros He Hd. unfold binary_round. rewrite fexp_normal by lia.
  set (d := Z.pos (digits2_pos M)) in *.
  pose proof (shl_align_val M e (Z.min e (d + e - 53))) as Hval.
  unfold shl_align in *.
  destruct (d + e - 53 - e) as [|k|k] eqn:Ek.
  - apply binary_round_aux_normal; fold d; lia.
  - apply binary_round_aux_normal; fold d; lia.
  - replace (Z.min e (d + e - 53)) with (d + e - 53) in Hval by lia.
    rewrite Ek in Hval. cbn [fst] in Hval. rewrite <- Hval by lia.
    assert (Z.pos (digits2_pos (Pos.iter xO M k)) = 53) as Hd'.
    { apply digits2_unique. rewrite iter_xO_val.
      pose proof (digits2_bounds M) as [Hlo Hhi]. fold d in Hlo, Hhi.
      replace 53 with (d + Z.pos k) at 2 by lia.
      replace (53 - 1) with ((d - 1) + Z.pos k) by lia.
      rewrite !pow2_split by lia.
      pose proof (pow2_pos (Z.pos k) ltac:(lia)). nia. }
    apply binary_round_aux_normal; rewrite ?Hd'; lia.
Qed.

Lemma bounded_inv (m : positive) (e : Z) :
  bounded 53 1024 m e = true →
  -1074 ≤ e ≤ 971 ∧ Z.pos m < 2 ^ 53 ∧ (e = -1074 ∨ 2 ^ 52 ≤ Z.pos m).
Proof.
  unfold bounded, canonical_mantissa, fexp, emin.
  intros [Hc He]%andb_prop. apply Z.eqb_eq in Hc. apply Z.leb_le in He.
  pose proof (digits2_bounds m) as [Hlo Hhi].
  set (d := Z.pos (digits2_pos m)) in *.
  assert (d ≤ 53) by lia. split; [lia|]. split.
  - eapply Z.lt_le_trans; [exact Hhi|]. apply Z.pow_le_mono_r; lia.
  - destruct (Z.eq_dec e (-1074)) as [|Hne]; [by left|]. right.
    by replace d with 53 in Hlo by lia.
Qed.

(** Positive binary64 numbers compare as their values do. *)
Lemma SFcompare_val (m1 m2 : positive) (e1 e2 : Z) :
  bounded 53 1024 m1 e1 = true → bounded 53 1024 m2 e2 = true →
  SFcompare (S754_finite false m1 e1) (S754_finite false m2 e2) =
    Some (val m1 e1 ?= val m2 e2).
Proof.
  intros (He1 & Hm1 & Hn1)%bounded_inv (He2 & Hm2 & Hn2)%bounded_inv.
  unfold SFcompare, val. f_equal.
  pose proof (pow2_pos (e1 + 1074) ltac:(lia)) as HQ1.
  pose proof (pow2_pos (e2 + 1074) ltac:(lia)) as HQ2.
  change (2 ^ 53) with (2 * 2 ^ 52) in *.
  set (B := 2 ^ 52) in *. assert (0 < B) by done. clearbody B.
  destruct (Z.compare_spec e1 e2) as [->|Hlt|Hgt].
  - change (Pos.compare_cont Eq m1 m2) with (Z.pos m1 ?= Z.pos m2).
    set (Q := 2 ^ (e2 + 1074)) in *. clearbody Q.
    destruct (Z.compare_spec (Z.pos m1) (Z.pos m2)) as [E|E|E]; symmetry.
    + apply Z.compare_eq_iff. by rewrite E.
    + apply Z.compare_lt_iff. nia.
    + apply Z.compare_gt_iff. nia.
  - symmetry. apply Z.compare_lt_iff.
    replace (e2 + 1074) with ((e2 - e1 - 1) + 1 + (e1 + 1074)) by lia.
    rewrite (pow2_split (e2 - e1 - 1 + 1) (e1 + 1074)), (pow2_split (e2 - e1 - 1) 1)
      by lia.
    change (2 ^ 1) with 2.
    pose proof (pow2_pos (e2 - e1 - 1) ltac:(lia)).
    set (Q := 2 ^ (e1 + 1074)) in *. set (K := 2 ^ (e2 - e1 - 1)) in *.
    clearbody Q K. destruct Hn2 as [|Hn2]; [lia|].
    assert (Z.pos m1 * Q < 2 * B * Q) by nia.
    assert (B * Q ≤ Z.pos m2 * Q) by nia.
    assert (Z.pos m2 * Q * 1 ≤ Z.pos m2 * Q * K) by (apply Z.mul_le_mono_nonneg_l; nia).
    lia.
  - symmetry. apply Z.compare_gt_iff.
    replace (e1 + 1074) with ((e1 - e2 - 1) + 1 + (e2 + 1074)) by lia.
    rewrite (pow2_split (e1 - e2 - 1 + 1) (e2 + 1074)), (pow2_split (e1 - e2 - 1) 1)
      by lia.
    change (2 ^ 1) with 2.
    pose proof (pow2_pos (e1 - e2 - 1) ltac:(lia)).
    set (Q := 2 ^ (e2 + 1074)) in *. set (K := 2 ^ (e1 - e2 - 1)) in *.
    clearbody Q K. destruct Hn1 as [|Hn1]; [lia|].
    assert (Z.pos m2 * Q < 2 * B * Q) by nia.
    assert (B * Q ≤ Z.pos m1 * Q) by nia.
    assert (Z.pos m1 * Q * 1 ≤ Z.pos m1 * Q * K) by (apply Z.mul_le_mono_nonneg_l; nia).
    lia.
Qed.

Lemma rounds_mono (S1 V1 S2 V2 : Z) :
  rounds S1 V1 → rounds S2 V2 → S1 < S2 → V1 ≤ V2.
Proof.
  intros (D1 & t1 & HD1 & [Hlo1 Hhi1] & -> & Hb1) (D2 & t2 & HD2 & [Hlo2 Hhi2] & -> & Hb2) Hlt.
  assert (D1 - 1 < D2) by (apply pow2_lt_inv; lia).
  pose proof (pow2_pos (D1 - 53) ltac:(lia)) as HP1.
  pose proof (pow2_pos (D2 - 53) ltac:(lia)) as HP2.
  destruct (Z.eq_dec D1 D2) as [->|Hne].
  - set (P := 2 ^ (D2 - 53)) in *. clearbody P.
    apply Z.mul_le_mono_nonneg_l; [lia|].
    destruct (Z_le_gt_dec t1 t2) as [|Hgt]; [done|].
    assert (P * (t2 + 1) ≤ P * t1) by (apply Z.mul_le_mono_nonneg_l; lia). lia.
  - assert (2 ^ D1 ≤ 2 ^ (D2 - 1)) as Hpow by (apply Z.pow_le_mono_r; lia).
    replace D1 with (53 + (D1 - 53)) in Hhi1, Hpow by lia.
    replace (D2 - 1) with (52 + (D2 - 53)) in Hlo2, Hpow by lia.
    rewrite pow2_split in Hhi1, Hlo2, Hpow by lia.
    rewrite (pow2_split 52) in Hpow by lia.
    change (2 ^ 53) with (2 * 2 ^ 52) in *.
    set (B := 2 ^ 52) in *. assert (0 < B) by done. clearbody B.
    set (P1 := 2 ^ (D1 - 53)) in *. set (P2 := 2 ^ (D2 - 53)) in *.
    clearbody P1 P2.
    assert (t1 ≤ 2 * B).
    { destruct (Z_le_gt_dec t1 (2 * B)) as [|Hgt]; [done|].
      assert (P1 * (2 * B + 1) ≤ P1 * t1) by (apply Z.mul_le_mono_nonneg_l; lia). lia. }
    assert (B ≤ t2).
    { destruct (Z_le_gt_dec B t2) as [|Hgt]; [done|].
      assert (P2 * t2 ≤ P2 * (B - 1)) by (apply Z.mul_le_mono_nonneg_l; lia). lia. }
    assert (P1 * t1 ≤ P1 * (2 * B)) by (apply Z.mul_le_mono_nonneg_l; lia).
    assert (P2 * B ≤ P2 * t2) by (apply Z.mul_le_mono_nonneg_l; lia).
    lia.
Qed.

(** *** Adding [eps] to a number of [0, 1] *)

Lemma Prim2SF_eps : Prim2SF eps = SFeps.
Proof. reflexivity. Qed.

Lemma val_eps : val 4503599627370496 (-104) = 2 ^ 1022.
Proof. reflexivity. Qed.

Lemma add_eps_finite (m : positive) (e : Z) :
  bounded 53 1024 m e = true → val m e ≤ 2 ^ 1074 →
  ∃ m' e', SFadd 53 1024 (S754_finite false m e) SFeps = S754_finite false m' e'
           ∧ bounded 53 1024 m' e' = true
           ∧ rounds (val m e + 2 ^ 1022) (val m' e').
Proof.
  intros Hb Hv. pose proof (bounded_inv _ _ Hb) as (He & _ & _).
  unfold SFeps, SFadd. cbv zeta. cbn [cond_Zopp].
  set (ez := Z.min e (-104)).
  pose proof (shl_align_val m e ez ltac:(lia)) as H1.
  pose proof (shl_align_val 4503599627370496 (-104) ez ltac:(lia)) as H2.
  rewrite val_eps in H2.
  set (a := fst (shl_align m e ez)) in *.
  set (b := fst (shl_align _ (-104) ez)) in *.
  change (Z.pos a + Z.pos b) with (Z.pos (a + b)). cbn [binary_normalize].
  assert (val (a + b) ez = val m e + 2 ^ 1022) as Hsum.
  { rewrite <- H1, <- H2. unfold val. rewrite Pos2Z.inj_add. lia. }
  rewrite <- Hsum.
  apply binary_round_normal; [lia|].
  pose proof (digits2_bounds (a + b)) as [Hlo Hhi].
  set (d := Z.pos (digits2_pos (a + b))) in *.
  assert (0 < val m e) as Hpos.
  { unfold val. pose proof (pow2_pos (e + 1074) ltac:(lia)). nia. }
  pose proof (pow2_pos (ez + 1074) ltac:(lia)) as HQ.
  unfold val in Hsum at 1.
  assert (2 ^ 1074 + 2 ^ 1022 < 2 ^ 1075) as Hc by done.
  assert (2 ^ 1022 < 2 ^ (d + (ez + 1074))) as Hl.
  { rewrite pow2_split by lia.
    assert (Z.pos (a + b) * 2 ^ (ez + 1074) < 2 ^ d * 2 ^ (ez + 1074))
      by (apply Z.mul_lt_mono_pos_r; lia).
    lia. }
  assert (2 ^ ((d - 1) + (ez + 1074)) < 2 ^ 1075) as Hu.
  { rewrite pow2_split by lia.
    assert (2 ^ (d - 1) * 2 ^ (ez + 1074) ≤ Z.pos (a + b) * 2 ^ (ez + 1074))
      by (apply Z.mul_le_mono_nonneg_r; lia).
    lia. }
  apply pow2_lt_inv in Hl; [|lia]. apply pow2_lt_inv in Hu; [|lia]. lia.
Qed.

Lemma rounds_eps : rounds (2 ^ 1022) (2 ^ 1022).
Proof.
  exists 1023, (2 ^ 52). split; [lia|]. split; [split; [done|done]|].
  split; [reflexivity|]. rewrite Z.sub_diag. split; [done|done].
Qed.

Lemma bounded_eps : bounded 53 1024 4503599627370496 (-104) = true.
Proof. reflexivity. Qed.

Lemma add_eps_spec (sx : spec_float) :
  in_unit sx →
  ∃ m' e', SFadd 53 1024 sx SFeps = S754_finite false m' e'
           ∧ bounded 53 1024 m' e' = true
           ∧ rounds (fval sx + 2 ^ 1022) (val m' e').
Proof.
  destruct sx as [s|s| |[] m e]; try done.
  - intros _. exists 4503599627370496%positive, (-104). split; [done|].
    split; [exact bounded_eps|]. rewrite val_eps. exact rounds_eps.
  - intros [Hb Hv]. by apply add_eps_finite.
Qed.

Lemma SFleb_val (m1 m2 : positive) (e1 e2 : Z) :
  bounded 53 1024 m1 e1 = true → bounded 53 1024 m2 e2 = true →
  SFleb (S754_finite false m1 e1) (S754_finite false m2 e2) = true ↔
  val m1 e1 ≤ val m2 e2.
Proof.
  intros H1 H2. unfold SFleb. rewrite (SFcompare_val _ _ _ _ H1 H2).
  destruct (Z.compare_spec (val m1 e1) (val m2 e2)); split; (done || lia).
Qed.

Lemma val_pos (m : positive) (e : Z) : -1074 ≤ e → 0 < val m e.
Proof. intros He. unfold val. pose proof (pow2_pos (e + 1074) ltac:(lia)). nia. Qed.

Lemma in_unit_below (sx sy : spec_float) :
  valid_binary sx = true → SFleb (S754_zero false) sx = true →
  SFleb sx sy = true → in_unit sy → in_unit sx.
Proof.
  intros Hv H0 Hle Hy. destruct sx as [s|s| |[] m e]; try done.
  - destruct s; [done|]. by destruct sy as [?|[]| |[] ? ?].
  - destruct sy as [z|[]| |[] m2 e2]; try done. destruct Hy as [Hb2 Hv2].
    split; [done|]. apply (SFleb_val m m2 e e2 Hv Hb2) in Hle. lia.
Qed.

Lemma fval_mono (sx sy : spec_float) :
  in_unit sx → in_unit sy → SFleb sx sy = true → fval sx ≤ fval sy.
Proof.
  intros Hx Hy Hle.
  destruct sx as [s|s| |[] m1 e1], sy as [z|z| |[] m2 e2]; try done.
  - destruct Hy as [(He & _)%bounded_inv _]. simpl.
    pose proof (val_pos m2 e2 ltac:(lia)). lia.
  - destruct Hx as [Hb1 _], Hy as [Hb2 _]. by apply (SFleb_val m1 m2 e1 e2 Hb1 Hb2).
Qed.

Lemma fval_inj (sx sy : spec_float) :
  in_unit sx → in_unit sy → fval sx = fval sy →
  SFadd 53 1024 sx SFeps = SFadd 53 1024 sy SFeps.
Proof.
  intros Hx Hy Heq.
  destruct sx as [s|s| |[] m1 e1], sy as [z|z| |[] m2 e2]; try done.
  - destruct Hy as [(He & _)%bounded_inv _]. simpl in Heq.
    pose proof (val_pos m2 e2 ltac:(lia)). lia.
  - destruct Hx as [(He & _)%bounded_inv _]. simpl in Heq.
    pose proof (val_pos m1 e1 ltac:(lia)). lia.
  - destruct Hx as [Hb1 _], Hy as [Hb2 _]. simpl in Heq.
    pose proof (SFcompare_val m1 m2 e1 e2 Hb1 Hb2) as Hc.
    rewrite Heq, Z.compare_refl in Hc. unfold SFcompare in Hc.
    injection Hc as Hc.
    destruct (Z.compare_spec e1 e2) as [->| |]; try done.
    apply Pos.compare_eq in Hc. by subst.
Qed.

(** Adding [eps] is monotone on [0, 1]. *)
Lemma SFadd_eps_mono (sx sy : spec_float) :
  in_unit sx → in_unit sy → SFleb sx sy = true →
  SFleb (SFadd 53 1024 sx SFeps) (SFadd 53 1024 sy SFeps) = true.
Proof.
  intros Hx Hy Hle. pose proof (fval_mono sx sy Hx Hy Hle) as Hv.
  destruct (add_eps_spec sy Hy) as (m2 & e2 & Hr2 & Hb2 & Hrd2).
  destruct (Z.eq_dec (fval sx) (fval sy)) as [Heq|Hne].
  - rewrite (fval_inj sx sy Hx Hy Heq), Hr2. by apply SFleb_val.
  - destruct (add_eps_spec sx Hx) as (m1 & e1 & Hr1 & Hb1 & Hrd1).
    rewrite Hr1, Hr2. apply SFleb_val; [done|done|].
    apply (rounds_mono _ _ _ _ Hrd1 Hrd2). lia.
Qed.

Lemma in_unit_of (x : float) :
  (0 <=? x)%float = true → (x <=? 1)%float = true → in_unit (Prim2SF x).
Proof.
  rewrite !leb_spec.
  change (Prim2SF 0) with (S754_zero false).
  change (Prim2SF 1) with (S754_finite false 4503599627370496 (-52)).
  pose proof (Prim2SF_valid x) as Hv.
  destruct (Prim2SF x) as [s|[]| |[] m e]; try done.
  intros _ Hle. split; [done|].
  apply (SFleb_val m 4503599627370496 e (-52) Hv) in Hle; [|done].
  exact Hle.
Qed.

Lemma add_eps_mono (x y : float) :
  (0 <=? x)%float = true → (x <=? y)%float = true → (y <=? 1)%float = true →
  (x + eps <=? y + eps)%float = true.
Proof.
  intros H0 Hxy H1.
  pose proof H0 as H0'. pose proof Hxy as Hxy'.
  rewrite leb_spec in H0', Hxy'. change (Prim2SF 0) with (S754_zero false) in H0'.
  assert ((0 <=? y)%float = true) as H0y.
  { rewrite leb_spec. change (Prim2SF 0) with (S754_zero false).
    destruct (Prim2SF x) as [s|[]| |[] m e], (Prim2SF y) as [z|[]| |[] m2 e2];
      done. }
  pose proof (in_unit_of y H0y H1) as Hy.
  pose proof (in_unit_below _ _ (Prim2SF_valid x) H0' Hxy' Hy) as Hx.
  rewrite leb_spec, !add_spec, Prim2SF_eps.
  by apply SFadd_eps_mono.
Qed.

Lemma SFleb_opp (a b : spec_float) :
  SFleb a b = true → SFleb (SFopp b) (SFopp a) = true.
Proof.
  unfold SFleb, SFcompare, SFopp.
  destruct a as [[]|[]| |[] m1 e1], b as [[]|[]| |[] m2 e2]; cbn [negb]; try done.
  - rewrite (Z.compare_antisym e1 e2).
    change (Pos.compare_cont Eq m2 m1) with (Pos.compare m2 m1).
    change (Pos.compare_cont Eq m1 m2) with (Pos.compare m1 m2).
    rewrite (Pos.compare_antisym m1 m2).
    by destruct (e1 ?= e2), (m1 ?= m2)%positive.
  - rewrite (Z.compare_antisym e1 e2).
    change (Pos.compare_cont Eq m2 m1) with (Pos.compare m2 m1).
    change (Pos.compare_cont Eq m1 m2) with (Pos.compare m1 m2).
    rewrite (Pos.compare_antisym m1 m2).
    by destruct (e1 ?= e2), (m1 ?= m2)%positive.
Qed.

Lemma leb_opp (a b : float) : (a <=? b)%float = true → (- b <=? - a)%float = true.
Proof. rewrite !leb_spec, !opp_spec. apply SFleb_opp. Qed.

Lemma SFcompare_refl (a : spec_float) : SFcompare a a = None ∨ SFcompare a a = Some Eq.
Proof.
  destruct a as [s|[]| |[] m e]; simpl; try by right.
  - by left.
  - right. by rewrite Z.compare_refl, Pos.compare_cont_refl.
  - right. by rewrite Z.compare_refl, Pos.compare_cont_refl.
Qed.

Lemma ltb_irrefl (a : float) : (a <? a)%float = false.
Proof.
  rewrite ltb_spec. unfold SFltb. by destruct (SFcompare_refl (Prim2SF a)) as [->| ->].
Qed.

Lemma SFleb_antisym (m1 m2 : positive) (e1 e2 : Z) :
  SFleb (S754_finite false m1 e1) (S754_finite false m2 e2) = true →
  SFleb (S754_finite false m2 e2) (S754_finite false m1 e1) = true →
  m1 = m2 ∧ e1 = e2.
Proof.
  unfold SFleb, SFcompare. rewrite (Z.compare_antisym e1 e2).
  change (Pos.compare_cont Eq m1 m2) with (Pos.compare m1 m2).
  change (Pos.compare_cont Eq m2 m1) with (Pos.compare m2 m1).
  rewrite (Pos.compare_antisym m1 m2).
  destruct (Z.compare_spec e1 e2) as [He|Hlt|Hgt]; [|done|done].
  destruct (Pos.compare_spec m1 m2) as [Hm|Hm|Hm]; done.
Qed.

Lemma leb_antisym_eps (a : float) :
  (a <=? eps)%float = true → (eps <=? a)%float = true → a = eps.
Proof.
  rewrite !leb_spec, Prim2SF_eps. intros H1 H2. apply Prim2SF_inj.
  rewrite Prim2SF_eps. unfold SFeps in *.
  destruct (Prim2SF a) as [s|[]| |[] m e];
    try discriminate H1; try discriminate H2.
  destruct (SFleb_antisym _ _ _ _ H1 H2) as [-> ->]. reflexivity.
Qed.

Lemma in_unit_leb_one (x : float) :
  in_unit (Prim2SF x) → (x <=? 1)%float = true.
Proof.
  rewrite leb_spec.
  change (Prim2SF 1) with (S754_finite false 4503599627370496 (-52)).
  destruct (Prim2SF x) as [s|[]| |[] m e]; try done.
  intros [Hb Hv]. by apply SFleb_val.
Qed.

Lemma unit_interval (x y : float) :
  (0 <=? x)%float = true → (x <=? y)%float = true → (y <=? 1)%float = true →
  (0 <=? y)%float = true ∧ (x <=? 1)%float = true.
Proof.
  intros H0 Hxy H1.
  pose proof H0 as H0'. pose proof Hxy as Hxy'.
  rewrite leb_spec in H0', Hxy'. change (Prim2SF 0) with (S754_zero false) in H0'.
  assert ((0 <=? y)%float = true) as H0y.
  { rewrite leb_spec. change (Prim2SF 0) with (S754_zero false).
    destruct (Prim2SF x) as [s|[]| |[] m e], (Prim2SF y) as [z|[]| |[] m2 e2];
      done. }
  split; [done|]. apply in_unit_leb_one.
  apply (in_unit_below _ _ (Prim2SF_valid x) H0' Hxy'). by apply in_unit_of.
Qed.

Lemma add_eps_absorbs (v : float) :
  (0 <=? v)%float = true → (v <=? 0x1p-105)%float = true → (v + eps)%float = eps.
Proof.
  intros H0 Hv.
  destruct (unit_interval v 0x1p-105 H0 Hv eq_refl) as [_ H1].
  apply leb_antisym_eps.
  - change eps with (0x1p-105 + eps)%float at 2. by apply add_eps_mono.
  - change eps with (0 + eps)%float at 1. by apply add_eps_mono.
Qed.

Lemma SFeqb_opp (a : spec_float) : SFeqb (SFopp a) (SFopp a) = SFeqb a a.
Proof.
  unfold SFeqb.
  destruct a as [[]|[]| |[] m e]; simpl; try done;
    by rewrite Z.compare_refl, Pos.compare_cont_refl.
Qed.

Lemma SFabs_opp (a : spec_float) : SFabs (SFopp a) = SFabs a.
Proof. by destruct a. Qed.

Lemma is_finite_opp (x : float) : is_finite (- x) = is_finite x.
Proof.
  unfold is_finite, is_nan, is_infinity.
  rewrite !FloatAxioms.eqb_spec, !abs_spec, !opp_spec, SFeqb_opp, SFabs_opp. done.
Qed.

(** *** The transform *)

(** C8, as amended.  [_inverse_scores] maps each value [v] of the column
    to [-log10(v + eps)], the sum being the rounded sum of binary64.
    So [inverse(1.0)] is [-log10] of the number next above 1,
    [inverse(0.0)] is [-log10(eps)], finite as soon as [log10] is
    finite at the positive number [eps], and, for a [log10] that does
    not decrease between [eps] and [1 + eps], the transform does not
    increase between 0 and 1.  It is not strictly decreasing there:
    the sum absorbs every [v] up to [2^-105], which gets the value of
    [inverse(0.0)]. *)
Theorem inverse_scores_spec (log10 : float → float) :
  (∀ score, _inverse_scores log10 score = map (λ v, - log10 (v + eps))%float score)
  ∧ inverse log10 1 = (- log10 0x1.0000000000001p+0)%float
  ∧ inverse log10 0 = (- log10 eps)%float
  ∧ (is_finite (log10 eps) = true → is_finite (inverse log10 0) = true)
  ∧ (nondecreasing_between log10 eps (1 + eps) →
     ∀ v1 v2, (0 <=? v1)%float = true → (v1 <=? v2)%float = true →
              (v2 <=? 1)%float = true →
              (inverse log10 v2 <=? inverse log10 v1)%float = true)
  ∧ (∀ v, (0 <=? v)%float = true → (v <=? 0x1p-105)%float = true →
          inverse log10 v = inverse log10 0).
Proof.
  split_and!.
  - done.
  - done.
  - done.
  - intros Hfin. unfold inverse. change (0 + eps)%float with eps.
    by rewrite is_finite_opp.
  - intros Hlog v1 v2 H0 H12 H1. unfold inverse.
    destruct (unit_interval v1 v2 H0 H12 H1) as [H0' H1'].
    apply leb_opp, Hlog.
    + change eps with (0 + eps)%float at 1. by apply add_eps_mono.
    + by apply add_eps_mono.
    + by apply add_eps_mono.
  - intros v H0 Hv. unfold inverse. by rewrite (add_eps_absorbs v H0 Hv).
Qed.

(** C8, counterexample.  [2^-200] and [2^-199] are two different numbers
    of (0, 1], and adding [eps] to either gives [eps]: whatever [log10]
    is, the transform takes the same value at both, so it is not
    strictly decreasing over (0, 1]. *)
Lemma inverse_not_strictly_decreasing :
  (0 <? 0x1p-200)%float = true
  ∧ (0x1p-200 <? 0x1p-199)%float = true
  ∧ (0x1p-199 <=? 1)%float = true
  ∧ ∀ log10 : float → float,
      inverse log10 0x1p-200 = inverse log10 0x1p-199
      ∧ (inverse log10 0x1p-199 <? inverse log10 0x1p-200)%float = false.
Proof.
  split_and!; [done|done|done|]. intros log10. unfold inverse.
  change (0x1p-200 + eps)%float with eps. change (0x1p-199 + eps)%float with eps.
  split; [done|]. apply ltb_irrefl.
Qed.

Lemma inverse_scores_spec_witness :
  nondecreasing_between (fun x => x) eps (1 + eps)
  ∧ is_finite eps = true
  ∧ is_finite (inverse (fun x => x) 0) = true
  ∧ (inverse (fun x => x) 0.5 <=? inverse (fun x => x) 0.25)%float = true
  ∧ inverse (fun x => x) 0x1p-106 = inverse (fun x => x) 0.
Proof.
  assert (nondecreasing_between (fun x => x) eps (1 + eps)) as Hid.
  { intros x y _ Hxy _. exact Hxy. }
  destruct (inverse_scores_spec (fun x => x)) as (_ & _ & _ & Hfin & Hmono & Hflat).
  split_and!; [exact Hid | reflexivity | exact (Hfin eq_refl)
              | exact (Hmono Hid 0.25%float 0.5%float eq_refl eq_refl eq_refl)
              | exact (Hflat 0x1p-106%float eq_refl eq_refl)].
Defined.

End InverseFacts.
